(** * Generative social choice topics: generation, formatting and diversity scoring

    A shallow embedding of the three batch scripts of the repository

    - [generate_statements_unified.py]  (module [Generate]),
    - [format_results_unified.py]       (module [Format]),
    - [evaluate_diversity.py]           (module [Evaluate]),

    together with the Python string and container primitives they use.

    Conventions.  Python strings are lists of characters ([pystr]); floats are
    idealised as real numbers ([R]) in [Evaluate], and are binary64 numbers
    in [Float64]; a Python [dict] decoded from JSON is an
    association list in insertion order; accumulating dictionaries are finite
    maps ([gmap]).  Remote services, the JSON codec and the file system are
    parameters of the development.  Every effectful function runs in the
    monad [M], which threads the log of remote calls and file-system
    operations and carries Python exceptions.  Console output is not part of
    the log. *)

From Stdlib Require Import Reals Lra Lia ZArith List Ascii String.
From Stdlib Require Import Permutation Sorted DecimalString DecimalNat.
From Stdlib Require DecimalFacts.
From Stdlib Require PrimFloat Uint63 SpecFloat FloatOps FloatAxioms.
From stdpp Require Import base option list gmap strings.
From stdpp Require sorting.

#[local] Open Scope list_scope.
#[local] Unset Default Proof Using.
#[local] Set Warnings "-register-all".

(* ================================================================== *)
(** * Python strings *)
(* ================================================================== *)

Module PyStr.

Abbreviation pystr := (list ascii).

(** A literal. *)
Definition str (s : string) : pystr := list_ascii_of_string s.
#[global] Arguments str : simpl never.

(** [s.startswith(pat)]. *)
Fixpoint starts_with (pat s : pystr) : bool :=
  match pat, s with
  | [], _ => true
  | _ :: _, [] => false
  | p :: pat', c :: s' => Ascii.eqb p c && starts_with pat' s'
  end.

(** Lowest index at which [pat] occurs in [s]. *)
Fixpoint find_nat (pat s : pystr) : option nat :=
  if starts_with pat s then Some 0
  else match s with
       | [] => None
       | _ :: s' => S <$> find_nat pat s'
       end.

(** Highest index at which [pat] occurs in [s]. *)
Fixpoint rfind_nat (pat s : pystr) : option nat :=
  match s with
  | [] => if starts_with pat [] then Some 0 else None
  | _ :: s' =>
      match rfind_nat pat s' with
      | Some i => Some (S i)
      | None => if starts_with pat s then Some 0 else None
      end
  end.

Definition index_or_minus1 (o : option nat) : Z :=
  match o with Some i => Z.of_nat i | None => (-1)%Z end.

(** [s.find(pat)] and [s.rfind(pat)]: the index, or [-1]. *)
Definition str_find (pat s : pystr) : Z := index_or_minus1 (find_nat pat s).
Definition str_rfind (pat s : pystr) : Z := index_or_minus1 (rfind_nat pat s).

(** [pat in s]. *)
Definition str_in (pat s : pystr) : bool :=
  match find_nat pat s with Some _ => true | None => false end.

(** [s[a:b]] for indices that are not negative. *)
Definition slice (s : pystr) (a b : Z) : pystr :=
  take (Z.to_nat b - Z.to_nat a) (drop (Z.to_nat a) s).

(** [s.replace(old, new)]: occurrences are replaced left to right and do not
    overlap.  [skip] counts the characters of a matched occurrence that are
    still to be passed over. *)
Fixpoint replace_go (old new : pystr) (skip : nat) (s : pystr) : pystr :=
  match s with
  | [] => []
  | c :: s' =>
      match skip with
      | S k => replace_go old new k s'
      | O =>
          if starts_with old (c :: s')
          then new ++ replace_go old new (length old - 1) s'
          else c :: replace_go old new 0 s'
      end
  end.

Definition str_replace (old new s : pystr) : pystr :=
  match old with
  | [] => new ++ flat_map (fun c => c :: new) s
  | _ :: _ => replace_go old new 0 s
  end.

(** [s.split(sep, 1)] for a separator that is not empty. *)
Definition split_once (sep s : pystr) : list pystr :=
  match find_nat sep s with
  | Some i => [take i s; drop (i + length sep) s]
  | None => [s]
  end.

(** [s.endswith(suffix)]. *)
Definition ends_with (suffix s : pystr) : bool :=
  starts_with (rev suffix) (rev s).

(** [sep.join(parts)]. *)
Fixpoint join (sep : pystr) (parts : list pystr) : pystr :=
  match parts with
  | [] => []
  | [x] => x
  | x :: rest => x ++ sep ++ join sep rest
  end.

(** [s * n]. *)
Definition str_mul (s : pystr) (n : nat) : pystr := concat (replicate n s).

(** [s.upper()] on the ASCII letters. *)
Definition upper_char (c : ascii) : ascii :=
  let n := nat_of_ascii c in
  if (97 <=? n)%nat && (n <=? 122)%nat then ascii_of_nat (n - 32) else c.

Definition upper (s : pystr) : pystr := map upper_char s.

(** [str(n)] for a natural number. *)
Definition str_of_nat (n : nat) : pystr :=
  str (NilEmpty.string_of_uint (Nat.to_uint n)).

(** Truth value of a string: empty strings are falsy. *)
Definition nonempty (s : pystr) : bool :=
  match s with [] => false | _ :: _ => true end.

(** Truth value of a string or [None] ([if response:], [if not topic]). *)
Definition truthy_str (o : option pystr) : bool :=
  match o with Some s => nonempty s | None => false end.

(** The line feed. *)
Definition newline : pystr := [ascii_of_nat 10].

End PyStr.
Export PyStr.

(* ================================================================== *)
(** * Decoded JSON values and Python dictionaries *)
(* ================================================================== *)

Module Json.

(** What [json.load] returns: [None], [bool], [int], [float], [str], [list]
    and [dict] (keys are strings, kept in insertion order). *)
Inductive json : Type :=
  | JNull
  | JBool (b : bool)
  | JInt (z : Z)
  | JFloat (f : PrimFloat.float)
  | JStr (s : pystr)
  | JArr (items : list json)
  | JObj (fields : list (pystr * json)).

Abbreviation dict := (list (pystr * json)).

Definition pystr_eqb (a b : pystr) : bool := bool_decide (a = b).

(** [d[k]] as an option; [k in d] is [is_Some]. *)
Fixpoint dict_get (k : pystr) (d : dict) : option json :=
  match d with
  | [] => None
  | (k', v) :: d' => if pystr_eqb k k' then Some v else dict_get k d'
  end.

Definition dict_has (k : pystr) (d : dict) : bool :=
  match dict_get k d with Some _ => true | None => false end.

(** [d.keys()]. *)
Definition dict_keys (d : dict) : list pystr := map fst d.

(** Truth value of a decoded value, as tested by [if v:]. *)
Definition truthy (v : json) : bool :=
  match v with
  | JNull => false
  | JBool b => b
  | JInt z => negb (z =? 0)%Z
  | JFloat f => negb (PrimFloat.eqb f PrimFloat.zero)
  | JStr s => nonempty s
  | JArr items => match items with [] => false | _ :: _ => true end
  | JObj fields => match fields with [] => false | _ :: _ => true end
  end.

(** The values that [len] accepts. *)
Definition has_len (v : json) : bool :=
  match v with
  | JStr _ | JArr _ | JObj _ => true
  | _ => false
  end.

(** Truth value of an optional value: [None] is falsy. *)
Definition truthy_opt (o : option json) : bool :=
  match o with Some v => truthy v | None => false end.

End Json.
Export Json.

(* ================================================================== *)
(** * Effects: the log of outside interactions, and exceptions *)
(* ================================================================== *)

Module Effects.

(** [pathlib.Path] values: a path given as text, [dir / name], [p.parent]. *)
Inductive path : Type :=
  | Path (s : pystr)
  | Child (dir : path) (name : pystr)
  | Parent (p : path).

#[global] Instance path_eq_dec : EqDecision path.
Proof. solve_decision. Defined.

(** One entry of the log. *)
Inductive event : Type :=
  | EvEmbed (model text : pystr)            (* client.embeddings.create *)
  | EvChat (model prompt : pystr)           (* client.chat.completions.create *)
  | EvRead (p : path)                       (* open(p, 'r') *)
  | EvWrite (p : path) (content : pystr)    (* open(p, 'w') and what is written *)
  | EvMkdir (p : path).                     (* p.mkdir(exist_ok=True) *)

Definition is_remote_call (e : event) : bool :=
  match e with EvEmbed _ _ | EvChat _ _ => true | _ => false end.

Definition is_write (e : event) : bool :=
  match e with EvWrite _ _ => true | _ => false end.

Inductive exn : Type :=
  | ValueError | TypeError | KeyError | AttributeError
  | JSONDecodeError | OSError | RecursionError
  | SystemExit.                      (* [parser.parse_args()] rejecting an argument *)

Inductive outcome (A : Type) : Type :=
  | Ok (a : A)
  | Raise (e : exn).
Arguments Ok {A} a.
Arguments Raise {A} e.

Definition log := list event.

(** Computations: from the log so far to an outcome and the extended log. *)
Definition M (A : Type) : Type := log -> outcome A * log.

Definition ret {A} (a : A) : M A := fun w => (Ok a, w).

Definition raise {A} (e : exn) : M A := fun w => (Raise e, w).

Definition bind {A B} (m : M A) (k : A -> M B) : M B :=
  fun w => match m w with
           | (Ok a, w') => k a w'
           | (Raise e, w') => (Raise e, w')
           end.

Definition emit (e : event) : M unit := fun w => (Ok tt, w ++ [e]).

Definition get_log : M log := fun w => (Ok w, w).

(** A computation without effects. *)
Definition lift {A} (o : outcome A) : M A := fun w => (o, w).

Definition obind {A B} (o : outcome A) (k : A -> outcome B) : outcome B :=
  match o with Ok a => k a | Raise e => Raise e end.

Declare Scope py_scope.
Delimit Scope py_scope with py.
Notation "x <- m ;; k" := (bind m (fun x => k))
  (at level 100, m at next level, k at level 200, right associativity) : py_scope.
Notation "m ;; k" := (bind m (fun _ => k))
  (at level 100, k at level 200, right associativity) : py_scope.
Notation "x <~ o ;; k" := (obind o (fun x => k))
  (at level 100, o at next level, k at level 200, right associativity) : py_scope.

#[local] Open Scope py_scope.

(** [[f(x) for x in l]] and [for x in l: ...] collecting the results. *)
Fixpoint mapM {A B} (f : A -> M B) (l : list A) : M (list B) :=
  match l with
  | [] => ret []
  | x :: l' => y <- f x ;; ys <- mapM f l' ;; ret (y :: ys)
  end.

Fixpoint omapM {A B} (f : A -> outcome B) (l : list A) : outcome (list B) :=
  match l with
  | [] => Ok []
  | x :: l' => y <~ f x ;; ys <~ omapM f l' ;; Ok (y :: ys)
  end.

(** [for x in l: body] threading a loop state. *)
Fixpoint foldM {A S} (body : S -> A -> M S) (s : S) (l : list A) : M S :=
  match l with
  | [] => ret s
  | x :: l' => s' <- body s x ;; foldM body s' l'
  end.

(** [for x in l: body] without a loop state. *)
Fixpoint forM_ {A} (body : A -> M unit) (l : list A) : M unit :=
  match l with
  | [] => ret tt
  | x :: l' => body x ;; forM_ body l'
  end.

End Effects.
Export Effects.
#[local] Open Scope py_scope.

(* ================================================================== *)
(** * [generate_statements_unified.py] *)
(* ================================================================== *)

Module Generate.

Record topic : Type := { id : pystr; question : pystr }.

Definition TOPICS : list topic :=
  [ {| id := str "elections";
       question := str "How should we increase the general public's trust in US elections?" |};
    {| id := str "littering";
       question := str "What are the best policies to prevent littering in public spaces?" |};
    {| id := str "campus_protests";
       question := str "What are your thoughts on the way university campus administrators should approach the issue of Israel/Gaza demonstrations?" |} ].

Definition build_criteria_based_prompt (few_shot_examples topic_question : pystr)
  : pystr :=
  few_shot_examples ++ newline ++ newline
  ++ str "Question: " ++ topic_question ++ newline ++ newline
  ++ str "Tell me 10 diverse perspectives about this question from different people. For each perspective, provide:" ++ newline
  ++ str "- A clear position or approach to answer the question" ++ newline
  ++ str "- One-word or one-phrase criteria that are important for their perspective" ++ newline
  ++ str "- An explanation of their reasoning" ++ newline ++ newline
  ++ str "Output the response in the same JSON format as the examples above, with perspectives numbered 1-10.".

Definition build_free_form_prompt (few_shot_examples topic_question : pystr)
  : pystr :=
  few_shot_examples ++ newline ++ newline
  ++ str "Question: " ++ topic_question ++ newline ++ newline
  ++ str "Tell me 10 diverse perspectives about this question from different people. For each perspective, provide:" ++ newline
  ++ str "- A clear position or approach to answer the question" ++ newline
  ++ str "- An explanation of their reasoning" ++ newline ++ newline
  ++ str "Output the response in the same JSON format as the examples above, with perspectives numbered 1-10.".

(** An entry of the list that [get_methods] returns. *)
Record method : Type := {
  name : pystr;
  examples : pystr;
  build_prompt : pystr -> pystr -> pystr
}.

(** The branches of [get_methods]: name prefix, criteria prompt file and
    free-form prompt file of a shot type; [None] where it raises. *)
Definition method_config (shot_type : pystr) : option (pystr * pystr * pystr) :=
  if pystr_eqb shot_type (str "1-shot") then
    Some (str "1-shot-",
          str "prompts/1-shot-criteria-based-prompting.txt",
          str "prompts/1-shot-free-form-prompting.txt")
  else if pystr_eqb shot_type (str "5-shot") then
    Some (str "",
          str "prompts/5-shot-criteria-based-prompting.txt",
          str "prompts/5-shot-free-form-prompting.txt")
  else None.

(** The list that [get_methods] returns. *)
Definition methods_of (prefix criteria_based_examples free_form_examples : pystr)
  : list method :=
  [ {| name := prefix ++ str "criteria-based";
       examples := criteria_based_examples;
       build_prompt := build_criteria_based_prompt |};
    {| name := prefix ++ str "free-form";
       examples := free_form_examples;
       build_prompt := build_free_form_prompt |} ].

(** [f"{method['name']}_{topic['id']}.json"]. *)
Definition output_name (method_name topic_id : pystr) : pystr :=
  method_name ++ str "_" ++ topic_id ++ str ".json".

(** What a call of the chat service does: it raises, or it answers with a
    message whose content is a string or [None]. *)
Inductive chat_reply : Type :=
  | ChatRaises
  | ChatContent (content : option pystr).

Definition is_chat (e : event) : bool :=
  match e with EvChat _ _ => true | _ => false end.

(** Number of chat calls made so far. *)
Definition chat_calls (w : log) : nat := length (filter (fun e => is_chat e = true) w).

Definition chat_model : pystr := str "gpt-5-2025-08-07".

(** The [choices] of the argument [--shot-type]. *)
Definition shot_type_choices : list pystr := [str "1-shot"; str "5-shot"; str "all"].

Section WithWorld.

(** The chat service: the reply to the [n]-th call, for a model and a prompt. *)
Variable chat_api : nat -> pystr -> pystr -> chat_reply.
(** [json.loads]: the decoded value or the exception raised, which is
    [JSONDecodeError] for a text that is not JSON; a text that is too deeply
    nested ([RecursionError]) or holds an integer with too many digits
    ([ValueError]) makes it raise an exception of another class. *)
Variable json_loads : pystr -> outcome json.
(** [json.dump(v, f, indent=2)]: the text written. *)
Variable json_dumps : json -> pystr.
(** Contents of the files that can be opened for reading. *)
Variable read_text : path -> option pystr.

Definition read_prompt_file (filepath : pystr) : M pystr :=
  match read_text (Path filepath) with
  | Some content => emit (EvRead (Path filepath)) ;; ret content
  | None => raise OSError
  end.

(** [generate_perspectives(prompt)]: any exception of the call is caught and
    turned into [None]. *)
Definition generate_perspectives (prompt : pystr) : M (option pystr) :=
  w <- get_log ;;
  emit (EvChat chat_model prompt) ;;
  match chat_api (chat_calls w) chat_model prompt with
  | ChatContent content => ret content
  | ChatRaises => ret None
  end.

(** [try: return json.loads(json_str)] with
    [except json.JSONDecodeError: return None]: any other exception passes. *)
Definition try_loads (json_str : pystr) : outcome (option json) :=
  match json_loads json_str with
  | Ok v => Ok (Some v)
  | Raise JSONDecodeError => Ok None
  | Raise e => Raise e
  end.

Definition extract_json (response_text : pystr) : outcome (option json) :=
  let start_idx := str_find (str "{") response_text in
  let end_idx := (str_rfind (str "}") response_text + 1)%Z in
  if negb (start_idx =? -1)%Z && (start_idx <? end_idx)%Z
  then try_loads (slice response_text start_idx end_idx)
  else Ok None.

Definition get_methods (shot_type : pystr) : M (list method) :=
  match method_config shot_type with
  | None => raise ValueError
  | Some (prefix, criteria_file, free_form_file) =>
      criteria_based_examples <- read_prompt_file criteria_file ;;
      free_form_examples <- read_prompt_file free_form_file ;;
      ret (methods_of prefix criteria_based_examples free_form_examples)
  end.

(** The body of the innermost loop of [main], for one topic and one method. *)
Definition generate_one (output_dir : path) (t : topic) (m : method) : M unit :=
  let prompt := build_prompt m (examples m) (question t) in
  response <- generate_perspectives prompt ;;
  match response with
  | Some text =>
      if nonempty text then
        perspectives <- lift (extract_json text) ;;
        match perspectives with
        | Some v =>
            if truthy v then
              let output_file := Child output_dir (output_name (name m) (id t)) in
              emit (EvWrite output_file (json_dumps v)) ;;
              (* the message that follows takes [len(perspectives)] *)
              if has_len v then ret tt else raise TypeError
            else ret tt
        | None => ret tt
        end
      else ret tt
  | None => ret tt
  end.

(** [main]: [shot_type_arg] is the value given for [--shot-type],
    [output_dir_arg] that for [--output-dir] (or their defaults).
    [parse_args] exits when the shot type is not one of the choices. *)
Definition main (shot_type_arg output_dir_arg : pystr) : M unit :=
  if negb (existsb (pystr_eqb shot_type_arg) shot_type_choices)
  then raise SystemExit
  else
    let output_dir := Path output_dir_arg in
    emit (EvMkdir output_dir) ;;
    let shot_types :=
      if pystr_eqb shot_type_arg (str "all")
      then [str "1-shot"; str "5-shot"] else [shot_type_arg] in
    forM_ (fun shot_type =>
             methods <- get_methods shot_type ;;
             forM_ (fun t => forM_ (fun m => generate_one output_dir t m) methods)
                   TOPICS)
          shot_types.

End WithWorld.

(** The method names that [get_methods] produces for the two shot types. *)
Definition method_names : list pystr :=
  flat_map (fun shot_type =>
              match method_config shot_type with
              | Some (prefix, _, _) => map name (methods_of prefix [] [])
              | None => []
              end)
           [str "1-shot"; str "5-shot"].

Definition topic_ids : list pystr := map id TOPICS.

End Generate.

(* ================================================================== *)
(** * [format_results_unified.py] *)
(* ================================================================== *)

Module Format.

Definition TOPIC_INFO : list (pystr * pystr) :=
  [ (str "elections",
     str "How should we increase the general public's trust in US elections?");
    (str "littering",
     str "What are the best policies to prevent littering in public spaces?");
    (str "campus_protests",
     str "What are your thoughts on the way university campus administrators should approach the issue of Israel/Gaza demonstrations?") ].

(** ** [int(key)] and [sorted(keys, key=int)] *)

Definition digit_of (c : ascii) : option Z :=
  let n := nat_of_ascii c in
  if (48 <=? n)%nat && (n <=? 57)%nat then Some (Z.of_nat (n - 48)) else None.

Definition is_digit (c : ascii) : bool :=
  match digit_of c with Some _ => true | None => false end.

(** White space that [int] skips at both ends of an ASCII string: tab,
    line feed, vertical tab, form feed, carriage return and the space. *)
Definition is_space (c : ascii) : bool :=
  let n := nat_of_ascii c in
  ((9 <=? n)%nat && (n <=? 13)%nat) || (n =? 32)%nat.

Fixpoint lstrip (s : pystr) : pystr :=
  match s with
  | c :: s' => if is_space c then lstrip s' else s
  | [] => []
  end.

Definition strip (s : pystr) : pystr := rev (lstrip (rev (lstrip s))).

(** Decimal digits, with single underscores allowed between digits. *)
Fixpoint digits_value (acc : Z) (after_digit : bool) (s : pystr) : option Z :=
  match s with
  | [] => if after_digit then Some acc else None
  | c :: s' =>
      match digit_of c with
      | Some d => digits_value (10 * acc + d) true s'
      | None =>
          if Ascii.eqb c "_" && after_digit then digits_value acc false s'
          else None
      end
  end.

(** The most digits that [int] converts ([sys.get_int_max_str_digits()],
    which the script leaves at its default). *)
Definition int_max_str_digits : nat := 4300.

(** Every character is an ASCII character. *)
Definition is_ascii (s : pystr) : bool :=
  forallb (fun c => (nat_of_ascii c <? 128)%nat) s.

(** [int(s)] for a string of ASCII characters: white space around, a sign,
    digits, of which there are at most [int_max_str_digits]; what is not
    such a numeral is a [ValueError].  (For a string with other characters
    [int] consults the Unicode database, which knows more digits and more
    white space; what [py_int] accepts, [int] accepts with the same
    value.) *)
Definition py_int (s : pystr) : outcome Z :=
  let t := strip s in
  let v :=
    match t with
    | c :: r =>
        if Ascii.eqb c "+" then digits_value 0 false r
        else if Ascii.eqb c "-" then Z.opp <$> digits_value 0 false r
        else digits_value 0 false t
    | [] => None
    end in
  match v with
  | Some z =>
      if (length (List.filter is_digit t) <=? int_max_str_digits)%nat
      then Ok z else Raise ValueError
  | None => Raise ValueError
  end.

Fixpoint insert_by_key {A} (kx : Z * A) (l : list (Z * A)) : list (Z * A) :=
  match l with
  | [] => [kx]
  | ky :: rest =>
      if (fst kx <=? fst ky)%Z then kx :: l else ky :: insert_by_key kx rest
  end.

(** A stable sort on the keys. *)
Definition sort_by_key {A} (l : list (Z * A)) : list (Z * A) :=
  fold_right insert_by_key [] l.

(** [sorted(keys, key=lambda x: int(x))]: every key is converted first. *)
Definition sorted_by_int (keys : list pystr) : outcome (list pystr) :=
  ks <~ omapM py_int keys ;;
  Ok (map snd (sort_by_key (zip ks keys))).

(** ** Formatting *)

(** The argument of [', '.join(...)]: a string gives its characters, a dict
    its keys, a list its items when all are strings. *)
Definition join_items (v : json) : outcome (list pystr) :=
  match v with
  | JStr s => Ok (map (fun c => [c]) s)
  | JArr items =>
      omapM (fun x => match x with JStr s => Ok s | _ => Raise TypeError end) items
  | JObj fields => Ok (dict_keys fields)
  | _ => Raise TypeError
  end.

(** [d[k]]. *)
Definition dict_item (k : pystr) (d : dict) : outcome json :=
  match dict_get k d with Some v => Ok v | None => Raise KeyError end.

(** The [choices] of the argument [--shot-type]. *)
Definition shot_type_choices : list pystr := [str "1-shot"; str "5-shot"; str "all"].

Definition get_method_groups (shot_filter : pystr)
  : outcome (list (pystr * list pystr)) :=
  if pystr_eqb shot_filter (str "all") then
    Ok [ (str "5-shot", [str "criteria-based"; str "free-form"]);
         (str "1-shot", [str "1-shot-criteria-based"; str "1-shot-free-form"]) ]
  else if pystr_eqb shot_filter (str "5-shot") then
    Ok [ (str "5-shot", [str "criteria-based"; str "free-form"]) ]
  else if pystr_eqb shot_filter (str "1-shot") then
    Ok [ (str "1-shot", [str "1-shot-criteria-based"; str "1-shot-free-form"]) ]
  else Raise ValueError.

Section WithWorld.

(** [json.loads]; [None] stands for [JSONDecodeError]. *)
Variable json_loads : pystr -> option json.
(** Contents of the files that can be opened for reading. *)
Variable read_text : path -> option pystr.
(** [p.exists()]. *)
Variable path_exists : path -> bool.
(** [str(v)] for a decoded value that is not a string. *)
Variable py_str : json -> pystr.

(** A value inside an f-string. *)
Definition fmt (v : json) : pystr :=
  match v with JStr s => s | _ => py_str v end.

(** [format_perspective(num, perspective)]; only a dict supports both
    [in] and indexing by a string. *)
Definition format_perspective (num : pystr) (perspective : json)
  : outcome pystr :=
  match perspective with
  | JObj d =>
      let output := newline ++ str "  Perspective " ++ num ++ str ":" ++ newline in
      if dict_has (str "Criteria") d then
        stance <~ (if dict_has (str "Stance") d
                   then v <~ dict_item (str "Stance") d ;;
                        Ok (str "    Position: " ++ fmt v ++ newline)
                   else Ok []) ;;
        let output := output ++ stance in
        criteria <~ dict_item (str "Criteria") d ;;
        items <~ join_items criteria ;;
        let output :=
          output ++ str "    Key Criteria: " ++ join (str ", ") items ++ newline in
        reason <~ dict_item (str "Reason") d ;;
        Ok (output ++ str "    Reasoning: " ++ fmt reason ++ newline)
      else
        stance <~ (if dict_has (str "Stance") d
                   then v <~ dict_item (str "Stance") d ;;
                        Ok (str "    Position: " ++ fmt v ++ newline)
                   else Ok []) ;;
        let output := output ++ stance in
        reason <~ dict_item (str "Reason") d ;;
        Ok (output ++ str "    Reasoning: " ++ fmt reason ++ newline)
  | _ => Raise TypeError
  end.

(** The loop over [sorted(perspectives.keys(), key=int)] in
    [display_results]: the formatted perspectives, in the order in which
    they are appended.  Only a dict has [keys]. *)
Definition render_perspectives (perspectives : json) : outcome (list pystr) :=
  match perspectives with
  | JObj d =>
      keys <~ sorted_by_int (dict_keys d) ;;
      omapM (fun key => perspective <~ dict_item key d ;;
                        format_perspective key perspective)
            keys
  | _ => Raise AttributeError
  end.

(** [len(perspectives)] after the loop. *)
Definition py_len (v : json) : nat :=
  match v with
  | JObj d => length d
  | JArr items => length items
  | JStr s => length s
  | _ => 0
  end.

Definition rule (c : string) : pystr := str_mul (str c) 80.

(** The body of the loop over the methods of a group. *)
Definition method_lines (output_path : path) (topic_id : pystr)
    (lines : list pystr) (method : pystr) : M (list pystr) :=
  let filename := method ++ str "_" ++ topic_id ++ str ".json" in
  let filepath := Child output_path filename in
  if negb (path_exists filepath) then
    ret (lines ++ [newline ++ str "  ⚠ Missing: " ++ filename])
  else
    let lines :=
      lines ++ [newline ++ rule "─"; str "METHOD: " ++ upper method; rule "─"] in
    match read_text filepath with
    | None => raise OSError
    | Some content =>
        emit (EvRead filepath) ;;
        match json_loads content with
        | None => raise JSONDecodeError
        | Some perspectives =>
            rendered <- lift (render_perspectives perspectives) ;;
            ret (lines ++ rendered
                 ++ [newline ++ str "  Total perspectives: "
                     ++ str_of_nat (py_len perspectives)])
        end
    end.

(** The body of the loop over the method groups. *)
Definition group_lines (output_path : path) (shot_filter topic_id : pystr)
    (lines : list pystr) (group : pystr * list pystr) : M (list pystr) :=
  let '(shot_label, methods) := group in
  let lines :=
    if pystr_eqb shot_filter (str "all")
    then lines ++ [newline ++ rule "=";
                   str "  " ++ upper shot_label ++ str " EXAMPLES"; rule "="]
    else lines in
  foldM (method_lines output_path topic_id) lines methods.

(** The body of the loop over the topics. *)
Definition topic_lines (output_path : path) (shot_filter : pystr)
    (method_groups : list (pystr * list pystr))
    (lines : list pystr) (topic : pystr * pystr) : M (list pystr) :=
  let '(topic_id, topic_question) := topic in
  let lines :=
    lines ++ [newline ++ rule "#"; str "# TOPIC: " ++ topic_question; rule "#"] in
  foldM (group_lines output_path shot_filter topic_id) lines method_groups.

Definition display_results (output_dir shot_filter : pystr)
    (save_file : option pystr) : M unit :=
  let output_path := Path output_dir in
  if negb (path_exists output_path) then ret tt
  else
    method_groups <- lift (get_method_groups shot_filter) ;;
    let header := rule "=" in
    let title :=
      if pystr_eqb shot_filter (str "all")
      then str "GENERATED DIVERSE PERSPECTIVES - COMPARISON OF 5-SHOT vs 1-SHOT"
      else str "GENERATED DIVERSE PERSPECTIVES - " ++ upper shot_filter
           ++ str " EXAMPLES" in
    let lines := [header; title; header] in
    lines <- foldM (topic_lines output_path shot_filter method_groups)
                   lines TOPIC_INFO ;;
    let lines :=
      lines ++ [newline ++ header; str "END OF RESULTS"; header ++ newline] in
    let output_text := join newline lines in
    match save_file with
    | Some file =>
        if nonempty file then
          let save_path := Path file in
          emit (EvMkdir (Parent save_path)) ;;
          emit (EvWrite save_path output_text)
        else ret tt
    | None => ret tt
    end.

(** [main]: [shot_type], [output_dir] and [save] are the values given for
    [--shot-type], [--output-dir] and [--save] (or their defaults).
    [parse_args] exits when the shot type is not one of the choices;
    without [--save] the file name is made from the output directory and
    the shot type. *)
Definition main (shot_type output_dir : pystr) (save : option pystr) : M unit :=
  if negb (existsb (pystr_eqb shot_type) shot_type_choices)
  then raise SystemExit
  else
    let save_file :=
      if negb (truthy_str save) && nonempty output_dir then
        if pystr_eqb shot_type (str "all")
        then Some (output_dir ++ str "/formatted_results_all.txt")
        else Some (output_dir ++ str "/formatted_results_" ++ shot_type ++ str ".txt")
      else save in
    display_results output_dir shot_type save_file.

End WithWorld.

(** ** Well-formed output files *)

(** A decimal numeral that [int] converts: ASCII digits only, at least
    one and at most [int_max_str_digits]. *)
Definition is_numeral (s : pystr) : bool :=
  nonempty s && forallb is_digit s && (length s <=? int_max_str_digits)%nat.

(** A value that [', '.join] accepts. *)
Definition joinable (v : json) : bool :=
  match v with
  | JStr _ | JObj _ => true
  | JArr items =>
      forallb (fun x => match x with JStr _ => true | _ => false end) items
  | _ => false
  end.

(** Every key is a numeral and every value an object with a ['Reason']. *)
Definition numbered_reasons (d : dict) : Prop :=
  Forall (fun kv => is_numeral kv.1 = true
                    /\ exists p, kv.2 = JObj p /\ dict_has (str "Reason") p = true)
         d.

(** As [numbered_reasons], and a ['Criteria'], where present, can be
    joined. *)
Definition well_formed (d : dict) : Prop :=
  Forall (fun kv => is_numeral kv.1 = true
                    /\ exists p, kv.2 = JObj p /\ dict_has (str "Reason") p = true
                       /\ forall c, dict_get (str "Criteria") p = Some c ->
                                    joinable c = true)
         d.

(** The integer that [int] makes of a key; [0] where it raises. *)
Definition int_of (s : pystr) : Z :=
  match py_int s with Ok z => z | Raise _ => 0%Z end.

End Format.

(* ================================================================== *)
(** * [evaluate_diversity.py] *)
(* ================================================================== *)

Module Evaluate.

#[local] Open Scope R_scope.

(** ** Vector arithmetic ([numpy]) *)

(** Sum of a list of reals. *)
Definition rsum (l : list R) : R := fold_right Rplus 0 l.

(** [np.dot] on two one-dimensional arrays; shapes that differ are a
    [ValueError]. *)
Definition np_dot (v1 v2 : list R) : outcome R :=
  if (length v1 =? length v2)%nat
  then Ok (rsum (zip_with Rmult v1 v2))
  else Raise ValueError.

(** [np.linalg.norm] of a one-dimensional real array. *)
Definition np_linalg_norm (v : list R) : R := sqrt (rsum (zip_with Rmult v v)).

(** [np.mean] of a list of real numbers, where the order of the additions
    plays no part; [Float64.np_mean] adds as numpy does. *)
Definition np_mean (l : list R) : R := rsum l / INR (length l).

(** [cosine_distance] on real vectors.  It stands for the code where both
    vectors are nonzero; for a vector of norm zero the code divides zero by
    zero and returns [nan] (see [Float64.cosine_distance]), which is no real
    number, and the properties about the distance leave that case out. *)
Definition cosine_distance (vec1 vec2 : list R) : outcome R :=
  d <~ np_dot vec1 vec2 ;;
  let similarity := d / (np_linalg_norm vec1 * np_linalg_norm vec2) in
  let distance := 1 - similarity in
  Ok distance.

(** ** Iteration helpers ([itertools], builtins) *)

(** [itertools.combinations(l, r)]: the [r]-element subsequences of [l], in
    lexicographic order of positions. *)
Fixpoint combinations {A} (l : list A) (r : nat) {struct l} : list (list A) :=
  match r, l with
  | O, _ => [[]]
  | S _, [] => []
  | S r', x :: l' => map (cons x) (combinations l' r') ++ combinations l' r
  end.

(** [enumerate(l)]. *)
Definition enumerate {A} (l : list A) : list (nat * A) :=
  zip (seq 0 (length l)) l.

(** ** File names *)

Definition parse_filename (filename : pystr) : option pystr * option pystr :=
  let name := str_replace (str ".json") (str "") filename in
  let parts := split_once (str "_") name in
  match parts with
  | [approach; topic] => (Some topic, Some approach)
  | _ => (None, None)
  end.

(** ** Reasons *)

(** [extract_reasons]: [data.items()] needs a dict. *)
Definition extract_reasons (data : json) : outcome (list json) :=
  match data with
  | JObj fields =>
      Ok (flat_map
            (fun kv =>
               match snd kv with
               | JObj value =>
                   match dict_get (str "Reason") value with
                   | Some r => [r]
                   | None => []
                   end
               | _ => []
               end)
            fields)
  | _ => Raise AttributeError
  end.

Definition outputs_dir : path :=
  Path (str "/Users/jeqcho/evaluate-generative-social-choice-topics/outputs").

(** [all_scores]: file name to score; [results_by_topic]: topic to approach
    to score. *)
Abbreviation scores := (gmap pystr R).
Abbreviation topic_scores := (gmap pystr (gmap pystr R)).

Section WithWorld.

(** The embedding service: model name and text to vector. *)
Variable embed_api : pystr -> pystr -> list R.
(** [json.loads]; [None] stands for [JSONDecodeError]. *)
Variable json_loads : pystr -> option json.
(** Contents of the files that can be opened for reading. *)
Variable read_text : path -> option pystr.

Definition default_model : pystr := str "text-embedding-3-large".

(** [get_embedding(text)] with the default model; [text.replace] needs a
    string. *)
Definition get_embedding (text : json) : M (list R) :=
  match text with
  | JStr s =>
      let text' := str_replace newline (str " ") s in
      emit (EvEmbed default_model text') ;;
      ret (embed_api default_model text')
  | _ => raise AttributeError
  end.

Definition load_json_file (filepath : path) : M json :=
  match read_text filepath with
  | None => raise OSError
  | Some content =>
      emit (EvRead filepath) ;;
      match json_loads content with
      | Some v => ret v
      | None => raise JSONDecodeError
      end
  end.

(** The loop body of [calculate_semantic_diversity]: unpack a pair of
    enumerated embeddings and take their distance. *)
Definition pair_distance (c : list (nat * list R)) : outcome R :=
  match c with
  | [(_, emb1); (_, emb2)] => cosine_distance emb1 emb2
  | _ => Raise ValueError
  end.

Definition calculate_semantic_diversity (reasons : list json) : M R :=
  if (length reasons <? 2)%nat then ret 0
  else
    embeddings <- mapM get_embedding reasons ;;
    distances <- lift (omapM pair_distance
                         (combinations (enumerate embeddings) 2)) ;;
    ret (np_mean distances).

(** One iteration of the loop over the JSON files in [main]. *)
Definition score_file (st : scores * topic_scores) (filename : pystr)
  : M (scores * topic_scores) :=
  if pystr_eqb filename (str "formatted_results.txt") then ret st
  else
    let '(topic, approach) := parse_filename filename in
    if negb (truthy_str topic) || negb (truthy_str approach) then ret st
    else
      match topic, approach with
      | Some topic, Some approach =>
          data <- load_json_file (Child outputs_dir filename) ;;
          reasons <- lift (extract_reasons data) ;;
          if (length reasons <? 2)%nat then ret st
          else
            diversity_score <- calculate_semantic_diversity reasons ;;
            let '(all_scores, results_by_topic) := st in
            let all_scores := <[filename := diversity_score]> all_scores in
            let results_by_topic :=
              match results_by_topic !! topic with
              | None => <[topic := ∅]> results_by_topic
              | Some _ => results_by_topic
              end in
            let results_by_topic :=
              <[topic := <[approach := diversity_score]>
                           (default ∅ (results_by_topic !! topic))]>
                results_by_topic in
            ret (all_scores, results_by_topic)
      | _, _ => ret st
      end.

(** [outputs_dir.glob("*.json")] on the names of the directory. *)
Definition glob_json (listing : list pystr) : list pystr :=
  List.filter (ends_with (str ".json")) listing.

(** The scoring loop of [main].  [listing] holds the names in
    [outputs_dir] in sorted order, so that [glob_json listing] is
    [sorted(outputs_dir.glob("*.json"))].  The loop returns [all_scores] and
    [results_by_topic]; the report and the chart that [main] produces
    afterwards only read these two maps. *)
Definition main_scores (listing : list pystr) : M (scores * topic_scores) :=
  let json_files := glob_json listing in
  foldM score_file (∅, ∅) json_files.

End WithWorld.

End Evaluate.

(* ================================================================== *)
(** * The metric of [evaluate_diversity.py] in the arithmetic of the code *)
(* ================================================================== *)

(** The functions of [Evaluate] that compute with numbers, on [float64]
    values (binary64, rounding to nearest even) instead of real numbers. *)
Module Float64.

Import PrimFloat.
#[local] Open Scope float_scope.

(** [np.dot] on two one-dimensional [float64] arrays; the products are
    added from left to right.  (The order in which the BLAS library adds
    them, and whether it fuses the additions with the multiplications, is a
    matter of its build; all orders give the same number where the products
    and their sums are exact.) *)
Definition np_dot (v1 v2 : list float) : outcome float :=
  if (length v1 =? length v2)%nat
  then Ok (fold_left add (zip_with mul v1 v2) 0)
  else Raise ValueError.

(** [np.linalg.norm] of a one-dimensional array: [sqrt(x.dot(x))]. *)
Definition np_linalg_norm (v : list float) : float :=
  sqrt (fold_left add (zip_with mul v v) 0).

Definition cosine_distance (vec1 vec2 : list float) : outcome float :=
  d <~ np_dot vec1 vec2 ;;
  let similarity := d / (np_linalg_norm vec1 * np_linalg_norm vec2) in
  let distance := 1 - similarity in
  Ok distance.

(** numpy's pairwise summation, on up to 128 numbers and at least eight:
    eight running sums take every eighth number each, are added in pairs,
    and the numbers left over are added one by one. *)
Fixpoint add_blocks (fuel : nat) (r rest : list float) : list float * list float :=
  match fuel with
  | O => (r, rest)
  | S fuel' =>
      if (8 <=? length rest)%nat
      then add_blocks fuel' (zip_with add r (take 8 rest)) (drop 8 rest)
      else (r, rest)
  end.

Definition sum_block (l : list float) : float :=
  let '(r, rest) := add_blocks (length l) (take 8 l) (drop 8 l) in
  match r with
  | [r0; r1; r2; r3; r4; r5; r6; r7] =>
      fold_left add rest (((r0 + r1) + (r2 + r3)) + ((r4 + r5) + (r6 + r7)))
  | _ => fold_left add l 0
  end.

(** numpy's pairwise summation: fewer than eight numbers are added from
    left to right, more than 128 are split in two parts that are summed
    apart.  [fuel] bounds the number of splits; [length l] is enough. *)
Fixpoint pairwise_sum (fuel : nat) (l : list float) : float :=
  let n := length l in
  if (n <? 8)%nat then fold_left add l 0
  else if (n <=? 128)%nat then sum_block l
  else
    match fuel with
    | O => 0
    | S fuel' =>
        let n2 := (n / 2 - (n / 2) mod 8)%nat in
        pairwise_sum fuel' (take n2 l) + pairwise_sum fuel' (drop n2 l)
    end.

(** [np.mean] of a list of [float64] numbers: their sum, taken by
    [np.add.reduce] from the initial value [0.0], divided by their number. *)
Definition np_mean (l : list float) : float :=
  (0 + pairwise_sum (length l) l)
  / of_uint63 (Uint63.of_Z (Z.of_nat (length l))).

Section WithWorld.

(** The embedding service: model name and text to vector. *)
Variable embed_api : pystr -> pystr -> list float.

Definition get_embedding (text : json) : M (list float) :=
  match text with
  | JStr s =>
      let text' := str_replace newline (str " ") s in
      emit (EvEmbed Evaluate.default_model text') ;;
      ret (embed_api Evaluate.default_model text')
  | _ => raise AttributeError
  end.

Definition pair_distance (c : list (nat * list float)) : outcome float :=
  match c with
  | [(_, emb1); (_, emb2)] => cosine_distance emb1 emb2
  | _ => Raise ValueError
  end.

Definition calculate_semantic_diversity (reasons : list json) : M float :=
  if (length reasons <? 2)%nat then ret 0
  else
    embeddings <- mapM get_embedding reasons ;;
    distances <- lift (omapM pair_distance
                         (Evaluate.combinations (Evaluate.enumerate embeddings) 2)) ;;
    ret (np_mean distances).

End WithWorld.

(** An embedding service with three answers, all of dimension two and
    with small whole components, whose inner products are exact. *)
Definition toy_embed (model text : pystr) : list float :=
  if pystr_eqb text (str "x") then [0; 1]
  else if pystr_eqb text (str "y") then [1; 0]
  else [2; 3].

End Float64.

(* ================================================================== *)
(** * The diversity metric as the specification words it, and auxiliary notions *)
(* ================================================================== *)

Module Metric.

#[local] Open Scope R_scope.

(** Inner product of two vectors of the same dimension. *)
Fixpoint dot (v1 v2 : list R) : R :=
  match v1, v2 with
  | x :: v1', y :: v2' => x * y + dot v1' v2'
  | _, _ => 0
  end.

(** Euclidean norm. *)
Definition norm (v : list R) : R := sqrt (dot v v).

(** Cosine similarity [(v1 . v2) / (||v1|| * ||v2||)]. *)
Definition cosine_similarity (v1 v2 : list R) : R :=
  dot v1 v2 / (norm v1 * norm v2).

(** A vector with a component that is not zero. *)
Definition nonzero (v : list R) : Prop := exists x, x ∈ v /\ x <> 0.

(** The unordered pairs of positions [k <= i < j < k + n], each once. *)
Fixpoint index_pairs_from (k n : nat) : list (nat * nat) :=
  match n with
  | O => []
  | S n' => map (fun j => (k, j)) (seq (S k) n') ++ index_pairs_from (S k) n'
  end.

Definition index_pairs (n : nat) : list (nat * nat) := index_pairs_from 0 n.

(** The sum of a list of numbers. *)
Fixpoint total (l : list R) : R :=
  match l with
  | [] => 0
  | x :: l' => x + total l'
  end.

(** Mean cosine distance over all unordered pairs of the vectors [embs]. *)
Definition mean_pairwise_distance (embs : list (list R)) : R :=
  let n := length embs in
  total
    (map (fun ij => 1 - cosine_similarity (nth (fst ij) embs []) (nth (snd ij) embs []))
         (index_pairs n))
  / INR (n * (n - 1) / 2).

(** All vectors of [embs] have dimension [d]. *)
Definition all_dim (d : nat) (embs : list (list R)) : Prop :=
  Forall (fun v => length v = d) embs.

(** The pairs of elements of a list at positions [i < j], in the order of
    [itertools.combinations]. *)
Fixpoint value_pairs {A} (l : list A) : list (A * A) :=
  match l with
  | [] => []
  | x :: l' => map (pair x) l' ++ value_pairs l'
  end.

(** The text sent to the embedding service for a reason, the vector that
    comes back, and the log entry of the call. *)
Definition sent_text (s : pystr) : pystr := str_replace newline (str " ") s.

Definition embedding_of (embed_api : pystr -> pystr -> list R) (s : pystr)
  : list R :=
  embed_api Evaluate.default_model (sent_text s).

Definition embed_event (s : pystr) : event :=
  EvEmbed Evaluate.default_model (sent_text s).

(** The distances of all pairs of [embs], or the exception of the first
    pair whose distance cannot be taken. *)
Definition distances_of (embs : list (list R)) : outcome (list R) :=
  omapM (fun xy => Evaluate.cosine_distance (fst xy) (snd xy)) (value_pairs embs).

(** The diversity score of a list of reasons: what
    [calculate_semantic_diversity] returns, from any log. *)
Definition diversity_value (embed_api : pystr -> pystr -> list R)
    (reasons : list json) : outcome R :=
  (Evaluate.calculate_semantic_diversity embed_api reasons []).1.

(** The reasons that a file of the outputs directory yields. *)
Definition reasons_of (json_loads : pystr -> option json)
    (read_text : path -> option pystr) (filename : pystr) : option (list json) :=
  match read_text (Child Evaluate.outputs_dir filename) with
  | Some content =>
      match json_loads content with
      | Some data =>
          match Evaluate.extract_reasons data with
          | Ok reasons => Some reasons
          | Raise _ => None
          end
      | None => None
      end
  | None => None
  end.

(** An eligible output set: the name splits at its first underscore into
    an approach and a topic, both not empty, and the file yields at least
    two reasons.  The result is the topic, the approach and the reasons. *)
Definition eligible_entry (json_loads : pystr -> option json)
    (read_text : path -> option pystr) (filename : pystr)
  : option (pystr * pystr * list json) :=
  match Evaluate.parse_filename filename with
  | (Some topic, Some approach) =>
      if nonempty topic && nonempty approach then
        match reasons_of json_loads read_text filename with
        | Some reasons =>
            if (2 <=? length reasons)%nat then Some (topic, approach, reasons)
            else None
        | None => None
        end
      else None
  | _ => None
  end.

(** [results_by_topic[topic][approach]], where present. *)
Definition topic_score (results_by_topic : Evaluate.topic_scores)
    (topic approach : pystr) : option R :=
  results_by_topic !! topic ≫= (fun by_approach => by_approach !! approach).

(** A computation whose outcome does not depend on the log, and which only
    appends to it. *)
Definition appends_only {A} (m : M A) : Prop :=
  exists (r : outcome A) (evs : log), forall w, m w = (r, w ++ evs).

End Metric.

(* ================================================================== *)
(** * Properties of logs *)
(* ================================================================== *)

Module Logs.

(** [m] only appends to the log; what it appends satisfies [Q], and a
    value that it returns satisfies [P]. *)
Definition emits {A} (Q : log -> Prop) (P : A -> Prop) (m : M A) : Prop :=
  forall w, exists evs,
    (m w).2 = w ++ evs /\ Q evs /\ forall a, (m w).1 = Ok a -> P a.

(** Every write comes directly after a chat call: [prev_chat] tells whether
    the entry before the list is one. *)
Fixpoint writes_follow_chat (prev_chat : bool) (evs : log) : bool :=
  match evs with
  | [] => true
  | e :: rest =>
      (if is_write e then prev_chat else true)
      && writes_follow_chat (Generate.is_chat e) rest
  end.

(** No entry is a call of a remote service. *)
Definition no_remote_call (evs : log) : Prop :=
  Forall (fun e => is_remote_call e = false) evs.

(** A write of the generator: a truthy decoded value, serialized, into the
    file of one of its methods and topics inside [output_dir]. *)
Definition generator_write (json_dumps : json -> pystr) (output_dir : path)
    (e : event) : Prop :=
  exists m t v,
    m ∈ Generate.method_names /\ t ∈ Generate.topic_ids /\ truthy v = true
    /\ e = EvWrite (Child output_dir (Generate.output_name m t)) (json_dumps v).

(** [m] returns, from every log. *)
Definition succeeds {A} (m : M A) : Prop :=
  forall w, exists a w', m w = (Ok a, w').

(** [m] raises, from every log. *)
Definition always_raises {A} (m : M A) : Prop :=
  forall w, exists e w', m w = (Raise e, w').

Definition only_generator_writes (json_dumps : json -> pystr)
    (output_dir : path) (evs : log) : Prop :=
  Forall (fun e => is_write e = true -> generator_write json_dumps output_dir e) evs.

End Logs.

(* ================================================================== *)
(** * Small concrete worlds, for the examples *)
(* ================================================================== *)

Module Examples.

#[local] Open Scope R_scope.

(** An embedding service with three answers, all of dimension two. *)
Definition toy_embed (model text : pystr) : list R :=
  if pystr_eqb text (str "x") then [1; 0]
  else if pystr_eqb text (str "y") then [0; 1]
  else [1; 1].

(** JSON texts are written with ['] for the double quote. *)
Definition q (s : string) : pystr :=
  map (fun c => if Ascii.eqb c "'" then ascii_of_nat 34 else c) (str s).

Definition text_empty : pystr := q "{}".
Definition text_xy : pystr := q "{'1': {'Reason': 'x'}, '2': {'Reason': 'y'}}".
Definition text_xx : pystr := q "{'1': {'Reason': 'x'}, '2': {'Reason': 'x'}}".
Definition text_x : pystr := q "{'1': {'Reason': 'x'}}".
Definition text_criteria : pystr := q "{'1': {'Criteria': 5, 'Reason': 'x'}}".

Definition reason (k r : string) : pystr * json :=
  (str k, JObj [(str "Reason", JStr (str r))]).

(** [json.loads] on the five texts above. *)
Definition toy_loads (s : pystr) : option json :=
  if pystr_eqb s text_empty then Some (JObj [])
  else if pystr_eqb s text_xy then Some (JObj [reason "1" "x"; reason "2" "y"])
  else if pystr_eqb s text_xx then Some (JObj [reason "1" "x"; reason "2" "x"])
  else if pystr_eqb s text_x then Some (JObj [reason "1" "x"])
  else if pystr_eqb s text_criteria then
    Some (JObj [(str "1", JObj [(str "Criteria", JInt 5);
                                (str "Reason", JStr (str "x"))])])
  else None.

(** [json.loads] with its exceptions, as the generator sees it: a text
    that is not one of the five is not JSON. *)
Definition toy_decode (s : pystr) : outcome json :=
  match toy_loads s with Some v => Ok v | None => Raise JSONDecodeError end.

(** A decoder for which every text is nested too deeply. *)
Definition deep_decode (s : pystr) : outcome json := Raise RecursionError.

(** [json.dump(v, f, indent=2)] on the values that the examples write. *)
Definition toy_dumps (v : json) : pystr :=
  match v with
  | JObj [] => q "{}"
  | _ => q "{" ++ newline ++ q "  '1': {" ++ newline ++ q "    'Reason': 'x'"
         ++ newline ++ q "  }" ++ newline ++ q "}"
  end.

(** A chat service that always answers with [content]. *)
Definition toy_chat (content : pystr) (n : nat) (model prompt : pystr)
  : Generate.chat_reply :=
  Generate.ChatContent (Some content).

(** A chat service whose calls fail. *)
Definition failing_chat (n : nat) (model prompt : pystr) : Generate.chat_reply :=
  Generate.ChatRaises.

(** No prompt files. *)
Definition no_files (p : path) : option pystr := None.

Definition a_topic : Generate.topic :=
  {| Generate.id := str "elections";
     Generate.question := str "How should we increase the general public's trust in US elections?" |}.

Definition a_method : Generate.method :=
  {| Generate.name := str "free-form";
     Generate.examples := str "Example.";
     Generate.build_prompt := Generate.build_free_form_prompt |}.

(** The outputs directory of the evaluation with two files whose names
    are read as the same topic and approach, a third with one reason, and a
    fourth that is not JSON. *)
Definition toy_outputs (p : path) : option pystr :=
  if bool_decide (p = Child Evaluate.outputs_dir (str "a_b.json")) then Some text_xy
  else if bool_decide (p = Child Evaluate.outputs_dir (str "a_b.json.json"))
  then Some text_xx
  else if bool_decide (p = Child Evaluate.outputs_dir (str "c_d.json"))
  then Some text_x
  else if bool_decide (p = Child Evaluate.outputs_dir (str "e_f.json"))
  then Some (str "oops")
  else None.

(** A directory [outputs] that holds one file of the generator, with the
    given content. *)
Definition outputs : path := Path (str "outputs").

Definition the_file : path := Child outputs (str "criteria-based_elections.json").

Definition toy_exists (p : path) : bool :=
  bool_decide (p = outputs) || bool_decide (p = the_file).

Definition toy_read (content : pystr) (p : path) : option pystr :=
  if bool_decide (p = the_file) then Some content else None.

(** No value of the examples needs [str]. *)
Definition toy_str (v : json) : pystr := [].

(** Prompt files that can all be read. *)
Definition any_prompt (p : path) : option pystr := Some (str "Example.").

(** An outputs directory of the evaluation that holds one file of the
    generator. *)
Definition toy_generated (p : path) : option pystr :=
  if bool_decide (p = Child Evaluate.outputs_dir (str "free-form_elections.json"))
  then Some text_xy else None.

(** An embedding service whose answers differ in dimension. *)
Definition ragged_embed (model text : pystr) : list R :=
  if pystr_eqb text (str "x") then [1; 0] else [1; 0; 0].

End Examples.

(* ================================================================== *)
(** * Properties *)
(* ================================================================== *)

Example parse_doc_1 :
  Evaluate.parse_filename (str "criteria-based_elections.json")
  = (Some (str "elections"), Some (str "criteria-based")).
Proof. reflexivity. Qed.

Example parse_doc_2 :
  Evaluate.parse_filename (str "1-shot-free-form_campus_protests.json")
  = (Some (str "campus_protests"), Some (str "1-shot-free-form")).
Proof. reflexivity. Qed.

Example parse_inner_json :
  Evaluate.parse_filename (str "m_a.json.json") = (Some (str "a"), Some (str "m")).
Proof. reflexivity. Qed.

Example parse_no_underscore :
  Evaluate.parse_filename (str "notes.json") = (None, None).
Proof. reflexivity. Qed.

Example replace_does_not_overlap :
  str_replace (str "aa") (str "b") (str "aaaaa") = str "bba".
Proof. reflexivity. Qed.

Example split_at_first_only :
  split_once (str "_") (str "a_b_c") = [str "a"; str "b_c"].
Proof. reflexivity. Qed.

Example extract_json_widest_braces :
  Generate.extract_json (fun s => Ok (JStr s)) (str "Sure: {x} and {y}. Bye")
  = Ok (Some (JStr (str "{x} and {y}"))).
Proof. reflexivity. Qed.

Example extract_json_closing_first :
  Generate.extract_json (fun s => Ok (JStr s)) (str "} then {") = Ok None.
Proof. reflexivity. Qed.

Example extract_json_catches_one_class :
  Generate.extract_json (fun s => Raise JSONDecodeError) (str "{x}") = Ok None
  /\ Generate.extract_json (fun s => Raise RecursionError) (str "{x}")
     = Raise RecursionError.
Proof. split; reflexivity. Qed.

Example py_int_examples :
  Format.py_int (str "10") = Ok 10%Z
  /\ Format.py_int (str " 12 ") = Ok 12%Z
  /\ Format.py_int (str "-007") = Ok (-7)%Z
  /\ Format.py_int (str "1_0") = Ok 10%Z
  /\ Format.py_int (str "1__0") = Raise ValueError
  /\ Format.py_int (str "ten") = Raise ValueError
  /\ Format.py_int (str "") = Raise ValueError.
Proof. by vm_compute. Qed.

Example sorted_by_int_is_numeric :
  Format.sorted_by_int [str "10"; str "2"; str "1"; str "02"]
  = Ok [str "1"; str "2"; str "02"; str "10"].
Proof. reflexivity. Qed.

Example combinations_of_three :
  Evaluate.combinations [1; 2; 3] 2 = [[1; 2]; [1; 3]; [2; 3]].
Proof. reflexivity. Qed.

(* ------------------------------------------------------------------ *)
(** ** String primitives *)
(* ------------------------------------------------------------------ *)

Section StringFacts.

Implicit Types (pat old new s u v : pystr) (c : ascii).

Lemma starts_with_nil_pat s : starts_with [] s = true.
Proof. by destruct s. Qed.

Lemma starts_with_self_app pat s : starts_with pat (pat ++ s) = true.
Proof.
  induction pat as [|p pat IH]; simpl; [done|].
  by rewrite Ascii.eqb_refl, IH.
Qed.

Lemma starts_with_extend pat s v :
  starts_with pat s = true -> starts_with pat (s ++ v) = true.
Proof.
  revert s; induction pat as [|p pat IH]; intros [|c s]; simpl; try done.
  intros [-> H]%andb_prop. by rewrite IH.
Qed.

(** A pattern cannot match across a character that it does not contain. *)
Lemma starts_with_across pat u c v :
  c ∉ pat -> starts_with pat (u ++ c :: v) = starts_with pat u.
Proof.
  revert u; induction pat as [|p pat IH]; intros u Hc.
  { by destruct u. }
  apply not_elem_of_cons in Hc as [Hne Hc].
  destruct u as [|a u]; simpl.
  - destruct (Ascii.eqb p c) eqn:E; [|done].
    apply Ascii.eqb_eq in E. congruence.
  - by rewrite IH.
Qed.

Lemma find_nat_None_inv pat s :
  find_nat pat s = None ->
  forall a b, s = a ++ b -> starts_with pat b = false.
Proof.
  induction s as [|c s IH]; simpl; intros H a b Hs.
  - symmetry in Hs. apply app_eq_nil in Hs as [_ ->].
    by destruct (starts_with pat []).
  - destruct (starts_with pat (c :: s)) eqn:E; [done|].
    destruct (find_nat pat s) eqn:F; [done|].
    destruct a as [|a0 a]; simpl in Hs.
    + by subst b.
    + injection Hs as _ Hs. by eapply IH.
Qed.

Lemma str_in_false_inv pat s :
  str_in pat s = false ->
  forall a b, s = a ++ b -> starts_with pat b = false.
Proof.
  unfold str_in. destruct (find_nat pat s) eqn:F; [done|].
  intros _. by apply find_nat_None_inv.
Qed.

(** Where no occurrence starts, [find] moves on. *)
Lemma find_nat_after pat u v :
  (forall a b, u = a ++ b -> b <> [] -> starts_with pat (b ++ v) = false) ->
  find_nat pat (u ++ v) = Nat.add (length u) <$> find_nat pat v.
Proof.
  induction u as [|c u IH]; intros H.
  - simpl. by destruct (find_nat pat v).
  - change ((c :: u) ++ v) with (c :: (u ++ v)).
    cbn [find_nat].
    change (c :: (u ++ v)) with ((c :: u) ++ v).
    rewrite (H [] (c :: u)) by done.
    rewrite IH.
    + by destruct (find_nat pat v).
    + intros a b -> Hb. by apply (H (c :: a) b).
Qed.

Lemma replace_go_skip old new u v :
  replace_go old new (length u) (u ++ v) = replace_go old new 0 v.
Proof. induction u as [|c u IH]; simpl; [by destruct v|done]. Qed.

(** An occurrence at the front is replaced. *)
Lemma replace_go_hit old new v :
  old <> [] ->
  replace_go old new 0 (old ++ v) = new ++ replace_go old new 0 v.
Proof.
  destruct old as [|o old]; [done|]; intros _.
  change ((o :: old) ++ v) with (o :: (old ++ v)).
  cbn [replace_go].
  change (o :: (old ++ v)) with ((o :: old) ++ v).
  rewrite starts_with_self_app.
  cbn [length]. rewrite Nat.sub_succ, Nat.sub_0_r.
  by rewrite replace_go_skip.
Qed.

(** Where no occurrence starts, the text is kept. *)
Lemma replace_go_keep old new u v :
  (forall a b, u = a ++ b -> b <> [] -> starts_with old (b ++ v) = false) ->
  replace_go old new 0 (u ++ v) = u ++ replace_go old new 0 v.
Proof.
  induction u as [|c u IH]; intros H; [done|].
  change ((c :: u) ++ v) with (c :: (u ++ v)).
  cbn [replace_go].
  change (c :: (u ++ v)) with ((c :: u) ++ v).
  rewrite (H [] (c :: u)) by done.
  simpl. f_equal. apply IH.
  intros a b -> Hb. by apply (H (c :: a) b).
Qed.

End StringFacts.

(* ------------------------------------------------------------------ *)
(** ** File names: from the generator to the evaluation *)
(* ------------------------------------------------------------------ *)

Section FileNames.

Import Evaluate Generate.

(** [".json"] has no proper overlap with itself: an occurrence that starts
    inside [b] and runs into a following [".json"] lies inside [b]. *)
Lemma json_suffix_no_overlap (b : pystr) :
  b <> [] ->
  starts_with (str ".json") (b ++ str ".json") = true ->
  starts_with (str ".json") b = true.
Proof.
  intros Hb.
  destruct b as [|c1 [|c2 [|c3 [|c4 [|c5 b]]]]]; [done|..];
    unfold str; cbn [list_ascii_of_string app starts_with];
    repeat match goal with
           | |- context [Ascii.eqb ?x ?y] =>
               first [ is_var y; destruct (Ascii.eqb x y)
                     | let v := eval vm_compute in (Ascii.eqb x y) in
                       change (Ascii.eqb x y) with v ]
           end;
    cbn [andb]; done.
Qed.

Lemma replace_json_output_name (m t : pystr) :
  str_in (str ".json") m = false ->
  str_in (str ".json") t = false ->
  str_replace (str ".json") (str "") (output_name m t) = m ++ str "_" ++ t.
Proof.
  intros Hm Ht. unfold output_name.
  change (str_replace (str ".json") (str "")) with (replace_go (str ".json") [] 0).
  rewrite replace_go_keep.
  2:{ intros a b -> Hb.
      change (str "_" ++ t ++ str ".json") with ("_"%char :: (t ++ str ".json")).
      rewrite starts_with_across.
      - exact (str_in_false_inv _ _ Hm a b eq_refl).
      - intros H%list_elem_of_In. unfold str in H. cbn in H.
        intuition discriminate. }
  f_equal.
  change (str "_" ++ t ++ str ".json") with ("_"%char :: (t ++ str ".json")).
  cbn [replace_go]. change (starts_with (str ".json") _) with false. cbn iota.
  change (str "_" ++ t) with ("_"%char :: t). f_equal.
  rewrite replace_go_keep.
  2:{ intros a b -> Hb.
      destruct (starts_with (str ".json") (b ++ str ".json")) eqn:E; [|done].
      apply json_suffix_no_overlap in E; [|done].
      by rewrite (str_in_false_inv _ _ Ht a b) in E. }
  apply app_nil_r.
Qed.

Lemma split_once_underscore (m t : pystr) :
  str_in (str "_") m = false ->
  split_once (str "_") (m ++ str "_" ++ t) = [m; t].
Proof.
  intros Hm. unfold split_once, str in *.
  rewrite find_nat_after.
  2:{ intros a [|c b] -> Hb; [done|].
      pose proof (str_in_false_inv _ _ Hm a (c :: b) eq_refl) as H.
      cbn in H |- *. by destruct (Ascii.eqb "_" c). }
  cbn. rewrite Nat.add_0_r.
  rewrite take_app_length.
  by rewrite <- Nat.add_1_r, <- drop_drop, drop_app_length.
Qed.

(** The file name written for a method and a topic is read back as that
    topic and that method, when the method has no underscore and neither
    name contains [".json"]. *)
Lemma parse_output_name (m t : pystr) :
  str_in (str "_") m = false ->
  str_in (str ".json") m = false ->
  str_in (str ".json") t = false ->
  parse_filename (output_name m t) = (Some t, Some m).
Proof.
  intros Hu Hm Ht. unfold parse_filename.
  rewrite replace_json_output_name by done.
  by rewrite split_once_underscore.
Qed.

End FileNames.

Section RoundTrip.

Import Evaluate Generate.

(** The generator produces four method names and three topic ids. *)
Lemma method_names_eq :
  method_names = [str "1-shot-criteria-based"; str "1-shot-free-form";
                  str "criteria-based"; str "free-form"].
Proof. reflexivity. Qed.

Lemma topic_ids_eq :
  topic_ids = [str "elections"; str "littering"; str "campus_protests"].
Proof. reflexivity. Qed.

Lemma generator_names_clean (m t : pystr) :
  m ∈ method_names -> t ∈ topic_ids ->
  str_in (str "_") m = false /\ str_in (str ".json") m = false
  /\ str_in (str ".json") t = false.
Proof.
  rewrite method_names_eq, topic_ids_eq, !elem_of_cons, !elem_of_nil.
  intros Hm Ht.
  destruct Hm as [->|[->|[->|[->|[]]]]]; destruct Ht as [->|[->|[->|[]]]];
    by vm_compute.
Qed.

(** C3 (as stated) fails: a topic id that contains [".json"] is not read
    back, although the method name has no underscore; and the generator has
    four method names. *)
Lemma parse_filename_round_trip_fails :
  let m := str "free-form" in
  let t := str "polls.json" in
  str_in (str "_") m = false
  /\ parse_filename (output_name m t) = (Some (str "polls"), Some m)
  /\ parse_filename (output_name m t) <> (Some t, Some m)
  /\ length method_names = 4.
Proof. by vm_compute. Qed.

(** C3 (amended): [parse_filename] applied to the file name that the
    generator writes, [method + "_" + topic + ".json"], returns
    [(topic, method)] for every method name without underscore and every
    topic id, provided neither contains [".json"]; in particular for each of
    the four method names and three topic ids of the generator, including
    [campus_protests]. *)
Theorem parse_filename_round_trip (m t : pystr) :
  (str_in (str "_") m = false /\ str_in (str ".json") m = false
   /\ str_in (str ".json") t = false)
  \/ (m ∈ method_names /\ t ∈ topic_ids) ->
  parse_filename (output_name m t) = (Some t, Some m).
Proof.
  intros [H|[Hm Ht]].
  - destruct H as (Hu & Hj & Ht). by apply parse_output_name.
  - destruct (generator_names_clean m t Hm Ht) as (Hu & Hj & Hk).
    by apply parse_output_name.
Qed.

Lemma parse_filename_round_trip_witness :
  parse_filename (output_name (str "1-shot-free-form") (str "campus_protests"))
  = (Some (str "campus_protests"), Some (str "1-shot-free-form")).
Proof.
  apply (parse_filename_round_trip (str "1-shot-free-form") (str "campus_protests")).
  left. vm_compute. auto.
Defined.

End RoundTrip.

(* ------------------------------------------------------------------ *)
(** ** Cosine distance *)
(* ------------------------------------------------------------------ *)

Section CosineDistance.

Import Evaluate Metric.
#[local] Open Scope R_scope.

Implicit Types (v : list R).

Lemma rsum_zip_dot v1 v2 : rsum (zip_with Rmult v1 v2) = dot v1 v2.
Proof.
  revert v2; induction v1 as [|x v1 IH]; intros [|y v2]; simpl; try done.
  by rewrite IH.
Qed.

Lemma np_linalg_norm_eq v : np_linalg_norm v = norm v.
Proof. unfold np_linalg_norm, norm. by rewrite rsum_zip_dot. Qed.

Lemma dot_comm v1 v2 : dot v1 v2 = dot v2 v1.
Proof.
  revert v2; induction v1 as [|x v1 IH]; intros [|y v2]; simpl; try done.
  rewrite IH. lra.
Qed.

Lemma dot_self_nonneg v : 0 <= dot v v.
Proof.
  induction v as [|x v IH]; simpl; [lra|].
  pose proof (Rle_0_sqr x) as H. unfold Rsqr in H. lra.
Qed.

Lemma dot_self_pos v : nonzero v -> 0 < dot v v.
Proof.
  intros (x & Hin & Hx).
  induction v as [|y v IH]; [by apply elem_of_nil in Hin|].
  simpl. pose proof (dot_self_nonneg v) as Hv.
  apply elem_of_cons in Hin as [<-|Hin].
  - pose proof (Rsqr_pos_lt x Hx) as H. unfold Rsqr in H. lra.
  - specialize (IH Hin). pose proof (Rle_0_sqr y) as H. unfold Rsqr in H. lra.
Qed.

Lemma norm_pos v : nonzero v -> 0 < norm v.
Proof. intros H. apply sqrt_lt_R0. by apply dot_self_pos. Qed.

(** The value that [cosine_distance] returns on vectors of one dimension. *)
Lemma cosine_distance_same_dim v1 v2 :
  length v1 = length v2 ->
  cosine_distance v1 v2 = Ok (1 - cosine_similarity v1 v2).
Proof.
  intros Hlen. unfold cosine_distance, np_dot.
  apply Nat.eqb_eq in Hlen as ->. simpl.
  by rewrite rsum_zip_dot, !np_linalg_norm_eq.
Qed.

Lemma cosine_distance_diff_dim v1 v2 :
  length v1 <> length v2 -> cosine_distance v1 v2 = Raise ValueError.
Proof.
  intros Hlen. unfold cosine_distance, np_dot.
  by apply Nat.eqb_neq in Hlen as ->.
Qed.

Lemma cosine_similarity_comm v1 v2 :
  cosine_similarity v1 v2 = cosine_similarity v2 v1.
Proof.
  unfold cosine_similarity.
  by rewrite (dot_comm v1 v2), (Rmult_comm (norm v1)).
Qed.

(** C2: for nonzero vectors [v1], [v2] (of one dimension, so that their
    inner product is defined) [cosine_distance v1 v2] is one minus their
    cosine similarity [(v1 . v2) / (||v1|| * ||v2||)], over the reals; the
    divisor is not zero. *)
Theorem cosine_distance_is_one_minus_similarity v1 v2 :
  length v1 = length v2 -> nonzero v1 -> nonzero v2 ->
  cosine_distance v1 v2 = Ok (1 - dot v1 v2 / (norm v1 * norm v2))
  /\ cosine_similarity v1 v2 = dot v1 v2 / (norm v1 * norm v2)
  /\ norm v1 * norm v2 <> 0.
Proof.
  intros Hlen H1 H2. split; [|split].
  - by rewrite cosine_distance_same_dim.
  - done.
  - pose proof (norm_pos v1 H1). pose proof (norm_pos v2 H2). nra.
Qed.

Lemma cosine_distance_is_one_minus_similarity_witness :
  cosine_distance [1; 0] [1; 1]
  = Ok (1 - dot [1; 0] [1; 1] / (norm [1; 0] * norm [1; 1])).
Proof.
  apply (cosine_distance_is_one_minus_similarity [1; 0] [1; 1]).
  - reflexivity.
  - exists 1. split; [apply list_elem_of_here | lra].
  - exists 1. split; [apply list_elem_of_here | lra].
Defined.

End CosineDistance.

(* ------------------------------------------------------------------ *)
(** ** The monad and its loops *)
(* ------------------------------------------------------------------ *)

Section Loops.

Context {A B : Type}.

Lemma omapM_app (f : A -> outcome B) (l1 l2 : list A) :
  omapM f (l1 ++ l2)
  = (xs <~ omapM f l1 ;; ys <~ omapM f l2 ;; Ok (xs ++ ys)).
Proof.
  induction l1 as [|x l1 IH]; simpl.
  - by destruct (omapM f l2).
  - destruct (f x); simpl; [|done]. rewrite IH.
    destruct (omapM f l1); simpl; [|done].
    by destruct (omapM f l2).
Qed.

Lemma omapM_map {C} (f : A -> outcome B) (g : C -> A) (l : list C) :
  omapM f (map g l) = omapM (fun x => f (g x)) l.
Proof. induction l as [|x l IH]; simpl; [done|]. by rewrite IH. Qed.

Lemma omapM_ext (f g : A -> outcome B) (l : list A) :
  (forall x, x ∈ l -> f x = g x) -> omapM f l = omapM g l.
Proof.
  induction l as [|x l IH]; intros H; simpl; [done|].
  rewrite (H x) by apply list_elem_of_here.
  rewrite IH; [done|]. intros y Hy. apply H. by apply list_elem_of_further.
Qed.

(** A loop whose every step succeeds collects the results. *)
Lemma omapM_ok (f : A -> outcome B) (g : A -> B) (l : list A) :
  (forall x, x ∈ l -> f x = Ok (g x)) -> omapM f l = Ok (map g l).
Proof.
  induction l as [|x l IH]; intros H; simpl; [done|].
  rewrite (H x) by apply list_elem_of_here. simpl.
  rewrite IH; [done|]. intros y Hy. apply H. by apply list_elem_of_further.
Qed.

(** A loop whose steps can only raise [e], and one of which does, raises
    [e]. *)
Lemma omapM_raise (f : A -> outcome B) (e : exn) (l : list A) (x : A) :
  (forall y r, f y = Raise r -> r = e) ->
  x ∈ l -> f x = Raise e -> omapM f l = Raise e.
Proof.
  intros Honly Hin Hx. induction Hin as [x l|x y l Hin IH]; simpl.
  - by rewrite Hx.
  - destruct (f y) eqn:E; simpl.
    + by rewrite IH.
    + by rewrite (Honly _ _ E).
Qed.

End Loops.

(* ------------------------------------------------------------------ *)
(** ** Pairs of positions and pairs of values *)
(* ------------------------------------------------------------------ *)

Section Pairs.

Import Evaluate Metric.

Lemma index_pairs_from_spec (k n i j : nat) :
  (i, j) ∈ index_pairs_from k n <-> (k <= i /\ i < j /\ j < k + n)%nat.
Proof.
  revert k; induction n as [|n IH]; intros k; simpl.
  - rewrite elem_of_nil. lia.
  - rewrite elem_of_app, list_elem_of_fmap, IH. split.
    + intros [(j' & [= -> ->] & Hj%elem_of_seq)|H]; lia.
    + intros H. destruct (decide (i = k)) as [->|Hne].
      * left. exists j. split; [done|]. apply elem_of_seq. lia.
      * right. lia.
Qed.

Lemma index_pairs_from_NoDup (k n : nat) : NoDup (index_pairs_from k n).
Proof.
  revert k; induction n as [|n IH]; intros k; simpl; [constructor|].
  apply NoDup_app. split; [|split].
  - apply NoDup_fmap_2; [|apply NoDup_seq]. by intros ?? [= ->].
  - intros [i j] (j' & [= -> ->] & _)%list_elem_of_fmap
      Hin%index_pairs_from_spec. lia.
  - apply IH.
Qed.

Lemma index_pairs_from_length (k n : nat) :
  length (index_pairs_from k n) = (n * (n - 1) / 2)%nat.
Proof.
  revert k; induction n as [|n IH]; intros k; [done|].
  cbn [index_pairs_from]. rewrite length_app, length_map, length_seq, IH.
  replace (S n * (S n - 1))%nat with (n * 2 + n * (n - 1))%nat by nia.
  by rewrite Nat.div_add_l.
Qed.

Lemma value_pairs_length {A} (l : list A) :
  length (value_pairs l) = (length l * (length l - 1) / 2)%nat.
Proof.
  induction l as [|x l IH]; [done|].
  cbn [value_pairs length]. rewrite length_app, length_map, IH.
  replace (S (length l) * (S (length l) - 1))%nat
    with (length l * 2 + length l * (length l - 1))%nat by nia.
  by rewrite Nat.div_add_l.
Qed.

Lemma map_nth_seq {A} (d : A) (l : list A) (k : nat) :
  map (fun j => nth (j - k) l d) (seq k (length l)) = l.
Proof.
  revert k; induction l as [|x l IH]; intros k; simpl; [done|].
  rewrite Nat.sub_diag. f_equal.
  rewrite <- (IH (S k)) at 2.
  apply map_ext_in. intros j Hj%in_seq.
  replace (j - k)%nat with (S (j - S k)) by lia. done.
Qed.

(** Reading the values at the pairs of positions gives the pairs of
    values, in the same order. *)
Lemma index_pairs_values {A C} (g : A -> A -> C) (d : A) (l : list A) (k : nat) :
  map (fun ij => g (nth (fst ij - k) l d) (nth (snd ij - k) l d))
      (index_pairs_from k (length l))
  = map (fun xy => g (fst xy) (snd xy)) (value_pairs l).
Proof.
  revert k; induction l as [|x l IH]; intros k; simpl; [done|].
  rewrite !map_app, !map_map. f_equal.
  - simpl. rewrite Nat.sub_diag.
    rewrite <- (map_nth_seq d l (S k)) at 2. rewrite map_map.
    apply map_ext_in. intros j Hj%in_seq.
    replace (j - k)%nat with (S (j - S k)) by lia. done.
  - rewrite <- (IH (S k)).
    apply map_ext_in. intros [i j] Hij%list_elem_of_In%index_pairs_from_spec.
    simpl.
    replace (i - k)%nat with (S (i - S k)) by lia.
    replace (j - k)%nat with (S (j - S k)) by lia. done.
Qed.

Lemma combinations_one {A} (l : list A) :
  combinations l 1 = map (fun x => [x]) l.
Proof.
  induction l as [|x l IH]; [done|].
  cbn [combinations]. rewrite IH. by destruct l.
Qed.

Lemma combinations_two_cons {A} (x : A) (l : list A) :
  combinations (x :: l) 2 = map (fun y => [x; y]) l ++ combinations l 2.
Proof. cbn [combinations]. by rewrite combinations_one, map_map. Qed.

(** The loop over [combinations(enumerate(embeddings), 2)] visits the pairs
    of embeddings. *)
Lemma omapM_pair_distance (l : list (list R)) (k : nat) :
  omapM pair_distance (combinations (zip (seq k (length l)) l) 2)
  = omapM (fun xy => cosine_distance (fst xy) (snd xy)) (value_pairs l).
Proof.
  revert k; induction l as [|x l IH]; intros k; [done|].
  cbn [length seq zip zip_with value_pairs].
  rewrite combinations_two_cons, 2!omapM_app, IH, 2!omapM_map.
  f_equal.
  rewrite (omapM_ext _ (fun p => cosine_distance x (snd p)) (zip _ l))
    by (by intros [j y] _).
  rewrite <- (omapM_map (fun y => cosine_distance x y) snd).
  change (map snd ?z) with (z.*2). rewrite snd_zip; [done|].
  by rewrite length_seq.
Qed.

(** Two elements of different value occur as a pair, in one order or the
    other. *)
Lemma value_pairs_cover {A} (l : list A) (x y : A) :
  x ∈ l -> y ∈ l -> x <> y ->
  (x, y) ∈ value_pairs l \/ (y, x) ∈ value_pairs l.
Proof.
  induction l as [|z l IH]; intros Hx Hy Hne; [by apply elem_of_nil in Hx|].
  simpl. rewrite !elem_of_app, !list_elem_of_fmap.
  apply elem_of_cons in Hx as [->|Hx]; apply elem_of_cons in Hy as [->|Hy].
  - done.
  - left. left. by exists y.
  - right. left. by exists x.
  - destruct (IH Hx Hy Hne); tauto.
Qed.

Lemma value_pairs_elem {A} (l : list A) (x y : A) :
  (x, y) ∈ value_pairs l -> x ∈ l /\ y ∈ l.
Proof.
  induction l as [|z l IH]; simpl; [by intros ?%elem_of_nil|].
  rewrite elem_of_app, list_elem_of_fmap, !elem_of_cons.
  intros [(y' & [= -> ->] & Hy)|H]; [tauto|]. destruct (IH H). tauto.
Qed.

End Pairs.

(* ------------------------------------------------------------------ *)
(** ** Computations that only append to the log *)
(* ------------------------------------------------------------------ *)

Section AppendsOnly.

Import Metric.

Lemma appends_only_ret {A} (a : A) : appends_only (ret a).
Proof. exists (Ok a), []. intros w. unfold ret. by rewrite app_nil_r. Qed.

Lemma appends_only_raise {A} (e : exn) : appends_only (@raise A e).
Proof. exists (Raise e), []. intros w. unfold raise. by rewrite app_nil_r. Qed.

Lemma appends_only_lift {A} (o : outcome A) : appends_only (lift o).
Proof. exists o, []. intros w. unfold lift. by rewrite app_nil_r. Qed.

Lemma appends_only_emit (e : event) : appends_only (emit e).
Proof. by exists (Ok tt), [e]. Qed.

Lemma appends_only_bind {A B} (m : M A) (k : A -> M B) :
  appends_only m -> (forall a, appends_only (k a)) -> appends_only (bind m k).
Proof.
  intros (r & evs & Hm) Hk. destruct r as [a|e].
  - destruct (Hk a) as (r' & evs' & Hka).
    exists r', (evs ++ evs'). intros w. unfold bind.
    by rewrite Hm, Hka, app_assoc.
  - exists (Raise e), evs. intros w. unfold bind. by rewrite Hm.
Qed.

Lemma appends_only_mapM {A B} (f : A -> M B) (l : list A) :
  (forall x, appends_only (f x)) -> appends_only (mapM f l).
Proof.
  intros Hf. induction l as [|x l IH]; simpl.
  - apply appends_only_ret.
  - apply appends_only_bind; [done|]. intros y.
    apply appends_only_bind; [done|]. intros ys. apply appends_only_ret.
Qed.

Lemma appends_only_outcome {A} (m : M A) (w w' : log) :
  appends_only m -> (m w).1 = (m w').1.
Proof. intros (r & evs & H). by rewrite !H. Qed.

End AppendsOnly.

(* ------------------------------------------------------------------ *)
(** ** [calculate_semantic_diversity] *)
(* ------------------------------------------------------------------ *)

Section Diversity.

Import Evaluate Metric.
#[local] Open Scope R_scope.

Variable embed_api : pystr -> pystr -> list R.

Abbreviation emb := (embedding_of embed_api).
Abbreviation diversity := (calculate_semantic_diversity embed_api).

Lemma get_embedding_appends (r : json) : appends_only (get_embedding embed_api r).
Proof.
  destruct r; try apply appends_only_raise.
  apply appends_only_bind; [apply appends_only_emit|].
  intros _. apply appends_only_ret.
Qed.

Lemma calculate_semantic_diversity_appends (reasons : list json) :
  appends_only (diversity reasons).
Proof.
  unfold calculate_semantic_diversity.
  destruct (length reasons <? 2)%nat; [apply appends_only_ret|].
  apply appends_only_bind.
  - apply appends_only_mapM, get_embedding_appends.
  - intros embs. apply appends_only_bind; [apply appends_only_lift|].
    intros ds. apply appends_only_ret.
Qed.

(** Each text is embedded once, in order. *)
Lemma mapM_get_embedding (texts : list pystr) (w : log) :
  mapM (get_embedding embed_api) (map JStr texts) w
  = (Ok (map emb texts), w ++ map embed_event texts).
Proof.
  revert w; induction texts as [|t texts IH]; intros w; simpl.
  - unfold ret. by rewrite app_nil_r.
  - unfold bind at 1. unfold bind at 1. unfold emit, ret at 1.
    unfold bind at 1. rewrite IH. unfold ret.
    by rewrite <- app_assoc.
Qed.

Lemma calculate_semantic_diversity_run (texts : list pystr) (w : log) :
  diversity (map JStr texts) w
  = if (length texts <? 2)%nat then (Ok 0, w)
    else (ds <~ distances_of (map emb texts) ;; Ok (np_mean ds),
          w ++ map embed_event texts).
Proof.
  unfold calculate_semantic_diversity. rewrite length_map.
  destruct (length texts <? 2)%nat; [done|].
  unfold bind at 1. rewrite mapM_get_embedding.
  unfold bind, lift, enumerate. rewrite omapM_pair_distance.
  unfold distances_of. by destruct (omapM _ _).
Qed.

Lemma distances_of_same_dim (d : nat) (embs : list (list R)) :
  all_dim d embs ->
  distances_of embs
  = Ok (map (fun xy => 1 - cosine_similarity (fst xy) (snd xy)) (value_pairs embs)).
Proof.
  intros Hd. unfold distances_of. apply omapM_ok.
  intros [x y] [Hx Hy]%value_pairs_elem. simpl.
  unfold all_dim in Hd. rewrite Forall_forall in Hd.
  apply cosine_distance_same_dim.
  by rewrite (Hd x), (Hd y).
Qed.

Lemma distances_of_diff_dim (embs : list (list R)) (x y : list R) :
  x ∈ embs -> y ∈ embs -> length x <> length y ->
  distances_of embs = Raise ValueError.
Proof.
  intros Hx Hy Hne.
  assert (forall (p : list R * list R) r,
             cosine_distance p.1 p.2 = Raise r -> r = ValueError) as Honly.
  { intros [u v] r. unfold cosine_distance, np_dot. simpl.
    destruct (length u =? length v)%nat; simpl; congruence. }
  destruct (value_pairs_cover embs x y Hx Hy) as [H|H]; [congruence|..].
  - eapply omapM_raise; [exact Honly|exact H|].
    by apply cosine_distance_diff_dim.
  - eapply omapM_raise; [exact Honly|exact H|].
    by apply cosine_distance_diff_dim.
Qed.

(** The sum that the code takes is the sum of the numbers. *)
Lemma rsum_total (l : list R) : rsum l = total l.
Proof. induction l as [|x l IH]; [done|]. simpl. by rewrite IH. Qed.

Lemma mean_pairwise_distance_eq (embs : list (list R)) :
  mean_pairwise_distance embs
  = np_mean (map (fun xy => 1 - cosine_similarity (fst xy) (snd xy))
                 (value_pairs embs)).
Proof.
  unfold mean_pairwise_distance, np_mean, index_pairs.
  rewrite (rsum_total (map _ (value_pairs embs))).
  rewrite length_map, value_pairs_length. f_equal. f_equal.
  rewrite <- (index_pairs_values
                (fun x y => 1 - cosine_similarity x y) [] embs 0).
  apply map_ext. intros [i j]. simpl. by rewrite !Nat.sub_0_r.
Qed.

End Diversity.

Section DiversityClaims.

Import Evaluate Metric.
#[local] Open Scope R_scope.

Variable embed_api : pystr -> pystr -> list R.

Abbreviation emb := (embedding_of embed_api).
Abbreviation diversity := (calculate_semantic_diversity embed_api).

Lemma rsum_app (l1 l2 : list R) : rsum (l1 ++ l2) = rsum l1 + rsum l2.
Proof. induction l1 as [|x l1 IH]; simpl; [lra|]. rewrite IH. lra. Qed.

Lemma rsum_cons (x : R) (l : list R) : rsum (x :: l) = x + rsum l.
Proof. done. Qed.

Lemma rsum_Permutation (l l' : list R) : Permutation l l' -> rsum l = rsum l'.
Proof. induction 1; simpl; lra. Qed.

(** The sum of a symmetric function over the pairs of a list does not
    depend on the order of the list. *)
Lemma rsum_value_pairs_Permutation {A} (g : A -> A -> R) (l l' : list A) :
  (forall x y, g x y = g y x) ->
  Permutation l l' ->
  rsum (map (fun xy => g xy.1 xy.2) (value_pairs l))
  = rsum (map (fun xy => g xy.1 xy.2) (value_pairs l')).
Proof.
  intros Hsym. induction 1 as [|x l l' Hp IH|x y l|l1 l2 l3 _ IH1 _ IH2].
  - done.
  - simpl. rewrite !map_app, !rsum_app, !map_map, IH. f_equal.
    apply rsum_Permutation. by apply Permutation_map.
  - cbn [value_pairs map app].
    rewrite !map_app, !rsum_cons, !rsum_app, !map_map. cbn [fst snd].
    rewrite (Hsym y x). lra.
  - by rewrite IH1.
Qed.

Lemma cosine_distance_comm (v1 v2 : list R) :
  cosine_distance v1 v2 = cosine_distance v2 v1.
Proof.
  destruct (decide (length v1 = length v2)) as [Heq|Hne].
  - rewrite !cosine_distance_same_dim by done.
    by rewrite cosine_similarity_comm.
  - rewrite !cosine_distance_diff_dim; done.
Qed.

(** The distances, and so their mean, are the same for a reordered list of
    embeddings, also where a distance cannot be taken. *)
Lemma mean_distance_Permutation (embs embs' : list (list R)) :
  Permutation embs embs' ->
  (ds <~ distances_of embs ;; Ok (np_mean ds))
  = (ds <~ distances_of embs' ;; Ok (np_mean ds)).
Proof.
  intros Hp. set (d := length (hd [] embs)).
  destruct (decide (Forall (fun v => length v = d) embs)) as [Hd|Hd].
  - assert (all_dim d embs') as Hd' by (unfold all_dim; by rewrite <- Hp).
    rewrite (distances_of_same_dim d embs Hd), (distances_of_same_dim d embs' Hd').
    simpl. f_equal. unfold np_mean.
    rewrite !length_map, !value_pairs_length, (Permutation_length Hp).
    f_equal.
    by apply (rsum_value_pairs_Permutation
                (fun x y => 1 - cosine_similarity x y));
      [intros x y; rewrite cosine_similarity_comm|].
  - apply not_Forall_Exists in Hd; [|apply _].
    apply Exists_exists in Hd as (v & Hv & Hlen).
    assert (hd [] embs ∈ embs) as Hh.
    { destruct embs; [by apply elem_of_nil in Hv|apply list_elem_of_here]. }
    rewrite (distances_of_diff_dim embs v (hd [] embs)) by done.
    rewrite (distances_of_diff_dim embs' v (hd [] embs)); [done|..|done].
    + by rewrite <- Hp.
    + by rewrite <- Hp.
Qed.


(** C8: with fewer than two reasons [calculate_semantic_diversity] returns
    [0.0] and leaves the log as it is: no embedding is requested. *)
Theorem calculate_semantic_diversity_short (reasons : list json) (w : log) :
  (length reasons < 2)%nat -> diversity reasons w = (Ok 0, w).
Proof.
  intros Hn. unfold calculate_semantic_diversity.
  by apply Nat.ltb_lt in Hn as ->.
Qed.

(** C9 (amended): over the reals, and for texts whose embeddings are
    nonzero, the diversity score of a list of reason texts is that of every
    permutation of the list, from whatever log the two runs start;
    [cosine_distance] is symmetric. *)
Theorem calculate_semantic_diversity_permutation
    (texts texts' : list pystr) (w w' : log) :
  Permutation texts texts' ->
  Forall nonzero (map emb texts) ->
  (diversity (map JStr texts) w).1 = (diversity (map JStr texts') w').1
  /\ Forall nonzero (map emb texts')
  /\ (forall v1 v2, cosine_distance v1 v2 = cosine_distance v2 v1).
Proof.
  intros Hp Hnz. split; [|split; [by rewrite <- Hp|apply cosine_distance_comm]].
  rewrite !calculate_semantic_diversity_run, (Permutation_length Hp).
  destruct (length texts' <? 2)%nat; [done|]. simpl.
  apply mean_distance_Permutation. by apply Permutation_map.
Qed.

End DiversityClaims.

Section DiversityExamples.

Import Evaluate Metric Examples.
#[local] Open Scope R_scope.


Lemma calculate_semantic_diversity_short_witness :
  calculate_semantic_diversity toy_embed [JStr (str "x")] [] = (Ok 0, []).
Proof.
  apply (calculate_semantic_diversity_short toy_embed [JStr (str "x")] []).
  simpl. lia.
Defined.

Lemma calculate_semantic_diversity_permutation_witness :
  (calculate_semantic_diversity toy_embed (map JStr [str "x"; str "y"; str "z"]) []).1
  = (calculate_semantic_diversity toy_embed (map JStr [str "y"; str "x"; str "z"]) []).1.
Proof.
  apply (calculate_semantic_diversity_permutation
           toy_embed [str "x"; str "y"; str "z"] [str "y"; str "x"; str "z"] [] []).
  - apply perm_swap.
  - change (map (embedding_of toy_embed) [str "x"; str "y"; str "z"])
      with [[1; 0]; [0; 1]; [1; 1]].
    repeat constructor.
    + exists 1. split; [apply list_elem_of_here | lra].
    + exists 1. split; [apply list_elem_of_further, list_elem_of_here | lra].
    + exists 1. split; [apply list_elem_of_here | lra].
Defined.

End DiversityExamples.

Section DiversityInFloat64.

Import PrimFloat.
#[local] Open Scope float_scope.

(** C9 (as stated) fails in the arithmetic of the code.  The embeddings
    [[0, 1]], [[1, 0]] and [[2, 3]] have exact inner products, and their
    three cosine distances are the same [float64] numbers in whatever
    order the texts come; but [np.mean] adds them in the order of the list,
    and the score of the texts in reverse order is smaller by one unit in
    the last place. *)
Lemma calculate_semantic_diversity_depends_on_order :
  let score texts :=
    (Float64.calculate_semantic_diversity Float64.toy_embed (map JStr texts) []).1 in
  Permutation [str "x"; str "y"; str "z"] [str "z"; str "y"; str "x"]
  /\ Float64.cosine_distance [0; 1] [1; 0] = Ok 1
  /\ Float64.cosine_distance [1; 0] [0; 1] = Ok 1
  /\ Float64.cosine_distance [0; 1] [2; 3] = Ok 0x1.57f603e988c7cp-3
  /\ Float64.cosine_distance [2; 3] [0; 1] = Ok 0x1.57f603e988c7cp-3
  /\ Float64.cosine_distance [1; 0] [2; 3] = Ok 0x1.c7fcabf882ed4p-2
  /\ Float64.cosine_distance [2; 3] [1; 0] = Ok 0x1.c7fcabf882ed4p-2
  /\ score [str "x"; str "y"; str "z"] = Ok 0x1.1353f252368d9p-1
  /\ score [str "z"; str "y"; str "x"] = Ok 0x1.1353f252368d8p-1
  /\ (0x1.1353f252368d8p-1 <? 0x1.1353f252368d9p-1) = true.
Proof.
  split; [apply (Permutation_rev [str "x"; str "y"; str "z"])|].
  by vm_compute.
Qed.

End DiversityInFloat64.

(* ------------------------------------------------------------------ *)
(** ** What a computation appends to the log *)
(* ------------------------------------------------------------------ *)

Section Emits.

Import Logs.

Variable Q : log -> Prop.
Hypothesis Q_nil : Q [].
Hypothesis Q_app : forall l1 l2, Q l1 -> Q l2 -> Q (l1 ++ l2).

Lemma emits_ret {A} (P : A -> Prop) (a : A) : P a -> emits Q P (ret a).
Proof.
  intros Ha w. exists []. unfold ret; simpl.
  rewrite app_nil_r. split; [done|split; [done|]]. by intros ? [= <-].
Qed.

Lemma emits_raise {A} (P : A -> Prop) (e : exn) : emits Q P (raise e).
Proof.
  intros w. exists []. unfold raise; simpl.
  rewrite app_nil_r. split; [done|split; [done|]]. by intros ? [=].
Qed.

Lemma emits_lift {A} (P : A -> Prop) (o : outcome A) :
  (forall a, o = Ok a -> P a) -> emits Q P (lift o).
Proof.
  intros Ho w. exists []. unfold lift; simpl.
  rewrite app_nil_r. split; [done|split; [done|]]. apply Ho.
Qed.

Lemma emits_get_log : emits Q (fun _ => True) get_log.
Proof.
  intros w. exists []. unfold get_log; simpl.
  by rewrite app_nil_r.
Qed.

Lemma emits_emit (e : event) : Q [e] -> emits Q (fun _ => True) (emit e).
Proof. intros He w. exists [e]. by unfold emit. Qed.

Lemma emits_bind {A B} (P : A -> Prop) (P' : B -> Prop) (m : M A) (k : A -> M B) :
  emits Q P m -> (forall a, P a -> emits Q P' (k a)) -> emits Q P' (bind m k).
Proof.
  intros Hm Hk w. destruct (Hm w) as (evs & Hw & HQ & HP).
  unfold bind. destruct (m w) as [[a|e] w1]; simpl in *; subst w1.
  - destruct (Hk a (HP a eq_refl) (w ++ evs)) as (evs' & Hw' & HQ' & HP').
    exists (evs ++ evs'). rewrite Hw', app_assoc. auto.
  - exists evs. split; [done|split; [done|]]. by intros ? [=].
Qed.

Lemma emits_weaken {A} (P P' : A -> Prop) (m : M A) :
  emits Q P m -> (forall a, P a -> P' a) -> emits Q P' m.
Proof.
  intros Hm HPP w. destruct (Hm w) as (evs & Hw & HQ & HP).
  exists evs. eauto.
Qed.

Lemma emits_forM_ {A} (body : A -> M unit) (l : list A) :
  (forall x, x ∈ l -> emits Q (fun _ => True) (body x)) ->
  emits Q (fun _ => True) (forM_ body l).
Proof.
  induction l as [|x l IH]; intros Hb; simpl.
  - by apply emits_ret.
  - eapply emits_bind; [apply Hb, list_elem_of_here|].
    intros _ _. apply IH. intros y Hy. by apply Hb, list_elem_of_further.
Qed.

Lemma emits_foldM {A S} (I : S -> Prop) (body : S -> A -> M S) (l : list A) (s : S) :
  I s ->
  (forall s x, I s -> x ∈ l -> emits Q I (body s x)) ->
  emits Q I (foldM body s l).
Proof.
  revert s; induction l as [|x l IH]; intros s Hs Hb; simpl.
  - by apply emits_ret.
  - eapply emits_bind; [by apply Hb; [|apply list_elem_of_here]|].
    intros s' Hs'. apply IH; [done|].
    intros s0 y Hs0 Hy. apply Hb; [done|]. by apply list_elem_of_further.
Qed.

End Emits.

Section LogPredicates.

Import Logs.

Lemma writes_follow_chat_mono (b : bool) (evs : log) :
  writes_follow_chat false evs = true -> writes_follow_chat b evs = true.
Proof.
  destruct evs as [|e evs]; simpl; [done|].
  destruct (is_write e); [done|]. by destruct b.
Qed.

Lemma writes_follow_chat_app (b : bool) (l1 l2 : log) :
  writes_follow_chat b l1 = true -> writes_follow_chat false l2 = true ->
  writes_follow_chat b (l1 ++ l2) = true.
Proof.
  revert b; induction l1 as [|e l1 IH]; intros b H1 H2; simpl in *.
  - by apply writes_follow_chat_mono.
  - apply andb_prop in H1 as [-> H1]. simpl. by apply IH.
Qed.

Lemma no_remote_call_app (l1 l2 : log) :
  no_remote_call l1 -> no_remote_call l2 -> no_remote_call (l1 ++ l2).
Proof. unfold no_remote_call. rewrite Forall_app. tauto. Qed.

Lemma only_generator_writes_app dumps out (l1 l2 : log) :
  only_generator_writes dumps out l1 -> only_generator_writes dumps out l2 ->
  only_generator_writes dumps out (l1 ++ l2).
Proof. unfold only_generator_writes. rewrite Forall_app. tauto. Qed.

End LogPredicates.

(* ------------------------------------------------------------------ *)
(** ** The generation script *)
(* ------------------------------------------------------------------ *)

Section GenerateClaims.

Import Generate Logs.

Variable chat_api : nat -> pystr -> pystr -> chat_reply.
Variable json_loads : pystr -> outcome json.
Variable json_dumps : json -> pystr.
Variable read_text : path -> option pystr.

Abbreviation gen_perspectives := (generate_perspectives chat_api).
Abbreviation gen_one := (generate_one chat_api json_loads json_dumps).
Abbreviation gen_main := (main chat_api json_loads json_dumps read_text).
Abbreviation extract := (extract_json json_loads).

(** [generate_perspectives] makes one chat call and never raises. *)
Lemma generate_perspectives_run (prompt : pystr) (w : log) :
  gen_perspectives prompt w
  = (Ok match chat_api (chat_calls w) chat_model prompt with
        | ChatContent content => content
        | ChatRaises => None
        end,
     w ++ [EvChat chat_model prompt]).
Proof.
  unfold generate_perspectives, bind, get_log, emit, ret.
  by destruct (chat_api _ _ _).
Qed.

(** Without an opening brace nothing is extracted. *)
Lemma extract_json_no_brace (text : pystr) :
  str_in (str "{") text = false -> extract text = Ok None.
Proof.
  unfold str_in, extract_json, str_find.
  by destruct (find_nat (str "{") text).
Qed.

(** What [extract_json] decodes: the text from the first opening brace to
    the last closing brace, when the latter is not before the former. *)
Lemma extract_json_spec (text : pystr) :
  extract text
  = match find_nat (str "{") text, rfind_nat (str "}") text with
    | Some i, Some j =>
        if (i <=? j)%nat
        then try_loads json_loads (take (S j - i) (drop i text))
        else Ok None
    | _, _ => Ok None
    end.
Proof.
  unfold extract_json, str_find, str_rfind, slice.
  destruct (find_nat (str "{") text) as [i|];
    destruct (rfind_nat (str "}") text) as [j|];
    cbn [index_or_minus1]; try done.
  - replace (Z.of_nat i =? -1)%Z with false by (symmetry; apply Z.eqb_neq; lia).
    cbn [negb andb]. destruct (i <=? j)%nat eqn:E.
    + apply Nat.leb_le in E.
      replace (Z.of_nat i <? Z.of_nat j + 1)%Z with true
        by (symmetry; apply Z.ltb_lt; lia).
      rewrite Nat2Z.id. by replace (Z.to_nat (Z.of_nat j + 1)) with (S j) by lia.
    + apply Nat.leb_gt in E.
      by replace (Z.of_nat i <? Z.of_nat j + 1)%Z with false
        by (symmetry; apply Z.ltb_ge; lia).
  - replace (Z.of_nat i <? -1 + 1)%Z with false
      by (symmetry; apply Z.ltb_ge; lia).
    by rewrite andb_false_r.
Qed.

Lemma generate_one_run (output_dir : path) (t : topic) (m : method) (w : log) :
  gen_one output_dir t m w
  = (match (gen_perspectives (build_prompt m (examples m) (question t)) w).1 with
     | Ok (Some text) =>
         match extract text with
         | Ok (Some v) =>
             if truthy v && negb (has_len v) then Raise TypeError else Ok tt
         | Ok None => Ok tt
         | Raise e => Raise e
         end
     | _ => Ok tt
     end,
     w ++ EvChat chat_model (build_prompt m (examples m) (question t))
       :: match (gen_perspectives (build_prompt m (examples m) (question t)) w).1 with
          | Ok (Some text) =>
              match extract text with
              | Ok (Some v) =>
                  if truthy v
                  then [EvWrite (Child output_dir (output_name (name m) (id t)))
                                (json_dumps v)]
                  else []
              | _ => []
              end
          | _ => []
          end).
Proof.
  unfold generate_one, bind at 1. rewrite generate_perspectives_run. simpl.
  destruct (chat_api _ _ _) as [|[text|]]; try done.
  destruct text as [|c text]; simpl.
  { done. }
  unfold bind at 1, lift.
  destruct (extract (c :: text)) as [[v|]|e]; [|done..].
  destruct (truthy v); [|done].
  unfold bind, emit. rewrite <- app_assoc.
  by destruct (has_len v).
Qed.

(** C4 (amended): the loop body of [main] writes only after a successful
    transform.  When the chat call raises, [generate_perspectives] returns
    [None]; when it returns [None], or [extract_json] returns [None], the
    log gets the chat call and no write; when [extract_json] returns an
    object that is not empty, the log gets the chat call and then the write
    of that object; a falsy value, such as the empty object, is not
    written. *)
Theorem generate_one_writes_after_transform
    (output_dir : path) (t : topic) (m : method) (w : log)
    (response : option pystr) :
  (gen_perspectives (build_prompt m (examples m) (question t)) w).1 = Ok response ->
  (chat_api (chat_calls w) chat_model (build_prompt m (examples m) (question t))
   = ChatRaises -> response = None)
  /\ (response = None \/ (exists text, response = Some text /\ extract text = Ok None) ->
      gen_one output_dir t m w
      = (Ok tt, w ++ [EvChat chat_model (build_prompt m (examples m) (question t))]))
  /\ (forall text d,
        response = Some text -> extract text = Ok (Some (JObj d)) -> d <> [] ->
        gen_one output_dir t m w
        = (Ok tt, w ++ [EvChat chat_model (build_prompt m (examples m) (question t));
                        EvWrite (Child output_dir (output_name (name m) (id t)))
                                (json_dumps (JObj d))]))
  /\ (forall text v,
        response = Some text -> extract text = Ok (Some v) -> truthy v = false ->
        gen_one output_dir t m w
        = (Ok tt, w ++ [EvChat chat_model (build_prompt m (examples m) (question t))])).
Proof.
  intros Hr. rewrite generate_one_run, Hr.
  rewrite generate_perspectives_run in Hr. simpl in Hr.
  split; [|split; [|split]].
  - intros Hc. rewrite Hc in Hr. by injection Hr as <-.
  - by intros [->|(text & -> & ->)].
  - intros text d -> -> Hd. by destruct d.
  - by intros text v -> -> ->.
Qed.

Lemma generate_one_emits (Q : log -> Prop) (output_dir : path) (t : topic) (m : method) :
  (forall p, Q [EvChat chat_model p]) ->
  (forall p v, truthy v = true ->
     Q [EvChat chat_model p;
        EvWrite (Child output_dir (output_name (name m) (id t))) (json_dumps v)]) ->
  emits Q (fun _ => True) (gen_one output_dir t m).
Proof.
  intros Hchat Hwrite w. rewrite generate_one_run. simpl.
  eexists. split; [done|]. split; [|done].
  destruct (gen_perspectives _ w).1 as [[text|]|]; try apply Hchat.
  destruct (extract text) as [[v|]|e]; try apply Hchat.
  destruct (truthy v) eqn:E; [by apply Hwrite|apply Hchat].
Qed.

Lemma get_methods_emits (Q : log -> Prop) (shot_type : pystr) :
  Q [] -> (forall l1 l2, Q l1 -> Q l2 -> Q (l1 ++ l2)) ->
  (forall p, Q [EvRead p]) ->
  emits Q (fun ms => forall m, m ∈ ms -> name m ∈ method_names)
        (get_methods read_text shot_type).
Proof.
  intros Qnil Qapp Qread. unfold get_methods, method_config.
  assert (forall f, emits Q (fun _ => True) (read_prompt_file read_text f)) as Hread.
  { intros f. unfold read_prompt_file. destruct (read_text (Path f)).
    - eapply emits_bind; [done|by apply emits_emit|].
      intros _ _. by apply emits_ret.
    - by apply emits_raise. }
  destruct (pystr_eqb shot_type (str "1-shot"));
    [|destruct (pystr_eqb shot_type (str "5-shot"))];
    try by apply emits_raise.
  all: eapply emits_bind; [done|apply Hread|]; intros ex1 _.
  all: eapply emits_bind; [done|apply Hread|]; intros ex2 _.
  all: apply emits_ret; [done|].
  all: intros m Hm; rewrite method_names_eq.
  all: unfold methods_of in Hm; rewrite !elem_of_cons, elem_of_nil in Hm.
  all: destruct Hm as [->|[->|[]]]; simpl; rewrite !elem_of_cons; tauto.
Qed.

(** What [main] appends to the log consists of blocks that satisfy [Q]. *)
Lemma main_emits (Q : log -> Prop) (shot_type_arg output_dir_arg : pystr) :
  Q [] -> (forall l1 l2, Q l1 -> Q l2 -> Q (l1 ++ l2)) ->
  (forall p, Q [EvRead p]) -> (forall p, Q [EvMkdir p]) ->
  (forall p, Q [EvChat chat_model p]) ->
  (forall p m t v,
     m ∈ method_names -> t ∈ topic_ids -> truthy v = true ->
     Q [EvChat chat_model p;
        EvWrite (Child (Path output_dir_arg) (output_name m t)) (json_dumps v)]) ->
  emits Q (fun _ => True) (gen_main shot_type_arg output_dir_arg).
Proof.
  intros Qnil Qapp Qread Qmkdir Qchat Qwrite. unfold main.
  destruct (negb _); [by apply emits_raise|].
  eapply emits_bind; [done|by apply emits_emit|]. intros _ _.
  apply emits_forM_; [done..|]. intros shot_type _.
  eapply emits_bind; [done|by apply get_methods_emits|].
  intros methods Hms.
  apply emits_forM_; [done..|]. intros t Ht.
  apply emits_forM_; [done..|]. intros m Hm.
  apply generate_one_emits; [done|].
  intros p v Hv. apply Qwrite; [by apply Hms| |done].
  unfold topic_ids. change (map id TOPICS) with (id <$> TOPICS).
  by apply list_elem_of_fmap_2.
Qed.

(** C6 (amended): when [extract_json] returns a non-empty object (a truthy
    value), the one write of the loop body for that topic and method puts
    the serialized value into the file [method_topic.json] of the output
    directory; and every write of [main] is such a write, for one of the
    generator's methods and topics, inside the chosen directory. *)
Theorem generator_stores_json
    (output_dir : path) (t : topic) (m : method) (w : log) (text : pystr) (v : json) :
  (gen_perspectives (build_prompt m (examples m) (question t)) w).1 = Ok (Some text) ->
  extract text = Ok (Some v) ->
  truthy v = true ->
  filter (fun e => is_write e = true) (drop (length w) (gen_one output_dir t m w).2)
  = [EvWrite (Child output_dir (name m ++ str "_" ++ id t ++ str ".json"))
             (json_dumps v)]
  /\ (forall shot_type_arg output_dir_arg w0, exists evs,
        (gen_main shot_type_arg output_dir_arg w0).2 = w0 ++ evs
        /\ only_generator_writes json_dumps (Path output_dir_arg) evs).
Proof.
  intros Hr He Hv. split.
  - rewrite generate_one_run, Hr, He, Hv. simpl.
    by rewrite drop_app_length.
  - intros shot_type_arg output_dir_arg w0.
    destruct (main_emits (only_generator_writes json_dumps (Path output_dir_arg))
                shot_type_arg output_dir_arg) with (w := w0)
      as (evs & Hw & HQ & _); [..|by exists evs].
    + constructor.
    + apply only_generator_writes_app.
    + intros p. by repeat constructor.
    + intros p. by repeat constructor.
    + intros p. by repeat constructor.
    + intros p m' t' v' Hm' Ht' Hv'. repeat constructor; [done|].
      intros _. by exists m', t', v'.
Qed.

End GenerateClaims.

Section GenerateExamples.

Import Generate Logs Examples.

Lemma generate_one_writes_after_transform_witness :
  generate_one (toy_chat text_x) toy_decode toy_dumps
               (Path (str "outputs")) a_topic a_method []
  = (Ok tt,
     [] ++ [EvChat chat_model
              (build_prompt a_method (examples a_method) (question a_topic));
            EvWrite (Child (Path (str "outputs"))
                           (output_name (name a_method) (id a_topic)))
                    (toy_dumps (JObj [reason "1" "x"]))]).
Proof.
  destruct (generate_one_writes_after_transform
              (toy_chat text_x) toy_decode toy_dumps
              (Path (str "outputs")) a_topic a_method [] (Some text_x) eq_refl)
    as (_ & _ & Hwrite & _).
  apply (Hwrite text_x [reason "1" "x"]); [reflexivity..|done].
Defined.

(** C4 (as stated) fails: for the response [{}] extraction succeeds, with
    the empty object, and nothing is written. *)
Lemma generate_one_skips_empty_object :
  (generate_perspectives (toy_chat text_empty)
     (build_prompt a_method (examples a_method) (question a_topic)) []).1
  = Ok (Some text_empty)
  /\ extract_json toy_decode text_empty = Ok (Some (JObj []))
  /\ generate_one (toy_chat text_empty) toy_decode toy_dumps
                  (Path (str "outputs")) a_topic a_method []
     = (Ok tt, [EvChat chat_model
                  (build_prompt a_method (examples a_method) (question a_topic))]).
Proof. by vm_compute. Qed.

Lemma generator_stores_json_witness :
  filter (fun e => is_write e = true)
         (drop (length (@nil event))
               (generate_one (toy_chat text_x) toy_decode toy_dumps
                  (Path (str "outputs")) a_topic a_method []).2)
  = [EvWrite (Child (Path (str "outputs")) (str "free-form_elections.json"))
             (toy_dumps (JObj [reason "1" "x"]))].
Proof.
  apply (generator_stores_json
           (toy_chat text_x) toy_decode toy_dumps no_files
           (Path (str "outputs")) a_topic a_method [] text_x
           (JObj [reason "1" "x"]));
    reflexivity.
Defined.

(** C6 (as stated) fails: the response carries the object [{}], extraction
    succeeds, and the generator writes no file for the pair. *)
Lemma generator_stores_nothing_for_empty_object :
  let text := str "Here are the perspectives: " ++ text_empty in
  extract_json toy_decode text = Ok (Some (JObj []))
  /\ filter (fun e => is_write e = true)
            (generate_one (toy_chat text) toy_decode toy_dumps
               (Path (str "outputs")) a_topic a_method []).2
     = [].
Proof. by vm_compute. Qed.

End GenerateExamples.

(* ------------------------------------------------------------------ *)
(** ** The formatting script: remote calls *)
(* ------------------------------------------------------------------ *)

Section FormatLog.

Import Format Logs.

Variable json_loads : pystr -> option json.
Variable read_text : path -> option pystr.
Variable path_exists : path -> bool.
Variable py_str : json -> pystr.

Abbreviation display := (display_results json_loads read_text path_exists py_str).

Variable Q : log -> Prop.
Hypothesis Q_nil : Q [].
Hypothesis Q_app : forall l1 l2, Q l1 -> Q l2 -> Q (l1 ++ l2).
Hypothesis Q_read : forall p, Q [EvRead p].
Hypothesis Q_mkdir : forall p, Q [EvMkdir p].
Hypothesis Q_write : forall p c, Q [EvWrite p c].

Lemma method_lines_emits output_path topic_id lines method :
  emits Q (fun _ => True)
        (method_lines json_loads read_text path_exists py_str
                      output_path topic_id lines method).
Proof.
  unfold method_lines.
  destruct (negb (path_exists _)); [by apply emits_ret|].
  destruct (read_text _); [|by apply emits_raise].
  eapply emits_bind; [done|by apply emits_emit|]. intros _ _.
  destruct (json_loads _); [|by apply emits_raise].
  eapply emits_bind; [done|by apply (emits_lift Q Q_nil (fun _ => True))|].
  intros rendered _. by apply emits_ret.
Qed.

Lemma display_results_emits output_dir shot_filter save_file :
  emits Q (fun _ => True) (display output_dir shot_filter save_file).
Proof.
  unfold display_results.
  destruct (negb (path_exists _)); [by apply emits_ret|].
  eapply emits_bind; [done|by apply (emits_lift Q Q_nil (fun _ => True))|].
  intros groups _.
  eapply emits_bind; [done| |].
  - apply (emits_foldM _ Q_nil Q_app (fun _ => True)); [done|].
    intros lines [topic_id topic_question] _ _. unfold topic_lines.
    apply (emits_foldM _ Q_nil Q_app (fun _ => True)); [done|].
    intros lines' [shot_label methods] _ _. unfold group_lines.
    apply (emits_foldM _ Q_nil Q_app (fun _ => True)); [done|].
    intros lines'' method _ _. apply method_lines_emits.
  - intros lines _. destruct save_file as [file|]; [|by apply emits_ret].
    destruct (nonempty file); [|by apply emits_ret].
    eapply emits_bind; [done|by apply emits_emit|]. intros _ _.
    by apply emits_emit.
Qed.

End FormatLog.

Section RemoteCalls.

Import Logs Examples.

(** C5 (as stated) fails: [display_results] runs to its end, writes the
    formatted results, and its log has no call of a remote service. *)
Lemma display_results_writes_without_remote_call :
  let run := Format.display_results toy_loads (toy_read text_xy) toy_exists toy_str
               (str "outputs") (str "5-shot")
               (Some (str "outputs/formatted_results_5-shot.txt")) [] in
  run.1 = Ok tt
  /\ map is_write run.2 = [false; false; true]
  /\ map is_remote_call run.2 = [false; false; false].
Proof. by vm_compute. Qed.

(** C5 (amended): [display_results] calls no remote service, whatever its
    arguments and the state of the output directory: its log entries are
    reads of the local JSON files followed by the creation of the directory
    and the write of the formatted results.  The generation script calls
    the chat service directly before each file that it writes. *)
Theorem remote_call_before_write :
  (forall json_loads read_text path_exists py_str output_dir shot_filter save_file w,
     exists evs,
       (Format.display_results json_loads read_text path_exists py_str
          output_dir shot_filter save_file w).2 = w ++ evs
       /\ no_remote_call evs)
  /\ (forall chat_api json_loads json_dumps read_text shot_type_arg output_dir_arg w,
        exists evs,
          (Generate.main chat_api json_loads json_dumps read_text
             shot_type_arg output_dir_arg w).2 = w ++ evs
          /\ writes_follow_chat false evs = true).
Proof.
  split.
  - intros json_loads read_text path_exists py_str output_dir shot_filter save_file w.
    destruct (display_results_emits json_loads read_text path_exists py_str
                no_remote_call) with (w := w) (output_dir := output_dir)
                (shot_filter := shot_filter) (save_file := save_file)
      as (evs & Hw & HQ & _); [..|by exists evs].
    + constructor.
    + apply no_remote_call_app.
    + by repeat constructor.
    + by repeat constructor.
    + by repeat constructor.
  - intros chat_api json_loads json_dumps read_text shot_type_arg output_dir_arg w.
    destruct (main_emits chat_api json_loads json_dumps read_text
                (fun evs => writes_follow_chat false evs = true)
                shot_type_arg output_dir_arg) with (w := w)
      as (evs & Hw & HQ & _); [..|by exists evs]; try done.
    intros l1 l2. apply writes_follow_chat_app.
Qed.

End RemoteCalls.

(* ------------------------------------------------------------------ *)
(** ** The formatting script: keys and their order *)
(* ------------------------------------------------------------------ *)

Section Keys.

Import Format.

Lemma digit_not_space (c : ascii) : is_digit c = true -> is_space c = false.
Proof.
  unfold is_digit, digit_of, is_space.
  destruct (48 <=? nat_of_ascii c)%nat eqn:E1; [|done].
  destruct (nat_of_ascii c <=? 57)%nat eqn:E2; [|done].
  intros _. apply Nat.leb_le in E1, E2.
  apply orb_false_iff. split.
  - apply andb_false_iff. right. apply Nat.leb_gt. lia.
  - apply Nat.eqb_neq. lia.
Qed.

Lemma lstrip_digit (c : ascii) (s : pystr) :
  is_digit c = true -> lstrip (c :: s) = c :: s.
Proof. intros H. simpl. by rewrite (digit_not_space c H). Qed.

Lemma strip_digits (s : pystr) : forallb is_digit s = true -> strip s = s.
Proof.
  intros H. unfold strip.
  assert (forall t, forallb is_digit t = true -> lstrip t = t) as Hl.
  { intros [|c t]; [done|]. simpl. intros [Hc _]%andb_prop.
    by rewrite (digit_not_space c Hc). }
  rewrite (Hl s H), Hl, rev_involutive; [done|].
  apply forallb_forall. intros c Hc%in_rev.
  by apply (proj1 (forallb_forall _ _) H).
Qed.

Lemma digits_value_digits (s : pystr) (acc : Z) (b : bool) :
  forallb is_digit s = true -> nonempty s || b = true ->
  exists z, digits_value acc b s = Some z.
Proof.
  revert acc b; induction s as [|c s IH]; intros acc b Hd Hne; simpl in *.
  - subst b. by exists acc.
  - apply andb_prop in Hd as [Hc Hs]. unfold is_digit in Hc.
    destruct (digit_of c) as [d|]; [|done].
    apply IH; [done|]. apply orb_true_r.
Qed.

(** [int] accepts every decimal numeral. *)
Lemma filter_digits (s : pystr) :
  forallb is_digit s = true -> List.filter is_digit s = s.
Proof.
  induction s as [|c s IH]; [done|]. cbn [forallb List.filter].
  intros [-> Hs]%andb_prop. by rewrite IH.
Qed.

Lemma py_int_numeral (s : pystr) :
  is_numeral s = true -> exists z, py_int s = Ok z.
Proof.
  unfold is_numeral. intros [[Hne Hd]%andb_prop Hlen]%andb_prop.
  unfold py_int. rewrite (strip_digits s Hd), (filter_digits s Hd), Hlen.
  destruct s as [|c s]; [done|].
  assert (is_digit c = true) as Hc by (simpl in Hd; by apply andb_prop in Hd as [? _]).
  destruct (Ascii.eqb c "+") eqn:E1.
  { apply Ascii.eqb_eq in E1. subst c. done. }
  destruct (Ascii.eqb c "-") eqn:E2.
  { apply Ascii.eqb_eq in E2. subst c. done. }
  destruct (digits_value_digits (c :: s) 0 false Hd) as [z Hz]; [done|].
  rewrite Hz. by exists z.
Qed.

Lemma py_int_raises_ValueError (s : pystr) (e : exn) :
  py_int s = Raise e -> e = ValueError.
Proof.
  unfold py_int. destruct (match strip s with [] => _ | _ => _ end); [|congruence].
  destruct (_ <=? _)%nat; congruence.
Qed.

Lemma insert_by_key_Permutation {A} (kx : Z * A) (l : list (Z * A)) :
  Permutation (insert_by_key kx l) (kx :: l).
Proof.
  induction l as [|ky l IH]; simpl; [done|].
  destruct (kx.1 <=? ky.1)%Z; [done|].
  rewrite IH. apply perm_swap.
Qed.

Lemma sort_by_key_Permutation {A} (l : list (Z * A)) :
  Permutation (sort_by_key l) l.
Proof.
  induction l as [|kx l IH]; simpl; [done|].
  by rewrite insert_by_key_Permutation, IH.
Qed.

Lemma insert_by_key_sorted {A} (kx : Z * A) (l : list (Z * A)) :
  StronglySorted (fun a b => (a.1 <= b.1)%Z) l ->
  StronglySorted (fun a b => (a.1 <= b.1)%Z) (insert_by_key kx l).
Proof.
  induction l as [|ky l IH]; intros Hs; simpl.
  - by repeat constructor.
  - apply StronglySorted_inv in Hs as [Hs Hall].
    destruct (kx.1 <=? ky.1)%Z eqn:E.
    + apply Z.leb_le in E. constructor; [by constructor|].
      constructor; [done|].
      eapply Forall_impl; [exact Hall|]. simpl. intros; lia.
    + apply Z.leb_gt in E. constructor; [by apply IH|].
      rewrite insert_by_key_Permutation. constructor; [lia|done].
Qed.

Lemma sort_by_key_sorted {A} (l : list (Z * A)) :
  StronglySorted (fun a b => (a.1 <= b.1)%Z) (sort_by_key l).
Proof.
  induction l as [|kx l IH]; simpl; [constructor|].
  by apply insert_by_key_sorted.
Qed.

Lemma omapM_Ok_Forall2 {A B} (f : A -> outcome B) (l : list A) (ys : list B) :
  omapM f l = Ok ys -> Forall2 (fun x y => f x = Ok y) l ys.
Proof.
  revert ys; induction l as [|x l IH]; intros ys; simpl.
  - intros [= <-]. constructor.
  - destruct (f x) as [y|] eqn:E; simpl; [|done].
    destruct (omapM f l) as [ys'|]; simpl; [|done].
    intros [= <-]. constructor; [done|by apply IH].
Qed.

Lemma StronglySorted_map {A B} (R1 : A -> A -> Prop) (R2 : B -> B -> Prop)
    (f : A -> B) (l : list A) :
  (forall x y, x ∈ l -> y ∈ l -> R1 x y -> R2 (f x) (f y)) ->
  StronglySorted R1 l -> StronglySorted R2 (map f l).
Proof.
  induction l as [|a l IH]; intros Hf Hs; simpl; [constructor|].
  apply StronglySorted_inv in Hs as [Hs Hall]. constructor.
  - apply IH; [|done]. intros x y Hx Hy.
    apply Hf; by apply list_elem_of_further.
  - apply Forall_forall. intros b (x & -> & Hx)%list_elem_of_fmap.
    apply Hf; [apply list_elem_of_here|by apply list_elem_of_further|].
    rewrite Forall_forall in Hall. by apply Hall.
Qed.

(** [sorted(keys, key=int)] on keys that [int] accepts: a permutation of
    the keys, in ascending order of their integer values. *)
Lemma sorted_by_int_spec (keys : list pystr) :
  Forall (fun k => exists z, py_int k = Ok z) keys ->
  exists sorted,
    sorted_by_int keys = Ok sorted
    /\ Permutation sorted keys
    /\ StronglySorted (fun a b => (int_of a <= int_of b)%Z) sorted.
Proof.
  intros Hk. unfold sorted_by_int.
  destruct (omapM py_int keys) as [ks|e] eqn:E.
  - simpl. eexists. split; [done|].
    apply omapM_Ok_Forall2 in E.
    pose proof (Forall2_length _ _ _ E) as Hlen.
    split.
    + change (map snd ?l) with (l.*2).
      rewrite sort_by_key_Permutation, snd_zip; [done|lia].
    + eapply StronglySorted_map; [|apply sort_by_key_sorted].
      intros [z1 k1] [z2 k2] H1 H2 Hle. simpl in *.
      rewrite sort_by_key_Permutation in H1, H2.
      assert (forall z k, (z, k) ∈ zip ks keys -> int_of k = z) as Hint.
      { clear -E. induction E as [|k z keys ks Hkz _ IH]; simpl.
        - by intros ?? ?%elem_of_nil.
        - intros z' k' [[= -> ->]|H]%elem_of_cons; [|by apply IH].
          unfold int_of. by rewrite Hkz. }
      by rewrite (Hint _ _ H1), (Hint _ _ H2).
  - exfalso. clear -Hk E. induction Hk as [|k keys [z Hz] _ IH]; [done|].
    simpl in E. rewrite Hz in E. simpl in E.
    destruct (omapM py_int keys); [done|]. by apply IH.
Qed.

(** A key that [int] rejects makes the sort raise [ValueError]. *)
Lemma sorted_by_int_raises (keys : list pystr) (k : pystr) :
  k ∈ keys -> py_int k = Raise ValueError ->
  sorted_by_int keys = Raise ValueError.
Proof.
  intros Hin Hk. unfold sorted_by_int.
  rewrite (omapM_raise py_int ValueError keys k); [done| |done..].
  intros y r. apply py_int_raises_ValueError.
Qed.

End Keys.

(* ------------------------------------------------------------------ *)
(** ** Computations that return, computations that raise *)
(* ------------------------------------------------------------------ *)

Section Totality.

Import Logs.

Lemma succeeds_ret {A} (a : A) : succeeds (ret a).
Proof. intros w. by exists a, w. Qed.

Lemma succeeds_emit (e : event) : succeeds (emit e).
Proof. intros w. by exists tt, (w ++ [e]). Qed.

Lemma succeeds_bind {A B} (m : M A) (k : A -> M B) :
  succeeds m -> (forall a, succeeds (k a)) -> succeeds (bind m k).
Proof.
  intros Hm Hk w. destruct (Hm w) as (a & w' & Hw).
  unfold bind. rewrite Hw. apply Hk.
Qed.

Lemma succeeds_foldM {A S} (body : S -> A -> M S) (l : list A) (s : S) :
  (forall s x, x ∈ l -> succeeds (body s x)) -> succeeds (foldM body s l).
Proof.
  revert s; induction l as [|x l IH]; intros s Hb; simpl.
  - apply succeeds_ret.
  - apply succeeds_bind; [apply Hb, list_elem_of_here|].
    intros s'. apply IH. intros s0 y Hy. by apply Hb, list_elem_of_further.
Qed.

Lemma bind_lift_Ok {A B} (a : A) (k : A -> M B) : bind (lift (Ok a)) k = k a.
Proof. reflexivity. Qed.

Lemma always_raises_raise {A} (e : exn) : always_raises (@raise A e).
Proof. intros w. by exists e, w. Qed.

Lemma always_raises_bind_l {A B} (m : M A) (k : A -> M B) :
  always_raises m -> always_raises (bind m k).
Proof.
  intros Hm w. destruct (Hm w) as (e & w' & Hw).
  unfold bind. rewrite Hw. by exists e, w'.
Qed.

Lemma always_raises_bind_r {A B} (m : M A) (k : A -> M B) :
  (forall a, always_raises (k a)) -> always_raises (bind m k).
Proof.
  intros Hk w. unfold bind. destruct (m w) as [[a|e] w'].
  - apply Hk.
  - by exists e, w'.
Qed.

(** A loop raises when one of its iterations raises from every state. *)
Lemma always_raises_foldM {A S} (body : S -> A -> M S) (l : list A) (x : A) :
  x ∈ l -> (forall s, always_raises (body s x)) ->
  forall s, always_raises (foldM body s l).
Proof.
  intros Hin Hx. induction Hin as [x l|x y l Hin IH]; intros s; simpl.
  - by apply always_raises_bind_l.
  - apply always_raises_bind_r. intros s'. by apply IH.
Qed.

Lemma omapM_total {A B} (f : A -> outcome B) (l : list A) :
  (forall x, x ∈ l -> exists y, f x = Ok y) ->
  exists ys, omapM f l = Ok ys /\ Forall2 (fun x y => f x = Ok y) l ys.
Proof.
  induction l as [|x l IH]; intros Hf; simpl.
  - exists []. split; [done|constructor].
  - destruct (Hf x) as [y Hy]; [apply list_elem_of_here|].
    destruct IH as (ys & Hys & Hall).
    { intros z Hz. by apply Hf, list_elem_of_further. }
    exists (y :: ys). rewrite Hy, Hys. split; [done|by constructor].
Qed.

Lemma omapM_raises_some {A B} (f : A -> outcome B) (l : list A) (x : A) (e : exn) :
  x ∈ l -> f x = Raise e -> exists e', omapM f l = Raise e'.
Proof.
  intros Hin Hx. induction Hin as [x l|x y l Hin IH]; simpl.
  - rewrite Hx. by exists e.
  - destruct (f y); simpl; [|by eexists].
    destruct (IH Hx) as [e' ->]. by exists e'.
Qed.

End Totality.

(* ------------------------------------------------------------------ *)
(** ** The formatting script: rendering *)
(* ------------------------------------------------------------------ *)

Section Rendering.

Import Format Logs.

Variable json_loads : pystr -> option json.
Variable read_text : path -> option pystr.
Variable path_exists : path -> bool.
Variable py_str : json -> pystr.

Abbreviation format_one := (format_perspective py_str).
Abbreviation render := (render_perspectives py_str).
Abbreviation display := (display_results json_loads read_text path_exists py_str).

Lemma dict_get_elem (k : pystr) (d : dict) :
  k ∈ dict_keys d -> exists v, dict_get k d = Some v /\ (k, v) ∈ d.
Proof.
  induction d as [|[k' v'] d IH]; simpl; [by intros ?%elem_of_nil|].
  intros Hk. unfold pystr_eqb. destruct (decide (k = k')) as [->|Hne].
  - rewrite bool_decide_eq_true_2 by done.
    exists v'. split; [done|apply list_elem_of_here].
  - rewrite bool_decide_eq_false_2 by done.
    apply elem_of_cons in Hk as [?|Hk]; [done|].
    destruct (IH Hk) as (v & Hv & Hin). exists v.
    split; [done|by apply list_elem_of_further].
Qed.

Lemma dict_item_has (k : pystr) (d : dict) :
  dict_has k d = true -> exists v, dict_item k d = Ok v /\ dict_get k d = Some v.
Proof.
  unfold dict_has, dict_item. destruct (dict_get k d) as [v|]; [|done].
  by exists v.
Qed.

Lemma dict_item_missing (k : pystr) (d : dict) :
  dict_has k d = false -> dict_item k d = Raise KeyError.
Proof. unfold dict_has, dict_item. by destruct (dict_get k d). Qed.

Lemma join_items_ok (c : json) :
  joinable c = true -> exists items, join_items c = Ok items.
Proof.
  destruct c as [| | | |s|items|fields]; simpl; try done; try by eexists.
  intros H. induction items as [|x items IH]; simpl; [by eexists|].
  simpl in H. apply andb_prop in H as [Hx H].
  destruct x; try done. simpl.
  destruct (IH H) as [its ->]. by eexists.
Qed.

(** A perspective with a ['Reason'], and a ['Criteria'] that can be joined
    where there is one, is formatted. *)
Lemma format_perspective_ok (num : pystr) (p : dict) :
  dict_has (str "Reason") p = true ->
  (forall c, dict_get (str "Criteria") p = Some c -> joinable c = true) ->
  exists text, format_one num (JObj p) = Ok text.
Proof.
  intros Hr Hc. unfold format_perspective.
  destruct (dict_item_has _ _ Hr) as (r & -> & _).
  assert (exists st,
             (if dict_has (str "Stance") p
              then v <~ dict_item (str "Stance") p ;;
                   Ok (str "    Position: " ++ fmt py_str v ++ newline)
              else Ok []) = Ok st) as [st ->].
  { destruct (dict_has (str "Stance") p) eqn:E; [|by eexists].
    destruct (dict_item_has _ _ E) as (v & -> & _). by eexists. }
  destruct (dict_has (str "Criteria") p) eqn:E; simpl; [|by eexists].
  destruct (dict_item_has _ _ E) as (c & -> & Hget). simpl.
  destruct (join_items_ok c (Hc c Hget)) as [items ->]. by eexists.
Qed.

(** What is not an object with a ['Reason'] makes [format_perspective]
    raise. *)
Lemma format_perspective_raises (num : pystr) (p : json) :
  (forall d, p = JObj d -> dict_has (str "Reason") d = false) ->
  exists e, format_one num p = Raise e.
Proof.
  intros H. destruct p as [| | | | | |d]; try by eexists.
  specialize (H d eq_refl). unfold format_perspective.
  rewrite (dict_item_missing _ _ H).
  destruct (if dict_has (str "Stance") d then _ else _) as [st|e]; simpl.
  2:{ destruct (dict_has (str "Criteria") d); by eexists. }
  destruct (dict_has (str "Criteria") d); simpl; [|by eexists].
  destruct (dict_item (str "Criteria") d) as [c|]; simpl; [|by eexists].
  destruct (join_items c); simpl; by eexists.
Qed.

Lemma well_formed_keys (d : dict) :
  well_formed d -> Forall (fun k => exists z, py_int k = Ok z) (dict_keys d).
Proof.
  unfold well_formed, dict_keys. intros H.
  apply Forall_forall. intros k ([k' v] & -> & Hin)%list_elem_of_fmap.
  rewrite Forall_forall in H. destruct (H _ Hin) as [Hnum _].
  by apply py_int_numeral.
Qed.

(** The perspectives of a well-formed file are rendered in ascending order
    of their numeric keys, each key once. *)
Lemma render_perspectives_ok (d : dict) :
  well_formed d ->
  exists keys texts,
    Permutation keys (dict_keys d)
    /\ StronglySorted (fun a b => (int_of a <= int_of b)%Z) keys
    /\ render (JObj d) = Ok texts
    /\ Forall2 (fun k text => exists p, dict_get k d = Some p
                                        /\ format_one k p = Ok text)
               keys texts.
Proof.
  intros Hwf. unfold render_perspectives.
  destruct (sorted_by_int_spec (dict_keys d) (well_formed_keys d Hwf))
    as (keys & -> & Hperm & Hsorted). simpl.
  destruct (omapM_total
              (fun key => perspective <~ dict_item key d ;; format_one key perspective)
              keys) as (texts & -> & Hall).
  - intros k Hk. rewrite Hperm in Hk.
    destruct (dict_get_elem k d Hk) as (v & Hget & Hin).
    unfold dict_item. rewrite Hget. simpl.
    unfold well_formed in Hwf. rewrite Forall_forall in Hwf.
    destruct (Hwf _ Hin) as (_ & p & Hp & Hr & Hc). simpl in Hp. subst v.
    by apply format_perspective_ok.
  - exists keys, texts. split; [done|]. split; [done|]. split; [done|].
    eapply Forall2_impl; [exact Hall|]. simpl. intros k text Hk.
    unfold dict_item in Hk. destruct (dict_get k d) as [p|]; [|done].
    by exists p.
Qed.

(** A key that [int] rejects makes the rendering raise [ValueError]. *)
Lemma render_perspectives_bad_key (d : dict) (k : pystr) :
  k ∈ dict_keys d -> py_int k = Raise ValueError ->
  render (JObj d) = Raise ValueError.
Proof.
  intros Hk Hint. unfold render_perspectives.
  by rewrite (sorted_by_int_raises _ k Hk Hint).
Qed.

(** A value that is not an object with a ['Reason'] makes the rendering
    raise. *)
Lemma render_perspectives_bad_value (d : dict) (k : pystr) (p : json) :
  k ∈ dict_keys d -> dict_get k d = Some p ->
  (forall pd, p = JObj pd -> dict_has (str "Reason") pd = false) ->
  exists e, render (JObj d) = Raise e.
Proof.
  intros Hk Hget Hbad. unfold render_perspectives, sorted_by_int.
  destruct (omapM py_int (dict_keys d)) as [ks|e] eqn:E; simpl; [|by eexists].
  destruct (format_perspective_raises k p Hbad) as [e He].
  apply (omapM_raises_some _ _ k e).
  - change (map snd ?l) with (l.*2).
    rewrite sort_by_key_Permutation, snd_zip; [done|].
    apply omapM_Ok_Forall2, Forall2_length in E. lia.
  - unfold dict_item. by rewrite Hget.
Qed.

End Rendering.

(* ------------------------------------------------------------------ *)
(** ** The formatting script: [display_results] *)
(* ------------------------------------------------------------------ *)

Section FormatterTables.

Import Format.

(** The methods of every group are method names of the generator. *)
Lemma get_method_groups_names (shot_filter : pystr)
    (groups : list (pystr * list pystr)) :
  get_method_groups shot_filter = Ok groups ->
  forall g m, g ∈ groups -> m ∈ g.2 -> m ∈ Generate.method_names.
Proof.
  unfold get_method_groups. rewrite method_names_eq.
  repeat destruct (pystr_eqb shot_filter _); try done;
    intros [= <-] g m Hg Hm;
    rewrite ?elem_of_cons, elem_of_nil in Hg;
    repeat destruct Hg as [->|Hg]; try done;
    cbn [snd] in Hm; revert Hm; rewrite !elem_of_cons; tauto.
Qed.

(** The topics of the formatter are those of the generator. *)
Lemma TOPIC_INFO_ids (topic_id question : pystr) :
  (topic_id, question) ∈ TOPIC_INFO -> topic_id ∈ Generate.topic_ids.
Proof.
  intros H. change Generate.topic_ids with (map fst TOPIC_INFO).
  by apply (list_elem_of_fmap_2 fst) in H.
Qed.

End FormatterTables.

Section Display.

Import Format Logs.

Variable json_loads : pystr -> option json.
Variable read_text : path -> option pystr.
Variable path_exists : path -> bool.
Variable py_str : json -> pystr.

Abbreviation render := (render_perspectives py_str).
Abbreviation lines_of_method :=
  (method_lines json_loads read_text path_exists py_str).
Abbreviation display := (display_results json_loads read_text path_exists py_str).

(** Every output file of the generator that exists in the directory
    decodes to a well-formed dict. *)
Abbreviation files_well_formed output_dir :=
  (forall m t,
     m ∈ Generate.method_names -> t ∈ Generate.topic_ids ->
     path_exists (Child (Path output_dir) (Generate.output_name m t)) = true ->
     exists content d,
       read_text (Child (Path output_dir) (Generate.output_name m t)) = Some content
       /\ json_loads content = Some (JObj d)
       /\ well_formed d).

Lemma method_lines_succeeds output_dir topic_id lines method :
  files_well_formed output_dir ->
  method ∈ Generate.method_names -> topic_id ∈ Generate.topic_ids ->
  succeeds (lines_of_method (Path output_dir) topic_id lines method).
Proof.
  intros Hfiles Hm Ht. unfold method_lines.
  destruct (path_exists _) eqn:E; cbn [negb]; [|apply succeeds_ret].
  destruct (Hfiles method topic_id Hm Ht E) as (content & d & Hread & Hload & Hwf).
  unfold Generate.output_name in Hread. rewrite Hread, Hload.
  apply succeeds_bind; [apply succeeds_emit|]. intros _.
  destruct (render_perspectives_ok py_str d Hwf) as (keys & texts & _ & _ & -> & _).
  apply succeeds_bind; [by intros w; eexists _, _|].
  intros rendered. apply succeeds_ret.
Qed.

Lemma get_method_groups_valid (shot_filter : pystr) :
  shot_filter ∈ [str "all"; str "5-shot"; str "1-shot"] ->
  exists groups, get_method_groups shot_filter = Ok groups.
Proof.
  rewrite !elem_of_cons, elem_of_nil.
  intros [->|[->|[->|[]]]]; by eexists.
Qed.

Lemma display_results_succeeds output_dir shot_filter save_file :
  shot_filter ∈ [str "all"; str "5-shot"; str "1-shot"] ->
  files_well_formed output_dir ->
  succeeds (display output_dir shot_filter save_file).
Proof.
  intros Hfilter Hfiles. unfold display_results.
  destruct (negb (path_exists _)); [apply succeeds_ret|].
  destruct (get_method_groups_valid _ Hfilter) as [groups Hgroups].
  rewrite Hgroups, bind_lift_Ok.
  apply succeeds_bind.
  - apply succeeds_foldM. intros lines [topic_id question] Htopic.
    apply succeeds_foldM. intros lines' [shot_label methods] Hgroup.
    apply succeeds_foldM. intros lines'' method Hmethod.
    apply method_lines_succeeds; [done| |by eapply TOPIC_INFO_ids].
    by apply (get_method_groups_names _ _ Hgroups _ _ Hgroup).
  - intros lines. destruct save_file as [file|]; [|apply succeeds_ret].
    destruct (nonempty file); [|apply succeeds_ret].
    apply succeeds_bind; [apply succeeds_emit|]. intros _. apply succeeds_emit.
Qed.

(** A file that is reached and whose rendering raises makes
    [display_results] raise. *)
Lemma display_results_raises output_dir shot_filter save_file
    groups topic_id question shot_label methods method content v e :
  path_exists (Path output_dir) = true ->
  get_method_groups shot_filter = Ok groups ->
  (topic_id, question) ∈ TOPIC_INFO ->
  (shot_label, methods) ∈ groups ->
  method ∈ methods ->
  path_exists (Child (Path output_dir) (method ++ str "_" ++ topic_id ++ str ".json"))
  = true ->
  read_text (Child (Path output_dir) (method ++ str "_" ++ topic_id ++ str ".json"))
  = Some content ->
  json_loads content = Some v ->
  render v = Raise e ->
  always_raises (display output_dir shot_filter save_file).
Proof.
  intros Hdir Hgroups Htopic Hgroup Hmethod Hex Hread Hload Hrender.
  unfold display_results. rewrite Hdir, Hgroups. cbn [negb].
  rewrite bind_lift_Ok.
  apply always_raises_bind_l.
  apply (always_raises_foldM _ _ (topic_id, question) Htopic). intros lines.
  apply (always_raises_foldM _ _ (shot_label, methods) Hgroup). intros lines'.
  apply (always_raises_foldM _ _ method Hmethod). intros lines''.
  unfold method_lines. rewrite Hex, Hread, Hload. cbn [negb].
  apply always_raises_bind_r. intros _.
  apply always_raises_bind_l. intros w. unfold lift. rewrite Hrender.
  by eexists _, _.
Qed.

End Display.

Section DisplayClaims.

Import Format Logs Examples.




End DisplayClaims.

(* ------------------------------------------------------------------ *)
(** ** The evaluation script: the scoring loop *)
(* ------------------------------------------------------------------ *)

Lemma topic_score_insert (B : Evaluate.topic_scores) (t a t' a' : pystr) (v : R) :
  Metric.topic_score (<[t := <[a := v]> (default ∅ (B !! t))]> B) t' a'
  = if decide (t' = t /\ a' = a) then Some v else Metric.topic_score B t' a'.
Proof.
  unfold Metric.topic_score. destruct (decide (t' = t)) as [->|Ht].
  - rewrite lookup_insert_eq. simpl.
    destruct (decide (a' = a)) as [->|Ha].
    + rewrite lookup_insert_eq. by rewrite decide_True.
    + rewrite lookup_insert_ne by done. rewrite decide_False by tauto.
      by destruct (B !! t).
  - rewrite lookup_insert_ne by done. by rewrite decide_False by tauto.
Qed.

Section Scoring.

Import Evaluate Metric.

Variable embed_api : pystr -> pystr -> list R.
Variable json_loads : pystr -> option json.
Variable read_text : path -> option pystr.

Abbreviation score := (score_file embed_api json_loads read_text).
Abbreviation entry := (eligible_entry json_loads read_text).
Abbreviation value := (diversity_value embed_api).

Lemma glob_json_elem (listing : list pystr) (f : pystr) :
  f ∈ glob_json listing <-> f ∈ listing /\ ends_with (str ".json") f = true.
Proof.
  unfold glob_json. rewrite !list_elem_of_In, filter_In. done.
Qed.

(** A name that ends in [.json] is not that of the formatted results. *)
Lemma json_name_not_report (f : pystr) :
  ends_with (str ".json") f = true ->
  pystr_eqb f (str "formatted_results.txt") = false.
Proof.
  intros H. unfold pystr_eqb. apply bool_decide_eq_false. intros ->.
  by vm_compute in H.
Qed.

Lemma calculate_semantic_diversity_value (reasons : list json) (w : log) :
  exists w', calculate_semantic_diversity embed_api reasons w = (value reasons, w').
Proof.
  destruct (calculate_semantic_diversity_appends embed_api reasons) as (r & evs & H).
  exists (w ++ evs). unfold diversity_value. by rewrite !H.
Qed.

(** One iteration of the loop: an eligible file is scored and recorded in
    both maps, any other file leaves them as they are. *)
Lemma score_file_step (st st' : scores * topic_scores) (f : pystr) (w w' : log) :
  pystr_eqb f (str "formatted_results.txt") = false ->
  score st f w = (Ok st', w') ->
  match entry f with
  | Some (t, a, rs) =>
      exists v, value rs = Ok v
                /\ st' = (<[f := v]> st.1,
                          <[t := <[a := v]> (default ∅ (st.2 !! t))]> st.2)
  | None => st' = st
  end.
Proof.
  intros Hname. unfold score_file, eligible_entry, reasons_of.
  rewrite Hname. destruct (parse_filename f) as [[t|] [a|]];
    cbn [truthy_str negb orb andb]; try by intros [= <-].
  - destruct (nonempty t), (nonempty a); cbn [negb orb andb];
      try by intros [= <-].
    unfold bind at 1, load_json_file.
    destruct (read_text _) as [content|]; [|done].
    unfold bind at 1, emit at 1.
    destruct (json_loads content) as [data|]; [|done].
    unfold ret at 1, bind at 1, lift at 1.
    destruct (extract_reasons data) as [rs|]; [|done].
    replace (2 <=? length rs)%nat with (negb (length rs <? 2)%nat)
      by (destruct (Nat.ltb_spec (length rs) 2), (Nat.leb_spec 2 (length rs));
          simpl; try done; lia).
    destruct (length rs <? 2)%nat; cbn [negb]; [by intros [= <-]|].
    unfold bind at 1.
    destruct (calculate_semantic_diversity_value rs (w ++ [EvRead (Child outputs_dir f)]))
      as [w1 ->].
    destruct (value rs) as [v|]; [|done].
    destruct st as [all_scores results_by_topic]. unfold ret.
    intros [= <- <-]. exists v. split; [done|]. cbn [fst snd]. f_equal.
    destruct (results_by_topic !! t) as [by_approach|] eqn:E; [by rewrite E|].
    rewrite lookup_insert_eq. cbn [default]. by rewrite insert_insert_eq.
  - destruct (nonempty t); by intros [= <-].
Qed.

(** The maps after the loop over [files], in terms of the maps before. *)
Lemma foldM_score_files (files : list pystr) :
  Forall (fun f => pystr_eqb f (str "formatted_results.txt") = false) files ->
  forall (st st' : scores * topic_scores) (w w' : log),
    foldM score st files w = (Ok st', w') ->
    (forall f t a rs,
       f ∈ files -> entry f = Some (t, a, rs) ->
       exists v, value rs = Ok v /\ st'.1 !! f = Some v)
    /\ (forall f, (f ∈ files -> entry f = None) -> st'.1 !! f = st.1 !! f)
    /\ (forall f t a rs,
          f ∈ files -> entry f = Some (t, a, rs) ->
          (forall g rs', g ∈ files -> entry g = Some (t, a, rs') -> g = f) ->
          exists v, value rs = Ok v /\ topic_score st'.2 t a = Some v)
    /\ (forall t a,
          (forall g rs, g ∈ files -> entry g <> Some (t, a, rs)) ->
          topic_score st'.2 t a = topic_score st.2 t a).
Proof.
  induction 1 as [|x files Hx Hfiles IH]; intros st st' w w'; simpl.
  { intros [= <- <-]. split; [|split; [|split]]; try done.
    - by intros f t a rs ?%elem_of_nil.
    - by intros f t a rs ?%elem_of_nil. }
  unfold bind at 1. destruct (score st x w) as [[st1|e] w1] eqn:Hstep; [|done].
  intros Hrest. apply score_file_step in Hstep; [|done].
  destruct (IH st1 st' w1 w' Hrest) as (IH1 & IH2 & IH3 & IH4).
  split; [|split; [|split]].
  - intros f t a rs Hf Hentry.
    destruct (decide (f ∈ files)) as [Hin|Hout]; [by eapply IH1|].
    apply elem_of_cons in Hf as [->|Hf]; [|done].
    rewrite IH2 by done. rewrite Hentry in Hstep.
    destruct Hstep as (v & Hv & ->). exists v. split; [done|].
    apply lookup_insert_eq.
  - intros f Hf. rewrite IH2.
    2:{ intros Hin. apply Hf. by apply list_elem_of_further. }
    destruct (entry x) as [[[t a] rs]|] eqn:Hentry; [|by subst st1].
    destruct Hstep as (v & Hv & ->). cbn [fst].
    apply lookup_insert_ne. intros ->.
    rewrite Hf in Hentry by apply list_elem_of_here. done.
  - intros f t a rs Hf Hentry Huniq.
    destruct (decide (f ∈ files)) as [Hin|Hout].
    + eapply IH3; [done..|]. intros g rs' Hg. apply Huniq.
      by apply list_elem_of_further.
    + apply elem_of_cons in Hf as [->|Hf]; [|done].
      rewrite IH4.
      2:{ intros g rs' Hg Hentry'. apply Hout.
          rewrite <- (Huniq g rs'); [done|by apply list_elem_of_further|done]. }
      rewrite Hentry in Hstep. destruct Hstep as (v & Hv & ->).
      exists v. split; [done|]. cbn [snd].
      rewrite topic_score_insert. by rewrite decide_True.
  - intros t a Hnone. rewrite IH4.
    2:{ intros g rs Hg. apply Hnone. by apply list_elem_of_further. }
    destruct (entry x) as [[[t' a'] rs]|] eqn:Hentry; [|by subst st1].
    destruct Hstep as (v & Hv & ->). cbn [snd].
    rewrite topic_score_insert. rewrite decide_False; [done|].
    intros [-> ->]. eapply Hnone; [apply list_elem_of_here|done].
Qed.

End Scoring.

Section ScoringClaims.

Import Evaluate Metric.

Variable embed_api : pystr -> pystr -> list R.
Variable json_loads : pystr -> option json.
Variable read_text : path -> option pystr.

Abbreviation score := (score_file embed_api json_loads read_text).
Abbreviation entry := (eligible_entry json_loads read_text).
Abbreviation value := (diversity_value embed_api).
Abbreviation run_scores := (main_scores embed_api json_loads read_text).

Lemma eligible_entry_parse (f t a : pystr) (rs : list json) :
  entry f = Some (t, a, rs) -> parse_filename f = (Some t, Some a).
Proof.
  unfold eligible_entry.
  destruct (parse_filename f) as [[t'|] [a'|]]; try done.
  destruct (nonempty t' && nonempty a'); [|done].
  destruct (reasons_of _ _ f) as [rs'|]; [|done].
  destruct (2 <=? length rs')%nat; [|done].
  by intros [= -> -> ->].
Qed.

(** An eligible file whose score can be computed is recorded. *)
Lemma score_file_eligible (st : scores * topic_scores) (f t a : pystr)
    (rs : list json) (v : R) (w : log) :
  pystr_eqb f (str "formatted_results.txt") = false ->
  entry f = Some (t, a, rs) -> value rs = Ok v ->
  exists w',
    score st f w
    = (Ok (<[f := v]> st.1, <[t := <[a := v]> (default ∅ (st.2 !! t))]> st.2), w').
Proof.
  intros Hname Hentry Hv.
  destruct (score st f w) as [[st'|e] w'] eqn:Hrun.
  - exists w'. pose proof (score_file_step _ _ _ _ _ _ _ _ Hname Hrun) as Hstep.
    rewrite Hentry in Hstep. destruct Hstep as (v' & Hv' & ->).
    rewrite Hv in Hv'. by injection Hv' as <-.
  - exfalso. revert Hrun Hentry.
    unfold score_file, eligible_entry, reasons_of. rewrite Hname.
    destruct (parse_filename f) as [[t'|] [a'|]];
      cbn [truthy_str negb orb andb]; try done.
    destruct (nonempty t'), (nonempty a'); cbn [negb orb andb]; try done.
    unfold bind at 1, load_json_file.
    destruct (read_text _) as [content|]; [|done].
    unfold bind at 1, emit at 1.
    destruct (json_loads content) as [data|]; [|done].
    unfold ret at 1, bind at 1, lift at 1.
    destruct (extract_reasons data) as [rs'|]; [|done].
    replace (2 <=? length rs')%nat with (negb (length rs' <? 2)%nat)
      by (destruct (Nat.ltb_spec (length rs') 2), (Nat.leb_spec 2 (length rs'));
          simpl; try done; lia).
    destruct (length rs' <? 2)%nat; cbn [negb]; [done|].
    unfold bind at 1.
    destruct (calculate_semantic_diversity_value embed_api rs'
                (w ++ [EvRead (Child outputs_dir f)])) as [w1 ->].
    intros Hrun [= -> -> ->]. rewrite Hv in Hrun.
    by destruct st.
Qed.

(** A file that is not JSON aborts the loop. *)
Lemma score_file_undecodable (st : scores * topic_scores) (f t a content : pystr)
    (w : log) :
  pystr_eqb f (str "formatted_results.txt") = false ->
  parse_filename f = (Some t, Some a) ->
  nonempty t = true -> nonempty a = true ->
  read_text (Child outputs_dir f) = Some content ->
  json_loads content = None ->
  score st f w = (Raise JSONDecodeError, w ++ [EvRead (Child outputs_dir f)]).
Proof.
  intros Hname Hparse Ht Ha Hread Hload. unfold score_file.
  rewrite Hname, Hparse. cbn [truthy_str]. rewrite Ht, Ha. cbn [negb orb].
  unfold bind at 1, load_json_file. rewrite Hread.
  unfold bind at 1, emit at 1. by rewrite Hload.
Qed.

(** C7 (amended): when the scoring loop of [main] completes, every JSON
    file of the outputs directory whose name splits at its first underscore
    into an approach and a topic (both not empty) and which yields at least
    two reasons has its diversity score in [all_scores] under its file
    name, and in [results_by_topic] under its topic and approach provided
    no other JSON file of the directory is read as the same topic and
    approach.  A file whose name does not split so, or which yields fewer
    than two reasons, is not in [all_scores], and its topic and approach,
    if it has them and no other file shares them, are not in
    [results_by_topic]. *)
Theorem main_scores_records
    (listing : list pystr) (w w' : log)
    (all_scores : scores) (results_by_topic : topic_scores) (f : pystr) :
  run_scores listing w = (Ok (all_scores, results_by_topic), w') ->
  f ∈ listing -> ends_with (str ".json") f = true ->
  match entry f with
  | Some (t, a, rs) =>
      exists v,
        value rs = Ok v
        /\ all_scores !! f = Some v
        /\ ((forall g, g ∈ glob_json listing ->
                       parse_filename g = (Some t, Some a) -> g = f) ->
            topic_score results_by_topic t a = Some v)
  | None =>
      all_scores !! f = None
      /\ (forall t a,
            parse_filename f = (Some t, Some a) ->
            (forall g, g ∈ glob_json listing ->
                       parse_filename g = (Some t, Some a) -> g = f) ->
            topic_score results_by_topic t a = None)
  end.
Proof.
  intros Hrun Hf Hjson. unfold main_scores in Hrun.
  assert (f ∈ glob_json listing) as Hglob by (by apply glob_json_elem).
  destruct (foldM_score_files embed_api json_loads read_text (glob_json listing))
    with (st := ((∅, ∅) : scores * topic_scores))
         (st' := (all_scores, results_by_topic)) (w := w) (w' := w')
    as (H1 & H2 & H3 & H4); [|done|].
  { apply Forall_forall. intros g [_ Hg]%glob_json_elem.
    by apply json_name_not_report. }
  cbn [fst snd] in *.
  destruct (entry f) as [[[t a] rs]|] eqn:Hentry.
  - destruct (H1 f t a rs Hglob Hentry) as (v & Hv & Hall).
    exists v. split; [done|]. split; [done|]. intros Huniq.
    destruct (H3 f t a rs Hglob Hentry) as (v' & Hv' & Htopic).
    { intros g rs' Hg Hentry'. apply Huniq; [done|].
      by eapply eligible_entry_parse. }
    rewrite Hv in Hv'. by injection Hv' as <-.
  - split.
    + by rewrite H2.
    + intros t a Hparse Huniq. rewrite H4; [done|].
      intros g rs Hg Hentry'.
      rewrite (Huniq g Hg (eligible_entry_parse _ _ _ _ Hentry')) in Hentry'.
      by rewrite Hentry in Hentry'.
Qed.

End ScoringClaims.

Section ScoringExamples.

Import Evaluate Metric Examples.
#[local] Open Scope R_scope.

Lemma toy_value_xy :
  diversity_value toy_embed [JStr (str "x"); JStr (str "y")] = Ok 1.
Proof.
  unfold diversity_value.
  rewrite (calculate_semantic_diversity_run toy_embed [str "x"; str "y"]).
  cbn [length Nat.ltb Nat.leb fst].
  change (map (embedding_of toy_embed) [str "x"; str "y"]) with [[1; 0]; [0; 1]].
  rewrite (distances_of_same_dim 2) by (by repeat constructor).
  cbn [value_pairs map app obind fst snd].
  unfold np_mean, cosine_similarity, dot, rsum. cbn [fold_right length INR].
  replace (1 * 0 + (0 * 1 + 0)) with 0 by lra.
  unfold Rdiv at 2. rewrite Rmult_0_l. f_equal. lra.
Qed.

Lemma toy_value_xx :
  diversity_value toy_embed [JStr (str "x"); JStr (str "x")] = Ok 0.
Proof.
  unfold diversity_value.
  rewrite (calculate_semantic_diversity_run toy_embed [str "x"; str "x"]).
  cbn [length Nat.ltb Nat.leb fst].
  change (map (embedding_of toy_embed) [str "x"; str "x"]) with [[1; 0]; [1; 0]].
  rewrite (distances_of_same_dim 2) by (by repeat constructor).
  cbn [value_pairs map app obind fst snd].
  unfold np_mean, cosine_similarity, norm, dot, rsum. cbn [fold_right length INR].
  replace (1 * 1 + (0 * 0 + 0)) with 1 by lra.
  rewrite sqrt_1. f_equal. lra.
Qed.

(** C7 (as stated) fails: [a_b.json] is eligible and its score is [1], but
    [a_b.json.json], processed after it, is read as the same topic [b] and
    approach [a]; after the loop [results_by_topic] holds [0], the score of
    the second file, under that topic and approach.  And when a later file
    of the directory is not JSON, [main] raises and records nothing. *)
Lemma main_scores_overwrites_topic_score :
  exists all_scores results_by_topic w',
    main_scores toy_embed toy_loads toy_outputs
      [str "a_b.json"; str "a_b.json.json"] []
    = (Ok (all_scores, results_by_topic), w')
    /\ eligible_entry toy_loads toy_outputs (str "a_b.json")
       = Some (str "b", str "a", [JStr (str "x"); JStr (str "y")])
    /\ diversity_value toy_embed [JStr (str "x"); JStr (str "y")] = Ok 1
    /\ topic_score results_by_topic (str "b") (str "a") = Some 0
    /\ 0 <> 1
    /\ exists w'',
         main_scores toy_embed toy_loads toy_outputs
           [str "a_b.json"; str "e_f.json"] []
         = (Raise JSONDecodeError, w'').
Proof.
  assert (eligible_entry toy_loads toy_outputs (str "a_b.json")
          = Some (str "b", str "a", [JStr (str "x"); JStr (str "y")])) as E1
    by (by vm_compute).
  assert (eligible_entry toy_loads toy_outputs (str "a_b.json.json")
          = Some (str "b", str "a", [JStr (str "x"); JStr (str "x")])) as E2
    by (by vm_compute).
  change (main_scores toy_embed toy_loads toy_outputs
            [str "a_b.json"; str "a_b.json.json"] [])
    with (foldM (score_file toy_embed toy_loads toy_outputs) (∅, ∅)
            [str "a_b.json"; str "a_b.json.json"] []).
  cbn [foldM]. unfold bind at 1.
  destruct (score_file_eligible toy_embed toy_loads toy_outputs (∅, ∅)
              (str "a_b.json") _ _ _ _ [] eq_refl E1 toy_value_xy) as [w1 ->].
  unfold bind at 1.
  destruct (score_file_eligible toy_embed toy_loads toy_outputs
              (<[str "a_b.json" := 1]> (∅ : scores),
               <[str "b" := <[str "a" := 1]>
                               (default ∅ ((∅ : topic_scores) !! str "b"))]>
                 (∅ : topic_scores))
              (str "a_b.json.json") _ _ _ _ w1 eq_refl E2 toy_value_xx)
    as [w2 Hw2].
  cbn [fst snd] in *. rewrite Hw2. unfold ret.
  eexists _, _, _. split; [done|]. split; [done|]. split; [apply toy_value_xy|].
  split; [|split; [lra|]].
  { rewrite topic_score_insert. by rewrite decide_True. }
  change (main_scores toy_embed toy_loads toy_outputs
            [str "a_b.json"; str "e_f.json"] [])
    with (foldM (score_file toy_embed toy_loads toy_outputs) (∅, ∅)
            [str "a_b.json"; str "e_f.json"] []).
  cbn [foldM]. unfold bind at 1.
  destruct (score_file_eligible toy_embed toy_loads toy_outputs (∅, ∅)
              (str "a_b.json") _ _ _ _ [] eq_refl E1 toy_value_xy) as [w3 ->].
  unfold bind at 1.
  rewrite (score_file_undecodable toy_embed toy_loads toy_outputs _
             (str "e_f.json") (str "f") (str "e") (str "oops")); try done.
  by eexists.
Qed.

Lemma main_scores_records_witness :
  exists v,
    diversity_value toy_embed [JStr (str "x"); JStr (str "y")] = Ok v
    /\ (<[str "a_b.json" := 1]> ∅ : gmap pystr R) !! str "a_b.json" = Some v.
Proof.
  destruct (score_file_eligible toy_embed toy_loads toy_outputs (∅, ∅)
              (str "a_b.json") (str "b") (str "a")
              [JStr (str "x"); JStr (str "y")] 1 [] eq_refl)
    as [w1 Hw1]; [by vm_compute|apply toy_value_xy|].
  pose proof (main_scores_records toy_embed toy_loads toy_outputs
                [str "a_b.json"; str "notes.txt"] [] w1
                (<[str "a_b.json" := 1]> (∅ : scores))
                (<[str "b" := <[str "a" := 1]>
                                (default ∅ ((∅ : topic_scores) !! str "b"))]>
                   (∅ : topic_scores))
                (str "a_b.json")) as H.
  assert (eligible_entry toy_loads toy_outputs (str "a_b.json")
          = Some (str "b", str "a", [JStr (str "x"); JStr (str "y")])) as E
    by (by vm_compute).
  rewrite E in H.
  destruct H as (v & Hv & Hall & _).
  - change (main_scores toy_embed toy_loads toy_outputs
              [str "a_b.json"; str "notes.txt"] [])
      with (foldM (score_file toy_embed toy_loads toy_outputs) (∅, ∅)
              [str "a_b.json"] []).
    cbn [foldM]. unfold bind at 1. by rewrite Hw1.
  - apply list_elem_of_here.
  - by vm_compute.
  - by exists v.
Defined.

End ScoringExamples.

(* ================================================================== *)
(** * Further properties *)
(* ================================================================== *)

(* ------------------------------------------------------------------ *)
(** ** The range of the cosine distance and of the diversity score *)
(* ------------------------------------------------------------------ *)

Section DistanceRange.

Import Evaluate Metric.
#[local] Open Scope R_scope.

Implicit Types (u v : list R).

(** The squared length of [s u + t v], written out. *)
Lemma dot_quadratic u v (s t : R) :
  0 <= s * s * dot u u + 2 * s * t * dot u v + t * t * dot v v.
Proof.
  revert v; induction u as [|x u IH]; intros [|y v]; simpl.
  - lra.
  - pose proof (dot_self_nonneg v). pose proof (Rle_0_sqr y) as Hy.
    pose proof (Rle_0_sqr t) as Ht. unfold Rsqr in *. nra.
  - pose proof (dot_self_nonneg u). pose proof (Rle_0_sqr x) as Hx.
    pose proof (Rle_0_sqr s) as Hs. unfold Rsqr in *. nra.
  - specialize (IH v).
    pose proof (Rle_0_sqr (s * x + t * y)) as Hsq. unfold Rsqr in Hsq. nra.
Qed.

(** The Cauchy-Schwarz inequality. *)
Lemma dot_square_le u v : dot u v * dot u v <= dot u u * dot v v.
Proof.
  pose proof (dot_self_nonneg u) as Ha. pose proof (dot_self_nonneg v) as Hb.
  destruct (Rle_lt_or_eq_dec _ _ Hb) as [Hpos|Hzero].
  - pose proof (dot_quadratic u v (dot v v) (- dot u v)) as H. nra.
  - pose proof (dot_quadratic u v (dot u v) (- (dot u u + 1) / 2)) as H.
    rewrite <- Hzero in *. nra.
Qed.

Lemma norm_square v : norm v * norm v = dot v v.
Proof. apply sqrt_sqrt, dot_self_nonneg. Qed.

(** The cosine similarity of nonzero vectors lies between [-1] and [1]. *)
Lemma cosine_similarity_range u v :
  nonzero u -> nonzero v -> -1 <= cosine_similarity u v <= 1.
Proof.
  intros Hu Hv. unfold cosine_similarity.
  pose proof (norm_pos u Hu) as H1. pose proof (norm_pos v Hv) as H2.
  pose proof (norm_square u) as Hsu. pose proof (norm_square v) as Hsv.
  pose proof (dot_square_le u v) as Hcs.
  set (N := norm u * norm v) in *. set (c := dot u v) in *.
  assert (0 < N) as HN by (unfold N; nra).
  assert (c * c <= N * N) as Hc by (unfold N; nra).
  assert (- N <= c <= N) as [Hlo Hhi] by nra.
  split.
  - apply (Rmult_le_reg_r N); [done|].
    unfold Rdiv. rewrite Rmult_assoc, Rinv_l by lra. lra.
  - apply (Rmult_le_reg_r N); [done|].
    unfold Rdiv. rewrite Rmult_assoc, Rinv_l by lra. lra.
Qed.

Lemma cosine_similarity_self v : nonzero v -> cosine_similarity v v = 1.
Proof.
  intros Hv. unfold cosine_similarity. rewrite norm_square.
  apply Rdiv_diag. pose proof (dot_self_pos v Hv). lra.
Qed.

Lemma rsum_bounds (lo hi : R) (l : list R) :
  Forall (fun x => lo <= x <= hi) l ->
  INR (length l) * lo <= rsum l <= INR (length l) * hi.
Proof.
  induction 1 as [|x l Hx _ IH]; [simpl; lra|].
  rewrite rsum_cons. cbn [length]. rewrite S_INR. lra.
Qed.

Lemma np_mean_bounds (lo hi : R) (l : list R) :
  l <> [] -> Forall (fun x => lo <= x <= hi) l -> lo <= np_mean l <= hi.
Proof.
  intros Hne Hall. pose proof (rsum_bounds lo hi l Hall) as [Hlo Hhi].
  assert (0 < INR (length l)) as Hn.
  { apply lt_0_INR. destruct l; [done|simpl; lia]. }
  unfold np_mean. split.
  - apply (Rmult_le_reg_r (INR (length l))); [done|].
    unfold Rdiv. rewrite Rmult_assoc, Rinv_l by lra. lra.
  - apply (Rmult_le_reg_r (INR (length l))); [done|].
    unfold Rdiv. rewrite Rmult_assoc, Rinv_l by lra. lra.
Qed.

Lemma value_pairs_nonempty {A} (l : list A) :
  (2 <= length l)%nat -> value_pairs l <> [].
Proof. destruct l as [|x [|y l]]; simpl; [lia..|done]. Qed.

(** X1: over the reals, for nonzero vectors of one dimension
    [cosine_distance] returns a number between [0] and [2]. *)
Theorem cosine_distance_range u v :
  length u = length v -> nonzero u -> nonzero v ->
  exists dist, cosine_distance u v = Ok dist /\ 0 <= dist <= 2.
Proof.
  intros Hlen Hu Hv. exists (1 - cosine_similarity u v).
  split; [by apply cosine_distance_same_dim|].
  pose proof (cosine_similarity_range u v Hu Hv). lra.
Qed.

(** X2: over the reals, the cosine distance depends on directions only:
    scaling a vector by a positive factor does not change its distance to
    another vector, and the distance of a nonzero vector to itself is [0].
    (In [float64] both hold up to rounding only.) *)
Theorem cosine_distance_scale_invariant u v (k : R) :
  length u = length v -> nonzero u -> nonzero v -> 0 < k ->
  cosine_distance (map (Rmult k) u) v = cosine_distance u v
  /\ cosine_distance u u = Ok 0.
Proof.
  intros Hlen Hu Hv Hk.
  assert (forall a b, dot (map (Rmult k) a) b = k * dot a b) as Hd1.
  { induction a as [|x a IH]; intros [|y b]; simpl; try lra. rewrite IH. lra. }
  assert (forall a, dot (map (Rmult k) a) (map (Rmult k) a) = k * k * dot a a)
    as Hd2.
  { induction a as [|x a IH]; simpl; [lra|]. rewrite IH. lra. }
  split.
  - rewrite !cosine_distance_same_dim by (by rewrite ?length_map).
    f_equal. f_equal. unfold cosine_similarity, norm at 1. rewrite Hd1, Hd2.
    rewrite sqrt_mult by (pose proof (dot_self_nonneg u); nra).
    rewrite sqrt_square by lra. fold (norm u).
    pose proof (norm_pos u Hu). pose proof (norm_pos v Hv).
    field. lra.
  - rewrite cosine_distance_same_dim by done.
    rewrite cosine_similarity_self by done. f_equal. lra.
Qed.

Variable embed_api : pystr -> pystr -> list R.

(** X3: over the reals, for at least two reason texts whose embeddings
    are nonzero and of one dimension, the diversity score lies between [0]
    and [2].  (In [float64] rounding can take it a little below [0].) *)
Theorem calculate_semantic_diversity_range
    (texts : list pystr) (d : nat) (w : log) :
  (2 <= length texts)%nat ->
  Forall (fun t => length (embedding_of embed_api t) = d
                   /\ nonzero (embedding_of embed_api t)) texts ->
  exists score,
    (calculate_semantic_diversity embed_api (map JStr texts) w).1 = Ok score
    /\ 0 <= score <= 2.
Proof.
  intros Hn Hall. rewrite calculate_semantic_diversity_run.
  apply Nat.ltb_ge in Hn as Hlt. rewrite Hlt. cbn [fst].
  rewrite (distances_of_same_dim d).
  2:{ unfold all_dim. rewrite Forall_map.
      eapply Forall_impl; [exact Hall|]. by intros t [? _]. }
  eexists. split; [done|]. apply np_mean_bounds.
  - intros Hnil%map_eq_nil. revert Hnil. apply value_pairs_nonempty.
    by rewrite length_map.
  - apply Forall_map, Forall_forall. intros [x y] Hxy.
    apply value_pairs_elem in Hxy as [Hx Hy]. cbn [fst snd].
    apply list_elem_of_fmap in Hx as (tx & -> & Hx).
    apply list_elem_of_fmap in Hy as (ty & -> & Hy).
    rewrite Forall_forall in Hall.
    destruct (Hall _ Hx) as [_ Hnx], (Hall _ Hy) as [_ Hny].
    pose proof (cosine_similarity_range _ _ Hnx Hny). lra.
Qed.

(** X4: over the reals, reasons that all have the same nonzero embedding,
    such as copies of one text, have diversity [0].  (In [float64] the
    score of such reasons is [0] up to rounding.) *)
Theorem calculate_semantic_diversity_identical
    (texts : list pystr) (v : list R) (w : log) :
  (2 <= length texts)%nat -> nonzero v ->
  Forall (fun t => embedding_of embed_api t = v) texts ->
  (calculate_semantic_diversity embed_api (map JStr texts) w).1 = Ok 0.
Proof.
  intros Hn Hv Hall. rewrite calculate_semantic_diversity_run.
  apply Nat.ltb_ge in Hn as Hlt. rewrite Hlt. cbn [fst].
  rewrite (distances_of_same_dim (length v)).
  2:{ unfold all_dim. rewrite Forall_map.
      eapply Forall_impl; [exact Hall|]. by intros t ->. }
  cbn [obind]. f_equal.
  assert (Forall (fun x => 0 <= x <= 0)
            (map (fun xy => 1 - cosine_similarity xy.1 xy.2)
                 (value_pairs (map (embedding_of embed_api) texts)))) as Hz.
  { apply Forall_map, Forall_forall. intros [x y] Hxy.
    apply value_pairs_elem in Hxy as [Hx Hy]. cbn [fst snd].
    apply list_elem_of_fmap in Hx as (tx & -> & Hx).
    apply list_elem_of_fmap in Hy as (ty & -> & Hy).
    rewrite Forall_forall in Hall.
    rewrite (Hall _ Hx), (Hall _ Hy), cosine_similarity_self by done. lra. }
  apply np_mean_bounds in Hz; [lra|].
  intros Hnil%map_eq_nil. revert Hnil. apply value_pairs_nonempty.
  by rewrite length_map.
Qed.

End DistanceRange.

(* ------------------------------------------------------------------ *)
(** ** Where the diversity computation fails, and what it sends *)
(* ------------------------------------------------------------------ *)

Section DiversityErrors.

Import Evaluate Metric.

Variable embed_api : pystr -> pystr -> list R.

Lemma mapM_get_embedding_stops (before : list pystr) (r : json)
    (rest : list json) (w : log) :
  (forall s, r <> JStr s) ->
  mapM (get_embedding embed_api) (map JStr before ++ r :: rest) w
  = (Raise AttributeError, w ++ map embed_event before).
Proof.
  intros Hr. revert w; induction before as [|t before IH]; intros w; simpl.
  - unfold bind. rewrite app_nil_r.
    destruct r; try done. by destruct (Hr s).
  - unfold bind at 1. unfold bind at 1. unfold emit, ret at 1.
    unfold bind at 1. rewrite IH. by rewrite <- app_assoc.
Qed.

(** X5: a reason that is not a string makes
    [calculate_semantic_diversity] raise [AttributeError]; the reasons
    before it have been embedded by then, the ones after it have not. *)
Theorem calculate_semantic_diversity_non_string
    (before : list pystr) (r : json) (rest : list json) (w : log) :
  (forall s, r <> JStr s) ->
  (1 <= length before + length rest)%nat ->
  calculate_semantic_diversity embed_api (map JStr before ++ r :: rest) w
  = (Raise AttributeError, w ++ map embed_event before).
Proof.
  intros Hr Hn. unfold calculate_semantic_diversity.
  replace (length (map JStr before ++ r :: rest) <? 2)%nat with false.
  2:{ symmetry. apply Nat.ltb_ge.
      rewrite length_app, length_map. simpl. lia. }
  unfold bind at 1. by rewrite mapM_get_embedding_stops.
Qed.

(** X6: when two of the embeddings differ in dimension,
    [calculate_semantic_diversity] raises [ValueError], and only after it
    has requested the embedding of every text. *)
Theorem calculate_semantic_diversity_dimension_mismatch
    (texts : list pystr) (s t : pystr) (w : log) :
  s ∈ texts -> t ∈ texts ->
  length (embedding_of embed_api s) <> length (embedding_of embed_api t) ->
  calculate_semantic_diversity embed_api (map JStr texts) w
  = (Raise ValueError, w ++ map embed_event texts).
Proof.
  intros Hs Ht Hne. rewrite calculate_semantic_diversity_run.
  replace (length texts <? 2)%nat with false.
  2:{ symmetry. apply Nat.ltb_ge.
      destruct texts as [|a [|b texts]]; simpl; [|exfalso|lia].
      - by apply elem_of_nil in Hs.
      - apply list_elem_of_singleton in Hs, Ht. by subst. }
  rewrite (distances_of_diff_dim _ (embedding_of embed_api s)
             (embedding_of embed_api t)); [done|..|done].
  - by apply list_elem_of_fmap_2.
  - by apply list_elem_of_fmap_2.
Qed.

Lemma replace_go_char (c d : ascii) (s : pystr) :
  replace_go [c] [d] 0 s = map (fun x => if Ascii.eqb c x then d else x) s.
Proof.
  induction s as [|x s IH]; [done|].
  cbn [replace_go starts_with map length Nat.sub].
  rewrite andb_true_r, IH.
  by destruct (Ascii.eqb c x).
Qed.

(** X7: the text that [get_embedding] sends to the service has the length
    of the reason and contains no line feed: each one is replaced by a
    space, every other character is kept. *)
Theorem get_embedding_sends_one_line (s : pystr) (w : log) :
  exists sent,
    get_embedding embed_api (JStr s) w
    = (Ok (embed_api default_model sent), w ++ [EvEmbed default_model sent])
    /\ length sent = length s
    /\ str_in newline sent = false
    /\ (str_in newline s = false -> sent = s).
Proof.
  exists (sent_text s). split; [done|].
  unfold sent_text, str_replace, newline, str.
  cbn [list_ascii_of_string]. rewrite replace_go_char.
  split; [by rewrite length_map|]. split.
  - unfold str_in.
    enough (forall t, find_nat [ascii_of_nat 10]
                        (map (fun x => if Ascii.eqb (ascii_of_nat 10) x
                                       then " "%char else x) t) = None)
      as -> by done.
    induction t as [|x t IH]; [done|]. cbn [map find_nat starts_with].
    rewrite IH, andb_true_r.
    destruct (Ascii.eqb (ascii_of_nat 10) x) eqn:E; [done|]. by rewrite E.
  - intros Hno. unfold str_in in Hno.
    induction s as [|x s IH]; [done|]. cbn [map].
    cbn [find_nat starts_with] in Hno.
    rewrite andb_true_r in Hno.
    destruct (Ascii.eqb (ascii_of_nat 10) x); [done|].
    f_equal. apply IH. by destruct (find_nat [ascii_of_nat 10] s).
Qed.

End DiversityErrors.

Section DistanceExamples.

Import Evaluate Metric Examples.
#[local] Open Scope R_scope.

Lemma nonzero_head (x : R) (v : list R) : x <> 0 -> nonzero (x :: v).
Proof. intros Hx. exists x. split; [apply list_elem_of_here | done]. Qed.

Lemma cosine_distance_range_witness :
  exists dist, cosine_distance [1; 0] [1; 1] = Ok dist /\ 0 <= dist <= 2.
Proof.
  apply (cosine_distance_range [1; 0] [1; 1]).
  - reflexivity.
  - apply nonzero_head. lra.
  - apply nonzero_head. lra.
Defined.

Lemma cosine_distance_scale_invariant_witness :
  cosine_distance (map (Rmult 3) [1; 0]) [1; 1] = cosine_distance [1; 0] [1; 1]
  /\ cosine_distance [1; 0] [1; 0] = Ok 0.
Proof.
  apply (cosine_distance_scale_invariant [1; 0] [1; 1] 3).
  - reflexivity.
  - apply nonzero_head. lra.
  - apply nonzero_head. lra.
  - lra.
Defined.

Lemma calculate_semantic_diversity_range_witness :
  exists score,
    (calculate_semantic_diversity toy_embed
       (map JStr [str "x"; str "y"; str "z"]) []).1 = Ok score
    /\ 0 <= score <= 2.
Proof.
  apply (calculate_semantic_diversity_range
           toy_embed [str "x"; str "y"; str "z"] 2 []).
  - simpl. lia.
  - repeat constructor.
    + change (embedding_of toy_embed (str "x")) with [1; 0].
      apply nonzero_head. lra.
    + change (embedding_of toy_embed (str "y")) with [0; 1].
      exists 1. split; [apply list_elem_of_further, list_elem_of_here | lra].
    + change (embedding_of toy_embed (str "z")) with [1; 1].
      apply nonzero_head. lra.
Defined.

Lemma calculate_semantic_diversity_identical_witness :
  (calculate_semantic_diversity toy_embed
     (map JStr [str "x"; str "x"; str "x"]) []).1 = Ok 0.
Proof.
  apply (calculate_semantic_diversity_identical
           toy_embed [str "x"; str "x"; str "x"] [1; 0] []).
  - simpl. lia.
  - apply nonzero_head. lra.
  - repeat constructor.
Defined.

Lemma calculate_semantic_diversity_non_string_witness :
  calculate_semantic_diversity toy_embed
    (map JStr [str "x"] ++ JInt 5 :: [JStr (str "y")]) []
  = (Raise AttributeError, [] ++ map embed_event [str "x"]).
Proof.
  apply (calculate_semantic_diversity_non_string
           toy_embed [str "x"] (JInt 5) [JStr (str "y")] []).
  - intros s. discriminate.
  - simpl. lia.
Defined.

Lemma calculate_semantic_diversity_dimension_mismatch_witness :
  calculate_semantic_diversity ragged_embed
    (map JStr [str "x"; str "y"; str "z"]) []
  = (Raise ValueError, [] ++ map embed_event [str "x"; str "y"; str "z"]).
Proof.
  apply (calculate_semantic_diversity_dimension_mismatch
           ragged_embed [str "x"; str "y"; str "z"] (str "x") (str "y") []).
  - apply list_elem_of_here.
  - apply list_elem_of_further, list_elem_of_here.
  - change (embedding_of ragged_embed (str "x")) with [1; 0].
    change (embedding_of ragged_embed (str "y")) with [1; 0; 0].
    simpl. lia.
Defined.

End DistanceExamples.

(* ------------------------------------------------------------------ *)
(** ** File names, read backwards; and the text around a JSON object *)
(* ------------------------------------------------------------------ *)

Section Occurrences.

Implicit Types (pat s u v : pystr) (c : ascii).

Lemma starts_with_split pat s :
  starts_with pat s = true -> s = pat ++ drop (length pat) s.
Proof.
  revert s; induction pat as [|p pat IH]; intros [|x s]; simpl; try done.
  intros [E H]%andb_prop. apply Ascii.eqb_eq in E as ->. f_equal. by apply IH.
Qed.

(** The first occurrence: the text splits around it, and the pattern does
    not occur before it. *)
Lemma find_nat_Some pat s (i : nat) :
  pat <> [] -> find_nat pat s = Some i ->
  s = take i s ++ pat ++ drop (i + length pat) s
  /\ find_nat pat (take i s) = None.
Proof.
  intros Hpat. revert i; induction s as [|x s IH]; intros i.
  - destruct pat; [done|]. done.
  - cbn [find_nat]. destruct (starts_with pat (x :: s)) eqn:E.
    + intros [= <-]. split; [by apply starts_with_split|].
      by destruct pat.
    + destruct (find_nat pat s) as [i'|] eqn:F; [|done].
      intros [= <-]. destruct (IH i' eq_refl) as [Hs Hnone].
      split; [cbn; by rewrite <- Hs|].
      cbn [take find_nat].
      destruct (starts_with pat (x :: take i' s)) eqn:E'.
      * apply (starts_with_extend _ _ (drop i' s)) in E'.
        cbn in E'. rewrite take_drop in E'. congruence.
      * by rewrite Hnone.
Qed.

Lemma find_nat_Some_starts pat s (i : nat) :
  find_nat pat s = Some i -> starts_with pat (drop i s) = true.
Proof.
  revert i; induction s as [|x s IH]; intros i; cbn [find_nat].
  - destruct (starts_with pat []) eqn:E; [|done]. by intros [= <-].
  - destruct (starts_with pat (x :: s)) eqn:E; [by intros [= <-]|].
    destruct (find_nat pat s) as [i'|]; [|done]. intros [= <-]. by apply IH.
Qed.

Lemma find_char_None c s : find_nat [c] s = None <-> c ∉ s.
Proof.
  induction s as [|x s IH]; cbn [find_nat starts_with].
  - split; [intros _ ?%elem_of_nil; done|done].
  - rewrite andb_true_r. rewrite not_elem_of_cons.
    destruct (Ascii.eqb c x) eqn:E.
    + apply Ascii.eqb_eq in E. split; [done|]. intros [? _]. done.
    + apply Ascii.eqb_neq in E.
      destruct (find_nat [c] s); split; try done.
      * intros [_ H]. by apply IH in H.
      * intros _. split; [done|]. by apply IH.
Qed.

Lemma find_char_app c u v :
  c ∉ u -> find_nat [c] (u ++ v) = Nat.add (length u) <$> find_nat [c] v.
Proof.
  intros Hu. apply find_nat_after. intros a [|x b] -> Hb; [done|].
  cbn [app starts_with]. rewrite andb_true_r. apply Ascii.eqb_neq.
  intros ->. apply Hu. apply elem_of_app. right. apply list_elem_of_here.
Qed.

Lemma rfind_char_None c s : c ∉ s -> rfind_nat [c] s = None.
Proof.
  induction s as [|x s IH]; [done|]. intros [Hx Hs]%not_elem_of_cons.
  cbn [rfind_nat starts_with]. rewrite IH by done. rewrite andb_true_r.
  by apply Ascii.eqb_neq in Hx as ->.
Qed.

Lemma rfind_nat_bound pat s (j : nat) :
  pat <> [] -> rfind_nat pat s = Some j -> (j < length s)%nat.
Proof.
  intros Hpat. revert j; induction s as [|x s IH]; intros j.
  - destruct pat; done.
  - cbn [rfind_nat length]. destruct (rfind_nat pat s) as [j'|].
    + intros [= <-]. specialize (IH j' eq_refl). lia.
    + destruct (starts_with pat (x :: s)); [|done]. intros [= <-]. lia.
Qed.

(** The last occurrence of a character is not in a tail without it. *)
Lemma rfind_char_app c u v :
  c ∉ v -> rfind_nat [c] (u ++ v) = rfind_nat [c] u.
Proof.
  intros Hv. induction u as [|x u IH].
  - cbn [app]. by rewrite (rfind_char_None c v Hv).
  - cbn [app rfind_nat starts_with]. by rewrite IH.
Qed.

Lemma rfind_char_last c u v :
  c ∉ v -> rfind_nat [c] (u ++ c :: v) = Some (length u).
Proof.
  intros Hv. induction u as [|x u IH].
  - cbn [app rfind_nat starts_with length].
    rewrite (rfind_char_None c v Hv), Ascii.eqb_refl. done.
  - cbn [app rfind_nat length]. by rewrite IH.
Qed.

End Occurrences.

Section FileNamesBackwards.

Import Evaluate Generate.

(** X8: [parse_filename] answers [(None, None)] exactly when the name,
    without its [.json], has no underscore; otherwise the approach it
    returns has no underscore, and approach, underscore and topic make up
    the name without its [.json]. *)
Theorem parse_filename_inverse (f : pystr) :
  (str_in (str "_") (str_replace (str ".json") (str "") f) = false
   /\ parse_filename f = (None, None))
  \/ (exists t a,
        parse_filename f = (Some t, Some a)
        /\ str_in (str "_") a = false
        /\ str_replace (str ".json") (str "") f = a ++ str "_" ++ t).
Proof.
  unfold parse_filename, split_once, str_in.
  set (name := str_replace (str ".json") (str "") f).
  destruct (find_nat (str "_") name) as [i|] eqn:E; [right|by left].
  exists (drop (i + length (str "_")) name), (take i name).
  assert (str "_" <> []) as Hsep by done.
  pose proof (find_nat_Some (str "_") name i Hsep E) as [Hname Hnone].
  split; [done|]. split; [by rewrite Hnone|exact Hname].
Qed.

(** X9: the output file name determines the method and the topic, for
    method names without underscore: two different pairs never share a
    file. *)
Theorem output_name_injective (m t m' t' : pystr) :
  str_in (str "_") m = false -> str_in (str "_") m' = false ->
  output_name m t = output_name m' t' -> m = m' /\ t = t'.
Proof.
  intros Hm Hm' Heq.
  pose proof (split_once_underscore m (t ++ str ".json") Hm) as H1.
  pose proof (split_once_underscore m' (t' ++ str ".json") Hm') as H2.
  unfold output_name in Heq. rewrite Heq, H2 in H1.
  injection H1 as -> Ht. by apply app_inv_tail in Ht.
Qed.

Lemma output_name_injective_witness :
  str "free-form" = str "free-form" /\ str "elections" = str "elections".
Proof.
  apply (output_name_injective (str "free-form") (str "elections")
           (str "free-form") (str "elections")); reflexivity.
Defined.

(** X10: text before the first opening brace and after the last closing
    brace is ignored: what is decoded is the text from the one to the
    other. *)
Theorem extract_json_ignores_surroundings
    (json_loads : pystr -> outcome json) (before inside after : pystr) :
  str_in (str "{") before = false -> str_in (str "}") after = false ->
  extract_json json_loads (before ++ str "{" ++ inside ++ str "}" ++ after)
  = try_loads json_loads (str "{" ++ inside ++ str "}").
Proof.
  unfold str_in, str. cbn [list_ascii_of_string app].
  intros Hb Ha.
  assert ("{"%char ∉ before) as Hb'.
  { apply find_char_None. by destruct (find_nat _ before). }
  assert ("}"%char ∉ after) as Ha'.
  { apply find_char_None. by destruct (find_nat _ after). }
  rewrite extract_json_spec. unfold str. cbn [list_ascii_of_string].
  rewrite (find_char_app _ _ _ Hb'). cbn [find_nat starts_with].
  rewrite Ascii.eqb_refl. cbn [andb fmap option_fmap option_map].
  replace (before ++ "{"%char :: inside ++ "}"%char :: after)
    with ((before ++ "{"%char :: inside) ++ "}"%char :: after)
    by (by rewrite <- app_assoc).
  rewrite (rfind_char_last _ _ _ Ha'), length_app. cbn [length].
  replace (length before + 0 <=? length before + S (length inside))%nat
    with true by (symmetry; apply Nat.leb_le; lia).
  f_equal. rewrite <- app_assoc. cbn [app].
  rewrite Nat.add_0_r, drop_app_length.
  replace (S (length before + S (length inside)) - length before)%nat
    with (length ("{"%char :: inside ++ ["}"%char]))
    by (cbn [length]; rewrite length_app; simpl; lia).
  change ("{"%char :: inside ++ "}"%char :: after)
    with (("{"%char :: inside) ++ "}"%char :: after).
  replace (("{"%char :: inside) ++ "}"%char :: after)
    with (("{"%char :: inside ++ ["}"%char]) ++ after)
    by (cbn [app]; by rewrite <- app_assoc).
  by rewrite take_app_length.
Qed.

Lemma extract_json_ignores_surroundings_witness :
  extract_json (fun s => Ok (JStr s))
    (str "Here: " ++ str "{" ++ str "x" ++ str "}" ++ str " Bye.")
  = Ok (Some (JStr (str "{" ++ str "x" ++ str "}"))).
Proof.
  apply (extract_json_ignores_surroundings (fun s => Ok (JStr s))
           (str "Here: ") (str "x") (str " Bye.")); reflexivity.
Defined.

(** X11: when every closing brace of the text comes before every opening
    brace (so also when it has no opening or no closing brace),
    [extract_json] returns [None], whatever the decoder would do. *)
Theorem extract_json_without_object
    (json_loads : pystr -> outcome json) (left right : pystr) :
  str_in (str "{") left = false -> str_in (str "}") right = false ->
  extract_json json_loads (left ++ right) = Ok None.
Proof.
  unfold str_in, str. cbn [list_ascii_of_string].
  intros Hl Hr.
  assert ("{"%char ∉ left) as Hl'.
  { apply find_char_None. by destruct (find_nat _ left). }
  assert ("}"%char ∉ right) as Hr'.
  { apply find_char_None. by destruct (find_nat _ right). }
  rewrite extract_json_spec. unfold str. cbn [list_ascii_of_string].
  rewrite (find_char_app _ _ _ Hl'), (rfind_char_app _ _ _ Hr').
  destruct (find_nat ["{"%char] right) as [i|]; [|done]. cbn.
  destruct (rfind_nat ["}"%char] left) as [j|] eqn:E; [|done].
  apply rfind_nat_bound in E; [|done].
  by replace (length left + i <=? j)%nat with false
    by (symmetry; apply Nat.leb_gt; lia).
Qed.

Lemma extract_json_without_object_witness :
  extract_json (fun s => Ok (JStr s)) (str "} and then " ++ str "{ no end")
  = Ok None.
Proof.
  apply (extract_json_without_object (fun s => Ok (JStr s))
           (str "} and then ") (str "{ no end")); reflexivity.
Defined.

End FileNamesBackwards.

(* ------------------------------------------------------------------ *)
(** ** The generation script: a whole run *)
(* ------------------------------------------------------------------ *)

Section GenerateRuns.

Import Generate.

Variable chat_api : nat -> pystr -> pystr -> chat_reply.
Variable json_loads : pystr -> outcome json.
Variable json_dumps : json -> pystr.
Variable read_text : path -> option pystr.

Abbreviation gen_one := (generate_one chat_api json_loads json_dumps).
Abbreviation gen_main := (main chat_api json_loads json_dumps read_text).

(** [m] returns, makes [n] chat calls on the way and returns a value
    that satisfies [P]. *)
Abbreviation calls n P m :=
  (forall w, exists a evs,
      m w = (Ok a, w ++ evs) /\ chat_calls evs = n /\ P a).

Lemma chat_calls_app (l1 l2 : log) :
  chat_calls (l1 ++ l2) = chat_calls l1 + chat_calls l2.
Proof. unfold chat_calls, log. by rewrite list.filter_app, length_app. Qed.

Lemma calls_bind {A B} (n k : nat) (P : A -> Prop) (P' : B -> Prop)
    (m : M A) (f : A -> M B) :
  calls n P m -> (forall a, P a -> calls k P' (f a)) ->
  calls (n + k) P' (bind m f).
Proof.
  intros Hm Hf w. destruct (Hm w) as (a & evs & Hw & Hn & Ha).
  destruct (Hf a Ha (w ++ evs)) as (b & evs' & Hw' & Hk & Hb).
  exists b, (evs ++ evs'). unfold bind. rewrite Hw, Hw', app_assoc.
  split; [done|]. rewrite chat_calls_app. split; [lia|done].
Qed.

Lemma calls_forM_ {A} (c : nat) (body : A -> M unit) (l : list A) :
  (forall x, x ∈ l -> calls c (fun _ => True) (body x)) ->
  calls (c * length l) (fun _ => True) (forM_ body l).
Proof.
  induction l as [|x l IH]; intros Hb; simpl.
  - intros w. exists tt, []. rewrite app_nil_r, Nat.mul_0_r. done.
  - replace (c * S (length l)) with (c + c * length l) by lia.
    eapply calls_bind; [apply Hb, list_elem_of_here|].
    intros _ _. apply IH. intros y Hy. by apply Hb, list_elem_of_further.
Qed.

(** What [extract_json] hands to the decoder starts with an opening
    brace. *)
Lemma extract_json_decodes_object (text : pystr) :
  extract_json json_loads text = Ok None
  \/ exists s, starts_with (str "{") s = true
               /\ extract_json json_loads text = try_loads json_loads s.
Proof.
  rewrite extract_json_spec.
  destruct (find_nat (str "{") text) as [i|] eqn:E; [|by left].
  destruct (rfind_nat (str "}") text) as [j|]; [|by left].
  destruct (i <=? j)%nat eqn:Hij; [|by left]. apply Nat.leb_le in Hij.
  right. eexists. split; [|done].
  apply find_nat_Some_starts in E.
  destruct (drop i text) as [|c rest]; [done|].
  replace (S j - i)%nat with (S (j - i)) by lia.
  unfold str in *. cbn in *. by rewrite andb_true_r in *.
Qed.

(** One topic and one method: one chat call, and no exception, whatever
    the service answers. *)
Lemma generate_one_calls (output_dir : path) (t : topic) (m : method) :
  (forall s e, starts_with (str "{") s = true -> json_loads s = Raise e ->
               e = JSONDecodeError) ->
  (forall s v, starts_with (str "{") s = true -> json_loads s = Ok v ->
               has_len v = true) ->
  calls 1 (fun _ => True) (gen_one output_dir t m).
Proof.
  intros Hexn Hdec w. rewrite generate_one_run.
  destruct (generate_perspectives chat_api _ w).1 as [[text|]|];
    try (by exists tt; eexists; split; [done|]).
  destruct (extract_json_decodes_object text) as [->|(s & Hs & ->)];
    [by exists tt; eexists; split; [done|]|].
  unfold try_loads. destruct (json_loads s) as [v|e] eqn:E.
  - rewrite (Hdec s v Hs E), andb_false_r.
    exists tt. eexists. split; [done|]. by destruct (truthy v).
  - rewrite (Hexn s e Hs E). by exists tt; eexists; split; [done|].
Qed.


(** X13: [main] stops before any chat call: with a shot type that is not
    one of the choices the argument parser exits ([SystemExit]) and nothing
    has happened, not even the creation of the output directory; when the
    criteria-based prompt file of the first shot type cannot be read,
    [main] raises [OSError] with only the output directory created. *)
Theorem main_fails_before_calling (shot_type_arg output_dir_arg : pystr) (w : log) :
  (existsb (pystr_eqb shot_type_arg) shot_type_choices = false ->
   gen_main shot_type_arg output_dir_arg w = (Raise SystemExit, w))
  /\ (forall prefix criteria_file free_form_file,
        method_config (if pystr_eqb shot_type_arg (str "all")
                       then str "1-shot" else shot_type_arg)
        = Some (prefix, criteria_file, free_form_file) ->
        read_text (Path criteria_file) = None ->
        gen_main shot_type_arg output_dir_arg w
        = (Raise OSError, w ++ [EvMkdir (Path output_dir_arg)])).
Proof.
  split.
  - intros Hchoice. unfold main. by rewrite Hchoice.
  - intros prefix cf ff Hc Hread. unfold main.
    assert (existsb (pystr_eqb shot_type_arg) shot_type_choices = true) as ->.
    { cbn [shot_type_choices existsb].
      destruct (pystr_eqb shot_type_arg (str "all")); [by rewrite !orb_true_r|].
      unfold method_config in Hc.
      destruct (pystr_eqb shot_type_arg (str "1-shot")); [done|].
      by destruct (pystr_eqb shot_type_arg (str "5-shot")). }
    cbn [negb]. unfold bind at 1, emit at 1.
    destruct (pystr_eqb shot_type_arg (str "all")); cbn [forM_];
      unfold bind at 1, get_methods; rewrite Hc;
      unfold bind at 1, read_prompt_file; by rewrite Hread.
Qed.

(** X23: an exception of the decoder that is not a [JSONDecodeError] is
    not caught: when the first answer of the chat service holds a text for
    which [extract_json] raises, [main] stops with that exception after one
    chat call, without writing a file. *)
Theorem main_stops_at_decoder_exception
    (shot_type_arg output_dir_arg prefix criteria_file free_form_file : pystr)
    (criteria_based_examples free_form_examples text : pystr)
    (first : topic) (rest : list topic) (e : exn) (w : log) :
  TOPICS = first :: rest ->
  method_config (if pystr_eqb shot_type_arg (str "all")
                 then str "1-shot" else shot_type_arg)
  = Some (prefix, criteria_file, free_form_file) ->
  read_text (Path criteria_file) = Some criteria_based_examples ->
  read_text (Path free_form_file) = Some free_form_examples ->
  chat_api (chat_calls w) chat_model
           (build_criteria_based_prompt criteria_based_examples (question first))
  = ChatContent (Some text) ->
  extract_json json_loads text = Raise e ->
  gen_main shot_type_arg output_dir_arg w
  = (Raise e,
     w ++ [EvMkdir (Path output_dir_arg);
           EvRead (Path criteria_file); EvRead (Path free_form_file);
           EvChat chat_model
             (build_criteria_based_prompt criteria_based_examples
                                          (question first))]).
Proof.
  intros Htopics Hc Hr1 Hr2 Hchat Hextract. unfold main.
  assert (existsb (pystr_eqb shot_type_arg) shot_type_choices = true) as ->.
  { cbn [shot_type_choices existsb].
    destruct (pystr_eqb shot_type_arg (str "all")); [by rewrite !orb_true_r|].
    unfold method_config in Hc.
    destruct (pystr_eqb shot_type_arg (str "1-shot")); [done|].
    by destruct (pystr_eqb shot_type_arg (str "5-shot")). }
  cbn [negb].
  assert (forall (A B : Type) (m : M A) (k : A -> M B) w0 r w1,
            m w0 = (Raise r, w1) -> bind m k w0 = (Raise r, w1)) as bind_Raise.
  { intros A B m k w0 r w1 Hm. unfold bind. by rewrite Hm. }
  assert (forall (A B : Type) (m : M A) (k : A -> M B) w0 a w1,
            m w0 = (Ok a, w1) -> bind m k w0 = k a w1) as bind_Ok.
  { intros A B m k w0 a w1 Hm. unfold bind. by rewrite Hm. }
  rewrite (bind_Ok _ _ _ _ w tt (w ++ [EvMkdir (Path output_dir_arg)])) by done.
  set (shot_type := if pystr_eqb shot_type_arg (str "all")
                    then str "1-shot" else shot_type_arg) in *.
  set (w1 := w ++ [EvMkdir (Path output_dir_arg)]).
  set (w2 := w1 ++ [EvRead (Path criteria_file); EvRead (Path free_form_file)]).
  assert (get_methods read_text shot_type w1
          = (Ok (methods_of prefix criteria_based_examples free_form_examples), w2))
    as Hmethods.
  { unfold get_methods, read_prompt_file. rewrite Hc, Hr1, Hr2.
    unfold bind, emit, ret, w2. by rewrite <- app_assoc. }
  assert (chat_calls w2 = chat_calls w) as Hcalls.
  { unfold w2, w1. rewrite !chat_calls_app.
    change (chat_calls [EvMkdir (Path output_dir_arg)]) with 0.
    change (chat_calls [EvRead (Path criteria_file); EvRead (Path free_form_file)])
      with 0.
    lia. }
  assert (gen_one (Path output_dir_arg) first
            {| name := prefix ++ str "criteria-based";
               examples := criteria_based_examples;
               build_prompt := build_criteria_based_prompt |} w2
          = (Raise e,
             w2 ++ [EvChat chat_model
                      (build_criteria_based_prompt criteria_based_examples
                                                   (question first))])) as Hone.
  { rewrite generate_one_run, generate_perspectives_run.
    cbn [fst snd build_prompt examples]. by rewrite Hcalls, Hchat, Hextract. }
  assert (forall shot_types,
            forM_ (fun shot_type =>
                     methods <- get_methods read_text shot_type ;;
                     forM_ (fun t => forM_ (fun m => gen_one (Path output_dir_arg) t m)
                                           methods)
                           TOPICS)
                  (shot_type :: shot_types) w1
            = (Raise e,
               w ++ [EvMkdir (Path output_dir_arg);
                     EvRead (Path criteria_file); EvRead (Path free_form_file);
                     EvChat chat_model
                       (build_criteria_based_prompt criteria_based_examples
                                                    (question first))])) as H.
  { intros shot_types. cbn [forM_]. apply bind_Raise.
    rewrite (bind_Ok _ _ _ _ _ _ _ Hmethods). rewrite Htopics.
    cbn [forM_ methods_of]. apply bind_Raise. apply bind_Raise.
    rewrite Hone. unfold w2, w1. by rewrite <- !app_assoc. }
  unfold shot_type in H.
  destruct (pystr_eqb shot_type_arg (str "all")); apply H.
Qed.

End GenerateRuns.

Section GenerateRunExamples.

Import Generate Examples.

Lemma toy_decode_sized (s : pystr) (v : json) :
  starts_with (str "{") s = true -> toy_decode s = Ok v -> has_len v = true.
Proof.
  intros _. unfold toy_decode, toy_loads.
  repeat (destruct (pystr_eqb s _); [by intros [= <-]|]). done.
Qed.

Lemma toy_decode_raises (s : pystr) (e : exn) :
  starts_with (str "{") s = true -> toy_decode s = Raise e -> e = JSONDecodeError.
Proof.
  intros _. unfold toy_decode. destruct (toy_loads s); [done|]. by intros [= <-].
Qed.


Lemma main_fails_before_calling_witness :
  main failing_chat toy_decode toy_dumps no_files (str "2-shot") (str "outputs") []
  = (Raise SystemExit, [])
  /\ main failing_chat toy_decode toy_dumps no_files (str "1-shot") (str "outputs") []
     = (Raise OSError, [] ++ [EvMkdir (Path (str "outputs"))]).
Proof.
  split.
  - apply (proj1 (main_fails_before_calling failing_chat toy_decode toy_dumps
                    no_files (str "2-shot") (str "outputs") [])).
    reflexivity.
  - apply (proj2 (main_fails_before_calling failing_chat toy_decode toy_dumps
                    no_files (str "1-shot") (str "outputs") [])
             (str "1-shot-")
             (str "prompts/1-shot-criteria-based-prompting.txt")
             (str "prompts/1-shot-free-form-prompting.txt"));
      reflexivity.
Defined.

Lemma main_stops_at_decoder_exception_witness :
  main (toy_chat text_x) deep_decode toy_dumps any_prompt
       (str "1-shot") (str "outputs") []
  = (Raise RecursionError,
     [] ++ [EvMkdir (Path (str "outputs"));
            EvRead (Path (str "prompts/1-shot-criteria-based-prompting.txt"));
            EvRead (Path (str "prompts/1-shot-free-form-prompting.txt"));
            EvChat chat_model
              (build_criteria_based_prompt (str "Example.")
                 (str "How should we increase the general public's trust in US elections?"))]).
Proof.
  apply (main_stops_at_decoder_exception (toy_chat text_x) deep_decode toy_dumps
           any_prompt (str "1-shot") (str "outputs") (str "1-shot-")
           (str "prompts/1-shot-criteria-based-prompting.txt")
           (str "prompts/1-shot-free-form-prompting.txt")
           (str "Example.") (str "Example.") text_x
           _ _ RecursionError [] eq_refl);
    reflexivity.
Defined.

End GenerateRunExamples.

(* ------------------------------------------------------------------ *)
(** ** The formatting script: numbered keys, and what is written *)
(* ------------------------------------------------------------------ *)

Section NumberedKeys.

Import Format.

Lemma insert_by_key_filter {A} (z : Z) (kx : Z * A) (l : list (Z * A)) :
  List.filter (fun p => (p.1 =? z)%Z) (insert_by_key kx l)
  = List.filter (fun p => (p.1 =? z)%Z) (kx :: l).
Proof.
  induction l as [|ky l IH]; [done|]. cbn [insert_by_key].
  destruct (kx.1 <=? ky.1)%Z eqn:E; [done|]. apply Z.leb_gt in E.
  cbn [List.filter] in *. rewrite IH.
  destruct (kx.1 =? z)%Z eqn:Ex, (ky.1 =? z)%Z eqn:Ey; try done.
  apply Z.eqb_eq in Ex, Ey. lia.
Qed.

Lemma sort_by_key_filter {A} (z : Z) (l : list (Z * A)) :
  List.filter (fun p => (p.1 =? z)%Z) (sort_by_key l)
  = List.filter (fun p => (p.1 =? z)%Z) l.
Proof.
  induction l as [|kx l IH]; [done|]. cbn [sort_by_key fold_right].
  rewrite insert_by_key_filter. cbn [List.filter].
  fold (sort_by_key l). by rewrite IH.
Qed.

Lemma filter_map_snd (z : Z) (l : list (Z * pystr)) :
  Forall (fun p => int_of p.2 = p.1) l ->
  List.filter (fun k => (int_of k =? z)%Z) (map snd l)
  = map snd (List.filter (fun p => (p.1 =? z)%Z) l).
Proof.
  induction 1 as [|p l Hp _ IH]; [done|]. cbn [map List.filter].
  rewrite Hp, IH. by destruct (p.1 =? z)%Z.
Qed.

(** X14: the sort of the keys is stable: keys with the same integer
    value, such as [1] and [01], keep the order that they have in the
    file. *)
Theorem sorted_by_int_stable (keys sorted : list pystr) (z : Z) :
  sorted_by_int keys = Ok sorted ->
  List.filter (fun k => (int_of k =? z)%Z) sorted
  = List.filter (fun k => (int_of k =? z)%Z) keys.
Proof.
  unfold sorted_by_int.
  destruct (omapM py_int keys) as [ks|] eqn:E; [|done].
  intros [= <-]. apply omapM_Ok_Forall2 in E.
  assert (Forall (fun p => int_of p.2 = p.1) (zip ks keys)) as Hz.
  { clear -E. induction E as [|k z' keys ks Hk _ IH]; constructor; [|done].
    unfold int_of. cbn. by rewrite Hk. }
  rewrite filter_map_snd.
  2:{ apply Forall_forall. intros p Hp. rewrite Forall_forall in Hz.
      apply Hz. by rewrite <- sort_by_key_Permutation. }
  rewrite sort_by_key_filter, <- filter_map_snd by done.
  change (map snd ?l) with (l.*2). rewrite snd_zip; [done|].
  apply Forall2_length in E. lia.
Qed.

Lemma sorted_by_int_stable_witness :
  List.filter (fun k => (int_of k =? 1)%Z) [str "1"; str "01"; str "2"]
  = List.filter (fun k => (int_of k =? 1)%Z) [str "2"; str "1"; str "01"].
Proof.
  apply (sorted_by_int_stable [str "2"; str "1"; str "01"]
           [str "1"; str "01"; str "2"] 1).
  reflexivity.
Defined.

Lemma digit_of_char (k : nat) :
  (k < 10)%nat -> digit_of (ascii_of_nat (48 + k)) = Some (Z.of_nat k).
Proof.
  intros Hk. do 10 (destruct k as [|k]; [reflexivity|]). lia.
Qed.

(** Reading the digits of a decimal number gives its value. *)
Lemma digits_value_uint (d : Decimal.uint) (acc : nat) (b : bool) :
  d <> Decimal.Nil \/ b = true ->
  digits_value (Z.of_nat acc) b (str (NilEmpty.string_of_uint d))
  = Some (Z.of_nat (Nat.of_uint_acc d acc)).
Proof.
  revert acc b; induction d as [|d IH|d IH|d IH|d IH|d IH|d IH|d IH|d IH|d IH|d IH];
    intros acc b Hb;
    [ destruct Hb as [?| ->]; done | .. ];
    unfold str in *; cbn [NilEmpty.string_of_uint list_ascii_of_string digits_value];
    cbn [Nat.of_uint_acc]; rewrite Nat.tail_mul_spec.
  all: match goal with
       | |- context [digit_of ?c] =>
           let v := eval vm_compute in (digit_of c) in
           change (digit_of c) with v
       end; cbn iota.
  all: match goal with
       | |- digits_value ?z true _ = Some (Z.of_nat (Nat.of_uint_acc _ ?n)) =>
           replace z with (Z.of_nat n) by lia
       end.
  all: apply IH; by right.
Qed.

Lemma string_of_uint_digits (d : Decimal.uint) :
  forallb is_digit (str (NilEmpty.string_of_uint d)) = true.
Proof.
  unfold str.
  induction d; cbn [NilEmpty.string_of_uint list_ascii_of_string forallb];
    [done|rewrite IHd; reflexivity..].
Qed.

(** [int(str(n))] is [n], within the limit on the digits. *)
Lemma py_int_str_of_nat (n : nat) :
  (length (str_of_nat n) <= int_max_str_digits)%nat ->
  py_int (str_of_nat n) = Ok (Z.of_nat n).
Proof.
  intros Hlen%Nat.leb_le.
  assert (Nat.to_uint n <> Decimal.Nil) as Hnil.
  { rewrite <- (Unsigned.of_to n) at 1. rewrite Unsigned.to_of.
    apply DecimalFacts.unorm_nonnil. }
  pose proof (digits_value_uint (Nat.to_uint n) 0 false (or_introl Hnil)) as Hv.
  change (Nat.of_uint_acc (Nat.to_uint n) 0) with (Nat.of_uint (Nat.to_uint n)) in Hv.
  rewrite Unsigned.of_to in Hv. change (Z.of_nat 0) with 0%Z in Hv.
  pose proof (string_of_uint_digits (Nat.to_uint n)) as Hd.
  fold (str_of_nat n) in Hv, Hd.
  unfold py_int. rewrite (strip_digits _ Hd), (filter_digits _ Hd), Hlen.
  destruct (str_of_nat n) as [|c s]; [done|].
  assert (is_digit c = true) as Hc by (cbn in Hd; by apply andb_prop in Hd as [? _]).
  destruct (Ascii.eqb c "+") eqn:E1.
  { apply Ascii.eqb_eq in E1. by subst c. }
  destruct (Ascii.eqb c "-") eqn:E2.
  { apply Ascii.eqb_eq in E2. by subst c. }
  by rewrite Hv.
Qed.

Lemma seq_StronglySorted (start len : nat) :
  StronglySorted le (seq start len).
Proof.
  revert start; induction len as [|len IH]; intros start; cbn; constructor.
  - apply IH.
  - apply Forall_forall. intros x Hx%elem_of_seq. lia.
Qed.

(** X15: perspectives numbered [1] to [n], with numerals that are within
    the limit on the digits that [int] converts, are rendered in the order
    [1, 2, ..., n] (and not in the order of the strings, where [10] comes
    before [2]), in whatever order the file has them. *)
Theorem sorted_by_int_numbered (n : nat) (keys : list pystr) :
  Permutation keys (map str_of_nat (seq 1 n)) ->
  Forall (fun k => (length k <= int_max_str_digits)%nat) keys ->
  sorted_by_int keys = Ok (map str_of_nat (seq 1 n)).
Proof.
  intros Hperm Hlen.
  assert (forall i, str_of_nat i ∈ map str_of_nat (seq 1 n) ->
                    py_int (str_of_nat i) = Ok (Z.of_nat i)) as Hint.
  { intros i Hi. apply py_int_str_of_nat.
    rewrite <- Hperm in Hi. rewrite Forall_forall in Hlen. by apply Hlen. }
  assert (forall k, k ∈ keys -> exists i, k = str_of_nat i) as Hkeys.
  { intros k Hk. rewrite Hperm in Hk.
    apply list_elem_of_fmap in Hk as (i & -> & _). by exists i. }
  destruct (sorted_by_int_spec keys) as (sorted & -> & Hp & Hs).
  { apply Forall_forall. intros k Hk. destruct (Hkeys k Hk) as (i & ->).
    exists (Z.of_nat i). apply Hint. by rewrite <- Hperm. }
  f_equal.
  apply (sorting.StronglySorted_unique_strong
           (fun a b => (int_of a <= int_of b)%Z)); [|done| |by rewrite Hp].
  - intros x1 x2 Hx1 Hx2 H12 H21.
    rewrite Hp in Hx1. destruct (Hkeys _ Hx1) as [i1 ->].
    rewrite Hperm in Hx1.
    pose proof Hx2 as Hx2'.
    apply list_elem_of_fmap in Hx2 as (i2 & -> & _).
    unfold int_of in *. rewrite (Hint i1 Hx1), (Hint i2 Hx2') in *.
    f_equal. lia.
  - eapply StronglySorted_map; [|apply seq_StronglySorted].
    intros i j Hi Hj Hij. unfold int_of.
    rewrite (Hint i), (Hint j); [lia|by apply list_elem_of_fmap_2..].
Qed.

Lemma sorted_by_int_numbered_witness :
  sorted_by_int [str "2"; str "1"; str "3"] = Ok (map str_of_nat (seq 1 3)).
Proof.
  apply (sorted_by_int_numbered 3).
  - change (map str_of_nat (seq 1 3)) with [str "1"; str "2"; str "3"].
    apply perm_swap.
  - repeat constructor; apply Nat.leb_le; reflexivity.
Defined.

End NumberedKeys.

Section DisplayWrites.

Import Format Logs.

Variable json_loads : pystr -> option json.
Variable read_text : path -> option pystr.
Variable path_exists : path -> bool.
Variable py_str : json -> pystr.

Abbreviation display := (display_results json_loads read_text path_exists py_str).

(** Reads of existing files of the directory. *)
Abbreviation reads_in output_dir :=
  (Forall (fun e => exists name,
               e = EvRead (Child (Path output_dir) name)
               /\ path_exists (Child (Path output_dir) name) = true)).

Lemma display_loop_reads (output_dir shot_filter : pystr)
    (groups : list (pystr * list pystr)) (lines : list pystr) :
  emits (reads_in output_dir) (fun _ => True)
        (foldM (topic_lines json_loads read_text path_exists py_str
                  (Path output_dir) shot_filter groups) lines TOPIC_INFO).
Proof.
  assert (reads_in output_dir []) as Qnil by constructor.
  assert (forall l1 l2, reads_in output_dir l1 -> reads_in output_dir l2 ->
                        reads_in output_dir (l1 ++ l2)) as Qapp.
  { intros l1 l2 H1 H2. apply Forall_app. by split. }
  apply (emits_foldM _ Qnil Qapp (fun _ => True)); [done|].
  intros lines1 [topic_id question] _ _. unfold topic_lines.
  apply (emits_foldM _ Qnil Qapp (fun _ => True)); [done|].
  intros lines2 [shot_label methods] _ _. unfold group_lines.
  apply (emits_foldM _ Qnil Qapp (fun _ => True)); [done|].
  intros lines3 method _ _. unfold method_lines.
  destruct (path_exists _) eqn:E; cbn [negb]; [|by apply emits_ret].
  destruct (read_text _); [|by apply emits_raise].
  eapply emits_bind; [done| |].
  - apply emits_emit. constructor; [|done]. by eexists.
  - intros _ _. destruct (json_loads _); [|by apply emits_raise].
    eapply emits_bind; [done|by apply (emits_lift _ Qnil (fun _ => True))|].
    intros rendered _. by apply emits_ret.
Qed.

Lemma display_results_run
    (output_dir shot_filter : pystr) (save_file : option pystr) (w : log) :
  exists r reads content,
    reads_in output_dir reads
    /\ display output_dir shot_filter save_file w
       = (r, w ++ reads
               ++ match r, save_file with
                  | Ok _, Some file =>
                      if path_exists (Path output_dir) && nonempty file
                      then [EvMkdir (Parent (Path file));
                            EvWrite (Path file) content]
                      else []
                  | _, _ => []
                  end).
Proof.
  unfold display_results.
  destruct (path_exists (Path output_dir)) eqn:Hdir; cbn [negb andb].
  2:{ exists (Ok tt), [], []. split; [constructor|]. unfold ret. cbn.
      destruct save_file; by rewrite app_nil_r. }
  destruct (get_method_groups shot_filter) as [groups|e].
  2:{ exists (Raise e), [], []. split; [constructor|]. cbn. by rewrite app_nil_r. }
  rewrite bind_lift_Ok. unfold bind at 1.
  destruct (display_loop_reads output_dir shot_filter groups
              [rule "="; (if pystr_eqb shot_filter (str "all")
                 then str "GENERATED DIVERSE PERSPECTIVES - COMPARISON OF 5-SHOT vs 1-SHOT"
                 else str "GENERATED DIVERSE PERSPECTIVES - " ++ upper shot_filter
                      ++ str " EXAMPLES"); rule "="] w)
    as (reads & Hw & Hreads & _).
  destruct (foldM _ _ TOPIC_INFO w) as [[lines|e] w1]; cbn [snd] in Hw; subst w1.
  - destruct save_file as [file|].
    + destruct (nonempty file) eqn:Hne.
      * eexists (Ok tt), reads, _. split; [done|]. unfold bind, emit.
        by rewrite <- !app_assoc.
      * exists (Ok tt), reads, []. split; [done|]. unfold ret.
        by rewrite app_nil_r.
    + exists (Ok tt), reads, []. split; [done|]. unfold ret. by rewrite app_nil_r.
  - exists (Raise e), reads, []. split; [done|]. by rewrite app_nil_r.
Qed.



(** X20: every file that [display_results] reads has a name that the
    generator gives to the output of one of its methods on one of its
    topics. *)
Theorem display_results_reads_generator_files
    (output_dir shot_filter : pystr) (save_file : option pystr) (w : log) :
  exists evs,
    (display output_dir shot_filter save_file w).2 = w ++ evs
    /\ Forall (fun e => forall p,
                 e = EvRead p ->
                 exists m t,
                   m ∈ Generate.method_names /\ t ∈ Generate.topic_ids
                   /\ p = Child (Path output_dir) (Generate.output_name m t))
              evs.
Proof.
  set (Q := Forall (fun e => forall p,
                 e = EvRead p ->
                 exists m t,
                   m ∈ Generate.method_names /\ t ∈ Generate.topic_ids
                   /\ p = Child (Path output_dir) (Generate.output_name m t))).
  assert (Q []) as Qnil by constructor.
  assert (forall l1 l2, Q l1 -> Q l2 -> Q (l1 ++ l2)) as Qapp.
  { intros l1 l2 H1 H2. apply Forall_app. by split. }
  enough (emits Q (fun _ => True) (display output_dir shot_filter save_file)) as H.
  { destruct (H w) as (evs & Hw & HQ & _). by exists evs. }
  unfold display_results.
  destruct (path_exists (Path output_dir)); cbn [negb]; [|by apply emits_ret].
  eapply emits_bind with (P := fun groups => get_method_groups shot_filter = Ok groups);
    [done|by apply (emits_lift _ Qnil)|].
  intros groups Hgroups.
  eapply emits_bind with (P := fun _ => True); [done| |].
  - apply (emits_foldM _ Qnil Qapp (fun _ => True)); [done|].
    intros lines1 [topic_id question] _ Htopic. unfold topic_lines.
    assert (topic_id ∈ Generate.topic_ids) as Ht.
    { change Generate.topic_ids with (map fst TOPIC_INFO).
      by apply (list_elem_of_fmap_2 fst) in Htopic. }
    apply (emits_foldM _ Qnil Qapp (fun _ => True)); [done|].
    intros lines2 [shot_label methods] _ Hgroup. unfold group_lines.
    apply (emits_foldM _ Qnil Qapp (fun _ => True)); [done|].
    intros lines3 method _ Hmethod. unfold method_lines.
    pose proof (get_method_groups_names _ _ Hgroups _ _ Hgroup Hmethod) as Hm.
    destruct (path_exists _); cbn [negb]; [|by apply emits_ret].
    destruct (read_text _); [|by apply emits_raise].
    eapply emits_bind with (P := fun _ => True); [done| |].
    + apply emits_emit. constructor; [|done]. intros p [= <-].
      by exists method, topic_id.
    + intros _ _. destruct (json_loads _); [|by apply emits_raise].
      eapply emits_bind with (P := fun _ => True);
        [done|by apply (emits_lift _ Qnil (fun _ => True))|].
      intros rendered _. by apply emits_ret.
  - intros lines _. destruct save_file as [file|]; [|by apply emits_ret].
    destruct (nonempty file); [|by apply emits_ret].
    eapply emits_bind with (P := fun _ => True); [done| |].
    + apply emits_emit. constructor; [|done]. by intros p [=].
    + intros _ _. apply emits_emit. constructor; [|done]. by intros p [=].
Qed.

End DisplayWrites.

Section DisplayWritesExamples.

Import Format Examples.


End DisplayWritesExamples.

(* ------------------------------------------------------------------ *)
(** ** The scoring loop, read backwards; and what it sends and reads *)
(* ------------------------------------------------------------------ *)

Section ScoringBackwards.

Import Evaluate Metric Logs.

Variable embed_api : pystr -> pystr -> list R.
Variable json_loads : pystr -> option json.
Variable read_text : path -> option pystr.

Abbreviation score := (score_file embed_api json_loads read_text).
Abbreviation entry := (eligible_entry json_loads read_text).
Abbreviation value := (diversity_value embed_api).
Abbreviation run_scores := (main_scores embed_api json_loads read_text).

(** Where the entries of the two maps after the loop come from. *)
Lemma foldM_score_files_sources (files : list pystr) :
  Forall (fun f => pystr_eqb f (str "formatted_results.txt") = false) files ->
  forall (st st' : scores * topic_scores) (w w' : log),
    foldM score st files w = (Ok st', w') ->
    (forall f v, st'.1 !! f = Some v ->
       st.1 !! f = Some v
       \/ (f ∈ files
           /\ exists t a rs, entry f = Some (t, a, rs) /\ value rs = Ok v))
    /\ (forall t a v, topic_score st'.2 t a = Some v ->
          topic_score st.2 t a = Some v
          \/ exists g rs, g ∈ files /\ entry g = Some (t, a, rs)
                          /\ value rs = Ok v)
    /\ (forall t a,
          is_Some (topic_score st.2 t a)
          \/ (exists g rs, g ∈ files /\ entry g = Some (t, a, rs)) ->
          is_Some (topic_score st'.2 t a)).
Proof.
  induction 1 as [|x files Hx Hfiles IH]; intros st st' w w'; simpl.
  { intros [= <- <-]. split; [|split].
    - intros f v Hf. by left.
    - intros t a v Hv. by left.
    - intros t a [H|(g & rs & Hg & _)]; [done|]. by apply elem_of_nil in Hg. }
  unfold bind at 1. destruct (score st x w) as [[st1|e] w1] eqn:Hstep; [|done].
  intros Hrest. apply score_file_step in Hstep; [|done].
  destruct (IH st1 st' w1 w' Hrest) as (IH1 & IH2 & IH3).
  split; [|split].
  - intros f v Hf. destruct (IH1 f v Hf) as [H1|(Hin & t & a & rs & He & Hv)].
    2:{ right. split; [by apply list_elem_of_further|]. by exists t, a, rs. }
    destruct (entry x) as [[[t a] rs]|] eqn:Hentry; [|subst st1; by left].
    destruct Hstep as (v' & Hv' & ->). cbn [fst] in H1.
    destruct (decide (f = x)) as [->|Hne].
    + rewrite lookup_insert_eq in H1. injection H1 as ->.
      right. split; [apply list_elem_of_here|]. by exists t, a, rs.
    + rewrite lookup_insert_ne in H1 by done. by left.
  - intros t a v Hv. destruct (IH2 t a v Hv) as [H1|(g & rs & Hg & He & Hval)].
    2:{ right. exists g, rs. split; [by apply list_elem_of_further|done]. }
    destruct (entry x) as [[[t' a'] rs]|] eqn:Hentry; [|subst st1; by left].
    destruct Hstep as (v' & Hv' & ->). cbn [snd] in H1.
    rewrite topic_score_insert in H1.
    destruct (decide (t = t' /\ a = a')) as [[-> ->]|Hne]; [|by left].
    injection H1 as ->. right. exists x, rs.
    split; [apply list_elem_of_here|done].
  - intros t a Hsrc. apply IH3.
    destruct Hsrc as [Hst|(g & rs & Hg & He)].
    + left. destruct (entry x) as [[[t' a'] rs]|] eqn:Hentry; [|by subst st1].
      destruct Hstep as (v' & Hv' & ->). cbn [snd].
      rewrite topic_score_insert. by destruct (decide _).
    + apply elem_of_cons in Hg as [->|Hg]; [|right; by exists g, rs].
      left. rewrite He in Hstep. destruct Hstep as (v' & Hv' & ->). cbn [snd].
      rewrite topic_score_insert. by rewrite decide_True.
Qed.

(** X17: after the scoring loop of [main], every entry of [all_scores]
    is the score of an eligible JSON file of the directory, whose topic and
    approach are in [results_by_topic]; and every entry of
    [results_by_topic] is the score that [all_scores] holds for some
    eligible JSON file of that topic and approach. *)
Theorem main_scores_entries_from_files
    (listing : list pystr) (w w' : log)
    (all_scores : scores) (results_by_topic : topic_scores) :
  run_scores listing w = (Ok (all_scores, results_by_topic), w') ->
  (forall f v,
     all_scores !! f = Some v ->
     f ∈ glob_json listing
     /\ exists t a rs, entry f = Some (t, a, rs) /\ value rs = Ok v
                       /\ is_Some (topic_score results_by_topic t a))
  /\ (forall t a v,
        topic_score results_by_topic t a = Some v ->
        exists g rs, g ∈ glob_json listing /\ entry g = Some (t, a, rs)
                     /\ value rs = Ok v /\ all_scores !! g = Some v).
Proof.
  intros Hrun. unfold main_scores in Hrun.
  assert (Forall (fun f => pystr_eqb f (str "formatted_results.txt") = false)
            (glob_json listing)) as Hnames.
  { apply Forall_forall. intros g [_ Hg]%glob_json_elem.
    by apply json_name_not_report. }
  destruct (foldM_score_files_sources (glob_json listing) Hnames
              ((∅, ∅) : scores * topic_scores) (all_scores, results_by_topic)
              w w' Hrun) as (H1 & H2 & H3).
  destruct (foldM_score_files embed_api json_loads read_text
              (glob_json listing) Hnames
              ((∅, ∅) : scores * topic_scores) (all_scores, results_by_topic)
              w w' Hrun) as (G1 & _).
  cbn [fst snd] in *. split.
  - intros f v Hf. destruct (H1 f v Hf) as [Hempty|(Hin & t & a & rs & He & Hv)].
    { by rewrite lookup_empty in Hempty. }
    split; [done|]. exists t, a, rs. split; [done|]. split; [done|].
    apply H3. right. by exists f, rs.
  - intros t a v Hv. destruct (H2 t a v Hv) as [Hempty|(g & rs & Hg & He & Hval)].
    { unfold topic_score in Hempty. by rewrite lookup_empty in Hempty. }
    exists g, rs. split; [done|]. split; [done|]. split; [done|].
    destruct (G1 g t a rs Hg He) as (v' & Hv' & Hall).
    rewrite Hval in Hv'. by injection Hv' as <-.
Qed.

(** X18: whether it returns or raises, the scoring loop of [main] only
    reads JSON files of the outputs directory and calls the embedding
    service with the default model: it writes nothing and calls no chat
    service. *)
Theorem main_scores_reads_and_embeds (listing : list pystr) (w : log) :
  exists evs,
    (run_scores listing w).2 = w ++ evs
    /\ Forall (fun e =>
                 (exists f, f ∈ listing /\ ends_with (str ".json") f = true
                            /\ e = EvRead (Child outputs_dir f))
                 \/ (exists s, e = EvEmbed default_model s))
              evs.
Proof.
  set (Q := Forall (fun e =>
                 (exists f, f ∈ listing /\ ends_with (str ".json") f = true
                            /\ e = EvRead (Child outputs_dir f))
                 \/ (exists s, e = EvEmbed default_model s))).
  assert (Q []) as Qnil by constructor.
  assert (forall l1 l2, Q l1 -> Q l2 -> Q (l1 ++ l2)) as Qapp.
  { intros l1 l2 H1 H2. apply Forall_app. by split. }
  assert (forall rs, emits Q (fun _ => True) (mapM (get_embedding embed_api) rs))
    as Hembed.
  { induction rs as [|r rs IH]; simpl; [by apply emits_ret|].
    eapply emits_bind with (P := fun _ => True); [done| |].
    - destruct r; try by apply emits_raise.
      unfold get_embedding. eapply emits_bind with (P := fun _ => True); [done| |].
      + apply emits_emit. constructor; [|done]. right. by eexists.
      + intros _ _. by apply emits_ret.
    - intros y _. eapply emits_bind with (P := fun _ => True); [done|exact IH|].
      intros ys _. by apply emits_ret. }
  enough (emits Q (fun _ => True) (run_scores listing)) as H.
  { destruct (H w) as (evs & Hw & HQ & _). by exists evs. }
  unfold main_scores. apply (emits_foldM _ Qnil Qapp (fun _ => True)); [done|].
  intros st f _ [Hf Hjson]%glob_json_elem. unfold score_file.
  destruct (pystr_eqb f _); [by apply emits_ret|].
  destruct (parse_filename f) as [[t|] [a|]]; cbn [truthy_str negb orb];
    try (by apply emits_ret); try (destruct (nonempty _); by apply emits_ret).
  destruct (negb (nonempty t) || negb (nonempty a)); [by apply emits_ret|].
  eapply emits_bind with (P := fun _ => True); [done| |].
  { unfold load_json_file. destruct (read_text _); [|by apply emits_raise].
    eapply emits_bind; [done| |].
    - apply emits_emit. constructor; [|done]. left. by exists f.
    - intros _ _. destruct (json_loads _); [by apply emits_ret|by apply emits_raise]. }
  intros data _. eapply emits_bind with (P := fun _ => True);
    [done|by apply (emits_lift _ Qnil (fun _ => True))|].
  intros rs _. destruct (length rs <? 2)%nat; [by apply emits_ret|].
  eapply emits_bind with (P := fun _ => True); [done| |].
  { unfold calculate_semantic_diversity.
    destruct (length rs <? 2)%nat; [by apply emits_ret|].
    eapply emits_bind with (P := fun _ => True); [done|apply Hembed|].
    intros embs _. eapply emits_bind with (P := fun _ => True);
      [done|by apply (emits_lift _ Qnil (fun _ => True))|].
    intros ds _. by apply emits_ret. }
  intros v _. destruct st as [all_scores results_by_topic]. by apply emits_ret.
Qed.

End ScoringBackwards.

Section ScoringBackwardsExamples.

Import Evaluate Metric Examples.
#[local] Open Scope R_scope.

Lemma toy_scoring_run :
  exists w1,
    main_scores toy_embed toy_loads toy_outputs
      [str "a_b.json"; str "notes.txt"] []
    = (Ok (<[str "a_b.json" := 1]> (∅ : scores),
           <[str "b" := <[str "a" := 1]>
                           (default ∅ ((∅ : topic_scores) !! str "b"))]>
             (∅ : topic_scores)), w1).
Proof.
  destruct (score_file_eligible toy_embed toy_loads toy_outputs (∅, ∅)
              (str "a_b.json") (str "b") (str "a")
              [JStr (str "x"); JStr (str "y")] 1 [] eq_refl)
    as [w1 Hw1]; [by vm_compute|apply toy_value_xy|].
  exists w1.
  change (main_scores toy_embed toy_loads toy_outputs
            [str "a_b.json"; str "notes.txt"] [])
    with (foldM (score_file toy_embed toy_loads toy_outputs) (∅, ∅)
            [str "a_b.json"] []).
  cbn [foldM]. unfold bind at 1. by rewrite Hw1.
Qed.

Lemma main_scores_entries_from_files_witness :
  str "a_b.json" ∈ glob_json [str "a_b.json"; str "notes.txt"]
  /\ exists t a rs,
       eligible_entry toy_loads toy_outputs (str "a_b.json") = Some (t, a, rs)
       /\ diversity_value toy_embed rs = Ok 1.
Proof.
  destruct toy_scoring_run as [w1 Hrun].
  destruct (main_scores_entries_from_files toy_embed toy_loads toy_outputs
              [str "a_b.json"; str "notes.txt"] [] w1 _ _ Hrun) as [Hfiles _].
  destruct (Hfiles (str "a_b.json") 1 (lookup_insert_eq _ _ _))
    as (Hin & t & a & rs & He & Hv & _).
  split; [done|]. by exists t, a, rs.
Defined.

End ScoringBackwardsExamples.

(* ------------------------------------------------------------------ *)
(** ** From a file of the generator to its score *)
(* ------------------------------------------------------------------ *)

Section ReasonsOfFiles.

Import Evaluate Metric.

Variable embed_api : pystr -> pystr -> list R.
Variable json_loads : pystr -> option json.
Variable read_text : path -> option pystr.

(** The reasons of one entry of the dict: one or none. *)
Abbreviation entry_reasons :=
  (fun kv : pystr * json =>
     match kv.2 with
     | JObj value =>
         match dict_get (str "Reason") value with
         | Some r => [r]
         | None => []
         end
     | _ => []
     end).

(** An entry from which a reason is taken. *)
Abbreviation has_reason :=
  (fun kv : pystr * json =>
     exists p, kv.2 = JObj p /\ dict_has (str "Reason") p = true).

Lemma entry_reasons_length (kv : pystr * json) :
  (length (entry_reasons kv) <= 1)%nat
  /\ (length (entry_reasons kv) = 1%nat <-> has_reason kv).
Proof.
  destruct kv as [k v]. cbn [snd]. unfold dict_has.
  destruct v as [| | | | | |p]; cbn [length];
    try (split; [lia|]; split; [lia|]; by intros (p & [=] & _)).
  destruct (dict_get (str "Reason") p) eqn:E; cbn [length].
  - split; [lia|]. split; [|done]. intros _. exists p. by rewrite E.
  - split; [lia|]. split; [lia|]. intros (p' & [= <-] & H). by rewrite E in H.
Qed.

Lemma flat_map_entry_reasons_length (d : dict) :
  (length (flat_map entry_reasons d) <= length d)%nat
  /\ (length (flat_map entry_reasons d) = length d <-> Forall has_reason d).
Proof.
  induction d as [|kv d [IHle IHeq]]; [by split|].
  cbn [flat_map]. rewrite length_app. cbn [length].
  destruct (entry_reasons_length kv) as [Hle Heq].
  split; [lia|]. rewrite Forall_cons, <- IHeq, <- Heq. lia.
Qed.

(** X21: on a dict [extract_reasons] never raises; it takes at most one
    reason from each entry, in the order of the entries, and one from every
    entry exactly when every value is a dict with a ['Reason']; the keys
    play no part. *)
Theorem extract_reasons_one_per_entry (d : dict) :
  exists rs,
    extract_reasons (JObj d) = Ok rs
    /\ rs = flat_map entry_reasons d
    /\ (length rs <= length d)%nat
    /\ (length rs = length d <-> Forall has_reason d).
Proof.
  exists (flat_map entry_reasons d). split; [done|]. split; [done|].
  apply flat_map_entry_reasons_length.
Qed.

(** X22: a file that carries a name of the generator and holds a dict of
    at least two numbered reasons is scored by the loop of [main]: its name
    is read as its topic and its method, each entry gives one reason, and
    the outcome of the iteration is that of [calculate_semantic_diversity]
    on these reasons, recorded in both maps. *)
Theorem score_file_generated
    (m t content : pystr) (d : dict) (st : scores * topic_scores) (w : log) :
  m ∈ Generate.method_names -> t ∈ Generate.topic_ids ->
  read_text (Child outputs_dir (Generate.output_name m t)) = Some content ->
  json_loads content = Some (JObj d) ->
  Format.numbered_reasons d ->
  (2 <= length d)%nat ->
  exists rs,
    extract_reasons (JObj d) = Ok rs
    /\ length rs = length d
    /\ (score_file embed_api json_loads read_text st
          (Generate.output_name m t) w).1
       = (v <~ diversity_value embed_api rs ;;
          Ok (<[Generate.output_name m t := v]> st.1,
              <[t := <[m := v]> (default ∅ (st.2 !! t))]> st.2)).
Proof.
  intros Hm Ht Hread Hload Hd Hlen.
  set (rs := flat_map entry_reasons d).
  assert (extract_reasons (JObj d) = Ok rs) as Hrs by done.
  assert (length rs = length d) as Hlen_rs.
  { apply flat_map_entry_reasons_length.
    eapply Forall_impl; [exact Hd|]. by intros kv [_ H]. }
  exists rs. split; [done|]. split; [done|].
  destruct (generator_names_clean m t Hm Ht) as (Hu & Hj & Hk).
  assert (nonempty t = true /\ nonempty m = true) as [Hnt Hnm].
  { revert Hm Ht. rewrite method_names_eq, topic_ids_eq, !elem_of_cons, !elem_of_nil.
    intros Hm Ht.
    destruct Hm as [->|[->|[->|[->|[]]]]]; destruct Ht as [->|[->|[->|[]]]]; done. }
  unfold score_file.
  rewrite json_name_not_report.
  2:{ unfold Generate.output_name, ends_with.
      rewrite !app_assoc, rev_app_distr. apply starts_with_self_app. }
  rewrite (parse_output_name m t Hu Hj Hk). cbn [truthy_str].
  rewrite Hnt, Hnm. cbn [negb orb].
  unfold bind at 1, load_json_file. rewrite Hread.
  unfold bind at 1, emit at 1. rewrite Hload.
  unfold ret at 1, bind at 1, lift at 1. rewrite Hrs.
  replace (length rs <? 2)%nat with false
    by (symmetry; apply Nat.ltb_ge; lia).
  unfold bind at 1.
  destruct (calculate_semantic_diversity_value embed_api rs
              (w ++ [EvRead (Child outputs_dir (Generate.output_name m t))]))
    as [w1 ->].
  destruct (diversity_value embed_api rs) as [v|e]; [|done].
  destruct st as [all_scores results_by_topic]. unfold ret. cbn [fst snd obind].
  f_equal. f_equal.
  destruct (results_by_topic !! t) as [by_approach|] eqn:E; [by rewrite E|].
  rewrite lookup_insert_eq. cbn [default]. by rewrite insert_insert_eq.
Qed.

End ReasonsOfFiles.

Section ReasonsOfFilesExamples.

Import Evaluate Metric Examples.

Lemma score_file_generated_witness :
  exists rs,
    extract_reasons (JObj [reason "1" "x"; reason "2" "y"]) = Ok rs
    /\ length rs = length [reason "1" "x"; reason "2" "y"]
    /\ (score_file toy_embed toy_loads toy_generated (∅, ∅)
          (Generate.output_name (str "free-form") (str "elections")) []).1
       = (v <~ diversity_value toy_embed rs ;;
          Ok (<[Generate.output_name (str "free-form") (str "elections") := v]>
                (∅ : scores),
              <[str "elections" := <[str "free-form" := v]>
                   (default ∅ ((∅ : topic_scores) !! str "elections"))]>
                (∅ : topic_scores))).
Proof.
  apply (score_file_generated toy_embed toy_loads toy_generated
           (str "free-form") (str "elections") text_xy
           [reason "1" "x"; reason "2" "y"] (∅, ∅) []).
  - rewrite method_names_eq. do 3 apply list_elem_of_further. apply list_elem_of_here.
  - rewrite topic_ids_eq. apply list_elem_of_here.
  - by vm_compute.
  - by vm_compute.
  - repeat constructor; by eexists.
  - simpl. lia.
Defined.

End ReasonsOfFilesExamples.

(* ------------------------------------------------------------------ *)
(** ** The diversity score in [float64]: the same distances in another order *)
(* ------------------------------------------------------------------ *)

Section Float64Distances.

Import Metric.

(** Multiplication of [float64] numbers is commutative. *)
Lemma float_mul_comm (x y : PrimFloat.float) :
  PrimFloat.mul x y = PrimFloat.mul y x.
Proof.
  apply FloatAxioms.Prim2SF_inj. rewrite !FloatAxioms.mul_spec.
  unfold FloatAxioms.SF64mul.
  destruct (FloatOps.Prim2SF x) as [sx|sx| |sx mx ex],
           (FloatOps.Prim2SF y) as [sy|sy| |sy my ey];
    cbn [SpecFloat.SFmul]; try reflexivity;
    rewrite ?(xorb_comm sx sy); try reflexivity.
  by rewrite (Pos.mul_comm mx my), (Z.add_comm ex ey).
Qed.

Lemma zip_with_mul_comm (v1 v2 : list PrimFloat.float) :
  zip_with PrimFloat.mul v1 v2 = zip_with PrimFloat.mul v2 v1.
Proof.
  revert v2; induction v1 as [|x v1 IH]; intros [|y v2]; [done..|].
  cbn [zip_with]. by rewrite IH, float_mul_comm.
Qed.

Lemma float_cosine_distance_comm (v1 v2 : list PrimFloat.float) :
  Float64.cosine_distance v1 v2 = Float64.cosine_distance v2 v1.
Proof.
  unfold Float64.cosine_distance, Float64.np_dot.
  rewrite (Nat.eqb_sym (length v2)), (zip_with_mul_comm v2 v1).
  by rewrite (float_mul_comm (Float64.np_linalg_norm v2)).
Qed.

(** The values of a symmetric function on the pairs of a list are, up to
    their order, those on the pairs of a reordered list. *)
Lemma map_value_pairs_Permutation {A B} (g : A -> A -> B) (l l' : list A) :
  (forall x y, g x y = g y x) ->
  Permutation l l' ->
  Permutation (map (fun xy => g xy.1 xy.2) (value_pairs l))
              (map (fun xy => g xy.1 xy.2) (value_pairs l')).
Proof.
  intros Hsym. induction 1 as [|x l l' Hp IH|x y l|l1 l2 l3 _ IH1 _ IH2].
  - done.
  - cbn [value_pairs]. rewrite !map_app, !map_map. cbn [fst snd].
    apply Permutation_app; [by apply Permutation_map|done].
  - cbn [value_pairs map app]. rewrite !map_app, !map_map. cbn [fst snd].
    rewrite (Hsym y x). apply perm_skip.
    rewrite !app_assoc. apply Permutation_app; [|done].
    apply Permutation_app_comm.
  - by rewrite IH1.
Qed.

Variable embed_api : pystr -> pystr -> list PrimFloat.float.

Abbreviation emb64 :=
  (fun t : pystr => embed_api Evaluate.default_model (sent_text t)).
Abbreviation diversity64 := (Float64.calculate_semantic_diversity embed_api).

Lemma float_mapM_get_embedding (texts : list pystr) (w : log) :
  mapM (Float64.get_embedding embed_api) (map JStr texts) w
  = (Ok (map emb64 texts), w ++ map embed_event texts).
Proof.
  revert w; induction texts as [|t texts IH]; intros w; simpl.
  - unfold ret. by rewrite app_nil_r.
  - unfold bind at 1. unfold bind at 1. unfold emit, ret at 1.
    unfold bind at 1. rewrite IH. unfold ret.
    by rewrite <- app_assoc.
Qed.

Lemma float_omapM_pair_distance (l : list (list PrimFloat.float)) (k : nat) :
  omapM Float64.pair_distance (Evaluate.combinations (zip (seq k (length l)) l) 2)
  = omapM (fun xy => Float64.cosine_distance (fst xy) (snd xy)) (value_pairs l).
Proof.
  revert k; induction l as [|x l IH]; intros k; [done|].
  cbn [length seq zip zip_with value_pairs].
  rewrite combinations_two_cons, 2!omapM_app, IH, 2!omapM_map.
  f_equal.
  rewrite (omapM_ext _ (fun p => Float64.cosine_distance x (snd p)) (zip _ l))
    by (by intros [j y] _).
  rewrite <- (omapM_map (fun y => Float64.cosine_distance x y) snd).
  change (map snd ?z) with (z.*2). rewrite snd_zip; [done|].
  by rewrite length_seq.
Qed.

(** The distance of two vectors of one dimension. *)
Abbreviation dist64 :=
  (fun v1 v2 : list PrimFloat.float =>
     PrimFloat.sub PrimFloat.one
       (PrimFloat.div
          (fold_left PrimFloat.add (zip_with PrimFloat.mul v1 v2) PrimFloat.zero)
          (PrimFloat.mul (Float64.np_linalg_norm v1) (Float64.np_linalg_norm v2)))).

Lemma float_run (texts : list pystr) (d : nat) (w : log) :
  (2 <= length texts)%nat ->
  Forall (fun t => length (emb64 t) = d) texts ->
  diversity64 (map JStr texts) w
  = (Ok (Float64.np_mean (map (fun xy => dist64 xy.1 xy.2)
                              (value_pairs (map emb64 texts)))),
     w ++ map embed_event texts).
Proof.
  intros Hn Hd. unfold Float64.calculate_semantic_diversity.
  rewrite length_map. apply Nat.ltb_ge in Hn as ->.
  unfold bind at 1. rewrite float_mapM_get_embedding.
  unfold bind, lift, Evaluate.enumerate. rewrite float_omapM_pair_distance.
  rewrite (omapM_ok _ (fun xy => dist64 xy.1 xy.2)); [done|].
  intros [x y] [Hx Hy]%value_pairs_elem. cbn [fst snd].
  apply list_elem_of_fmap in Hx as (tx & -> & Hx).
  apply list_elem_of_fmap in Hy as (ty & -> & Hy).
  rewrite Forall_forall in Hd.
  unfold Float64.cosine_distance, Float64.np_dot.
  rewrite (Hd _ Hx), (Hd _ Hy), Nat.eqb_refl. done.
Qed.

(** X24: in [float64], [cosine_distance] is symmetric, and for texts
    whose embeddings have one dimension the score of a permuted list is
    the [np.mean] of the same distances in another order: only the order
    in which they are added can make the two scores differ. *)
Theorem float64_scores_average_same_distances
    (texts texts' : list pystr) (d : nat) (w w' : log) :
  Permutation texts texts' ->
  (2 <= length texts)%nat ->
  Forall (fun t => length (emb64 t) = d) texts ->
  (forall v1 v2, Float64.cosine_distance v1 v2 = Float64.cosine_distance v2 v1)
  /\ exists ds ds',
       diversity64 (map JStr texts) w
       = (Ok (Float64.np_mean ds), w ++ map embed_event texts)
       /\ diversity64 (map JStr texts') w'
          = (Ok (Float64.np_mean ds'), w' ++ map embed_event texts')
       /\ Permutation ds ds'.
Proof.
  intros Hp Hn Hd. split; [apply float_cosine_distance_comm|].
  eexists _, _. split; [by apply (float_run texts d)|].
  split.
  - apply (float_run texts' d); [by rewrite <- Hp|by rewrite <- Hp].
  - apply (map_value_pairs_Permutation dist64).
    + intros x y. rewrite (zip_with_mul_comm x y).
      by rewrite (float_mul_comm (Float64.np_linalg_norm x)).
    + by apply Permutation_map.
Qed.

End Float64Distances.

Section Float64DistancesExamples.

Import Metric.

Lemma float64_scores_average_same_distances_witness :
  exists ds ds',
    Float64.calculate_semantic_diversity Float64.toy_embed
      (map JStr [str "x"; str "y"; str "z"]) []
    = (Ok (Float64.np_mean ds), [] ++ map embed_event [str "x"; str "y"; str "z"])
    /\ Float64.calculate_semantic_diversity Float64.toy_embed
         (map JStr [str "z"; str "y"; str "x"]) []
       = (Ok (Float64.np_mean ds'),
          [] ++ map embed_event [str "z"; str "y"; str "x"])
    /\ Permutation ds ds'.
Proof.
  apply (float64_scores_average_same_distances Float64.toy_embed
           [str "x"; str "y"; str "z"] [str "z"; str "y"; str "x"] 2 [] []).
  - apply (Permutation_rev [str "x"; str "y"; str "z"]).
  - simpl. lia.
  - repeat constructor.
Defined.

End Float64DistancesExamples.
